(** * nanit-web: state merge, request correlation, RTMP registry,
      HLS retry supervision and UID validation

    A shallow embedding of the Go sources
      - pkg/baby/state.go            (State, DeviceInfo, Merge, mergeDeviceInfo, getters)
      - pkg/client/websocket_conn.go (SendRequest, handleResponse)
      - the RTMP handler             (getNewSubscriber, closePublisher, handleConnection)
      - the HLS transcoder           (monitor, classifyAndSetError, shouldRetry, scheduleRetry)
      - pkg/app/app.go               (shouldRetryStreaming, startStreamingRetryMonitor)
      - EnsureValidBabyUID
    Go pointers are addresses into an explicit heap, [nil] is [None];
    maps are [gmap]s; machine integers are [Z]. *)

From Stdlib Require Import ZArith Lia Ascii String.
From stdpp Require Import base option list gmap strings.

Local Open Scope Z_scope.

(** ** Shared: machine integers and heap addresses *)

Abbreviation addr := nat.
Abbreviation ptr := (option addr).

(** [p == nil] *)
Definition IsNil (p : ptr) : bool :=
  match p with None => true | Some _ => false end.

(** Two's complement wrap-around of a 32-bit signed integer. *)
Definition wrap32 (z : Z) : Z := (z + 2^31) mod 2^32 - 2^31.

(** * pkg/baby/state.go *)

Module baby.

Inductive StreamRequestState :=
| StreamRequestState_NotRequested
| StreamRequestState_Requested
| StreamRequestState_RequestFailed.

Inductive StreamState :=
| StreamState_Unknown
| StreamState_Unhealthy
| StreamState_Alive.

#[global] Instance StreamRequestState_eq_dec : EqDecision StreamRequestState.
Proof. solve_decision. Defined.
#[global] Instance StreamState_eq_dec : EqDecision StreamState.
Proof. solve_decision. Defined.

(** The pointees of the scalar pointer fields ([*bool], [*int32], [*int64],
    [*string], [*StreamState], [*StreamRequestState]); this is what
    [reflect.Value.Elem().Interface()] yields for them. *)
Inductive value :=
| VStreamState (v : StreamState)
| VStreamRequestState (v : StreamRequestState)
| VBool (b : bool)
| VInt32 (z : Z)
| VInt64 (z : Z)
| VString (s : string).

#[global] Instance value_eq_dec : EqDecision value.
Proof. solve_decision. Defined.

(** [DeviceInfo]: every field is a pointer except [AvailableSoundtracks],
    a slice that is either nil or a list of strings. *)
Record DeviceInfo := mkDeviceInfo {
  FirmwareVersion : ptr;
  HardwareVersion : ptr;
  DeviceMode : ptr;
  MountingMode : ptr;
  WiFiNetwork : ptr;
  WiFiBand : ptr;
  NightVision : ptr;
  Volume : ptr;
  SleepMode : ptr;
  StatusLight : ptr;
  MicMute : ptr;
  AntiFlicker : ptr;
  StreamingError : ptr;
  UpgradeDownloaded : ptr;
  AvailableSoundtracks : option (list string);
  TempLowThreshold : ptr;
  TempHighThreshold : ptr;
  HumidityLowThreshold : ptr;
  HumidityHighThreshold : ptr;
  MobileBitrate : ptr;
  MobileFPS : ptr;
  DVRBitrate : ptr;
  DVRFPS : ptr;
  AnalyticsBitrate : ptr;
  AnalyticsFPS : ptr;
  LastUpdated : ptr
}.

(** [&DeviceInfo{}] *)
Definition emptyDeviceInfo : DeviceInfo :=
  mkDeviceInfo None None None None None None None None None None None None None
               None None None None None None None None None None None None None.

(** [State]: thirteen pointer fields, in declaration order.  The three
    fields whose Go name is also a type name carry a trailing underscore. *)
Record State := mkState {
  StreamState_ : ptr;
  StreamRequestState_ : ptr;
  IsWebsocketAlive : ptr;
  LastVideoPacketTime : ptr;
  MotionTimestamp : ptr;
  SoundTimestamp : ptr;
  Temperature : ptr;
  IsNight : ptr;
  TemperatureMilli : ptr;
  HumidityMilli : ptr;
  NightLight : ptr;
  Standby : ptr;
  DeviceInfo_ : ptr
}.

(** [&State{}] *)
Definition emptyState : State :=
  mkState None None None None None None None None None None None None None.

(** Heap cells: a scalar pointee, a [DeviceInfo] struct or a [State] struct. *)
Inductive cell :=
| CVal (v : value)
| CDeviceInfo (d : DeviceInfo)
| CState (s : State).

Abbreviation Heap := (list cell).

(** Allocation appends a cell; the fresh address is the old length. *)
Definition alloc (h : Heap) (c : cell) : Heap * addr := (h ++ [c], length h).

Definition loadVal (h : Heap) (a : addr) : option value :=
  match h !! a with Some (CVal v) => Some v | _ => None end.

Definition loadDeviceInfo (h : Heap) (a : addr) : option DeviceInfo :=
  match h !! a with Some (CDeviceInfo d) => Some d | _ => None end.

Definition loadState (h : Heap) (a : addr) : option State :=
  match h !! a with Some (CState s) => Some s | _ => None end.

(** [p.Elem().Interface()] for a scalar pointer; a nil pointer has none. *)
Definition Elem (h : Heap) (p : ptr) : option value :=
  match p with Some a => loadVal h a | None => None end.

(** *** The reflection view of [State] used by [Merge] *)

(** [reflect.Value.NumField()] *)
Definition NumField : nat := 13.

(** [reflect.Type.Field(i).Name] *)
Definition FieldName (i : nat) : string :=
  match i with
  | 0 => "StreamState" | 1 => "StreamRequestState" | 2 => "IsWebsocketAlive"
  | 3 => "LastVideoPacketTime" | 4 => "MotionTimestamp" | 5 => "SoundTimestamp"
  | 6 => "Temperature" | 7 => "IsNight" | 8 => "TemperatureMilli"
  | 9 => "HumidityMilli" | 10 => "NightLight" | 11 => "Standby"
  | 12 => "DeviceInfo" | _ => ""
  end%nat%string.

(** [reflect.Value.Field(i)] read as a pointer. *)
Definition Field (s : State) (i : nat) : ptr :=
  match i with
  | 0 => StreamState_ s | 1 => StreamRequestState_ s | 2 => IsWebsocketAlive s
  | 3 => LastVideoPacketTime s | 4 => MotionTimestamp s | 5 => SoundTimestamp s
  | 6 => Temperature s | 7 => IsNight s | 8 => TemperatureMilli s
  | 9 => HumidityMilli s | 10 => NightLight s | 11 => Standby s
  | 12 => DeviceInfo_ s | _ => None
  end%nat.

(** [reflect.Value.Field(i).Set(p)] *)
Definition SetField (s : State) (i : nat) (p : ptr) : State :=
  let '(mkState f0 f1 f2 f3 f4 f5 f6 f7 f8 f9 f10 f11 f12) := s in
  match i with
  | 0 => mkState p f1 f2 f3 f4 f5 f6 f7 f8 f9 f10 f11 f12
  | 1 => mkState f0 p f2 f3 f4 f5 f6 f7 f8 f9 f10 f11 f12
  | 2 => mkState f0 f1 p f3 f4 f5 f6 f7 f8 f9 f10 f11 f12
  | 3 => mkState f0 f1 f2 p f4 f5 f6 f7 f8 f9 f10 f11 f12
  | 4 => mkState f0 f1 f2 f3 p f5 f6 f7 f8 f9 f10 f11 f12
  | 5 => mkState f0 f1 f2 f3 f4 p f6 f7 f8 f9 f10 f11 f12
  | 6 => mkState f0 f1 f2 f3 f4 f5 p f7 f8 f9 f10 f11 f12
  | 7 => mkState f0 f1 f2 f3 f4 f5 f6 p f8 f9 f10 f11 f12
  | 8 => mkState f0 f1 f2 f3 f4 f5 f6 f7 p f9 f10 f11 f12
  | 9 => mkState f0 f1 f2 f3 f4 f5 f6 f7 f8 p f10 f11 f12
  | 10 => mkState f0 f1 f2 f3 f4 f5 f6 f7 f8 f9 p f11 f12
  | 11 => mkState f0 f1 f2 f3 f4 f5 f6 f7 f8 f9 f10 p f12
  | 12 => mkState f0 f1 f2 f3 f4 f5 f6 f7 f8 f9 f10 f11 p
  | _ => s
  end%nat.

(** *** mergeDeviceInfo *)

(** [if patch.X != nil { merged.X = patch.X }] on a copy of [current]. *)
Definition pick {A} (patchX currentX : option A) : option A :=
  match patchX with Some _ => patchX | None => currentX end.

(** The struct value [merged] at the [return &merged] of [mergeDeviceInfo]:
    a copy of [*current] with the twenty-five assignments of the source
    applied.  The source has no assignment for [LastUpdated]. *)
Definition mergedDeviceInfo (current patch : DeviceInfo) : DeviceInfo :=
  {| FirmwareVersion := pick (FirmwareVersion patch) (FirmwareVersion current);
     HardwareVersion := pick (HardwareVersion patch) (HardwareVersion current);
     DeviceMode := pick (DeviceMode patch) (DeviceMode current);
     MountingMode := pick (MountingMode patch) (MountingMode current);
     WiFiNetwork := pick (WiFiNetwork patch) (WiFiNetwork current);
     WiFiBand := pick (WiFiBand patch) (WiFiBand current);
     NightVision := pick (NightVision patch) (NightVision current);
     Volume := pick (Volume patch) (Volume current);
     SleepMode := pick (SleepMode patch) (SleepMode current);
     StatusLight := pick (StatusLight patch) (StatusLight current);
     MicMute := pick (MicMute patch) (MicMute current);
     AntiFlicker := pick (AntiFlicker patch) (AntiFlicker current);
     StreamingError := pick (StreamingError patch) (StreamingError current);
     UpgradeDownloaded := pick (UpgradeDownloaded patch) (UpgradeDownloaded current);
     AvailableSoundtracks := pick (AvailableSoundtracks patch) (AvailableSoundtracks current);
     TempLowThreshold := pick (TempLowThreshold patch) (TempLowThreshold current);
     TempHighThreshold := pick (TempHighThreshold patch) (TempHighThreshold current);
     HumidityLowThreshold := pick (HumidityLowThreshold patch) (HumidityLowThreshold current);
     HumidityHighThreshold := pick (HumidityHighThreshold patch) (HumidityHighThreshold current);
     MobileBitrate := pick (MobileBitrate patch) (MobileBitrate current);
     MobileFPS := pick (MobileFPS patch) (MobileFPS current);
     DVRBitrate := pick (DVRBitrate patch) (DVRBitrate current);
     DVRFPS := pick (DVRFPS patch) (DVRFPS current);
     AnalyticsBitrate := pick (AnalyticsBitrate patch) (AnalyticsBitrate current);
     AnalyticsFPS := pick (AnalyticsFPS patch) (AnalyticsFPS current);
     LastUpdated := LastUpdated current |}.

(** [func (state *State) mergeDeviceInfo(current, patch *DeviceInfo) *DeviceInfo].
    [None] is a fault (a pointer that does not lead to a [DeviceInfo]). *)
Definition mergeDeviceInfo (h : Heap) (current patch : ptr) : option (Heap * ptr) :=
  match patch with
  | None => Some (h, current)
  | Some pa =>
    match current with
    | None => Some (h, patch)
    | Some ca =>
      c ← loadDeviceInfo h ca;
      p ← loadDeviceInfo h pa;
      let '(h', a) := alloc h (CDeviceInfo (mergedDeviceInfo c p)) in
      Some (h', Some a)
    end
  end.

(** *** Merge *)

(** One iteration of the loop [for i := 0; i < currReflect.NumField(); i++].
    Every field of [State] has kind [reflect.Ptr], so the outer test of the
    body always succeeds.  The loop state is the heap and [changed]. *)
Definition merge_field (state stateUpdate newState : addr) (i : nat)
    (st : Heap * bool) : option (Heap * bool) :=
  let '(h, changed) := st in
  cur ← loadState h state;
  patch ← loadState h stateUpdate;
  new ← loadState h newState;
  let currField := Field cur i in
  let patchField := Field patch i in
  if bool_decide (FieldName i = "DeviceInfo"%string) && negb (IsNil patchField) then
    if IsNil currField then
      Some (<[newState := CState (SetField new i patchField)]> h, true)
    else
      '(h1, merged) ← mergeDeviceInfo h currField patchField;
      let changed := if bool_decide (merged ≠ currField) then true else changed in
      Some (<[newState := CState (SetField new i merged)]> h1, changed)
  else
    match patchField with
    | Some pa =>
      pv ← loadVal h pa;
      differs ← match currField with
                | None => Some true
                | Some ca => cv ← loadVal h ca; Some (bool_decide (cv ≠ pv))
                end;
      if (differs : bool) then
        let '(h1, p) := alloc h (CVal pv) in
        Some (<[newState := CState (SetField new i (Some p))]> h1, true)
      else
        Some (<[newState := CState (SetField new i currField)]> h, changed)
    | None =>
      Some (<[newState := CState (SetField new i currField)]> h, changed)
    end.

Fixpoint merge_loop (state stateUpdate newState : addr) (idxs : list nat)
    (st : Heap * bool) : option (Heap * bool) :=
  match idxs with
  | [] => Some st
  | i :: idxs' =>
    st' ← merge_field state stateUpdate newState i st;
    merge_loop state stateUpdate newState idxs' st'
  end.

(** [func (state *State) Merge(stateUpdate *State) *State] *)
Definition Merge (h : Heap) (state stateUpdate : addr) : option (Heap * addr) :=
  let '(h0, newState) := alloc h (CState emptyState) in
  '(h1, changed) ← merge_loop state stateUpdate newState (seq 0 NumField) (h0, false);
  Some (h1, if (changed : bool) then newState else state).

(** *** Constructors, setters and getters *)

(** [func NewState() *State] *)
Definition NewState (h : Heap) : Heap * addr := alloc h (CState emptyState).

(** [state.X = &value; return state] for the field with index [i]. *)
Definition setField (i : nat) (v : value) (h : Heap) (state : addr) : option (Heap * addr) :=
  s ← loadState h state;
  let '(h1, p) := alloc h (CVal v) in
  Some (<[state := CState (SetField s i (Some p))]> h1, state).

Definition SetStreamState (v : StreamState) := setField 0 (VStreamState v).
Definition SetStreamRequestState (v : StreamRequestState) := setField 1 (VStreamRequestState v).
Definition SetWebsocketAlive (b : bool) := setField 2 (VBool b).
Definition SetLastVideoPacketTime (t : Z) := setField 3 (VInt64 t).

(** [func (s *State) SetDeviceInfo(info *DeviceInfo) *State] *)
Definition SetDeviceInfo (info : ptr) (h : Heap) (state : addr) : option (Heap * addr) :=
  s ← loadState h state;
  Some (<[state := CState (SetField s 12 info)]> h, state).

(** [GetIsWebsocketAlive]: the pointee when the field is set, else [false]. *)
Definition GetIsWebsocketAlive (h : Heap) (s : State) : bool :=
  match IsWebsocketAlive s with
  | Some a => match loadVal h a with Some (VBool b) => b | _ => false end
  | None => false
  end.

(** [GetStreamRequestState]: the pointee, else [NotRequested]. *)
Definition GetStreamRequestState (h : Heap) (s : State) : StreamRequestState :=
  match StreamRequestState_ s with
  | Some a => match loadVal h a with
              | Some (VStreamRequestState v) => v
              | _ => StreamRequestState_NotRequested
              end
  | None => StreamRequestState_NotRequested
  end.

(** [GetStreamState]: the pointee, else [Unknown]. *)
Definition GetStreamState (h : Heap) (s : State) : StreamState :=
  match StreamState_ s with
  | Some a => match loadVal h a with
              | Some (VStreamState v) => v
              | _ => StreamState_Unknown
              end
  | None => StreamState_Unknown
  end.

(** [GetLastVideoPacketTime] returns the pointer itself. *)
Definition GetLastVideoPacketTime (s : State) : ptr := LastVideoPacketTime s.

(** *** Well-formed arguments and observations *)

(** The twenty-five pointer fields of a [DeviceInfo], in declaration order. *)
Definition DeviceInfo_ptrs (d : DeviceInfo) : list ptr :=
  [FirmwareVersion d; HardwareVersion d; DeviceMode d; MountingMode d;
   WiFiNetwork d; WiFiBand d; NightVision d; Volume d; SleepMode d;
   StatusLight d; MicMute d; AntiFlicker d; StreamingError d;
   UpgradeDownloaded d; TempLowThreshold d; TempHighThreshold d;
   HumidityLowThreshold d; HumidityHighThreshold d; MobileBitrate d;
   MobileFPS d; DVRBitrate d; DVRFPS d; AnalyticsBitrate d; AnalyticsFPS d;
   LastUpdated d].

(** A scalar pointer is nil or leads to a scalar cell. *)
Definition okVal (h : Heap) (p : ptr) : bool :=
  match p with None => true | Some a => bool_decide (is_Some (loadVal h a)) end.

(** A [*DeviceInfo] is nil or leads to a [DeviceInfo] cell. *)
Definition okDeviceInfo (h : Heap) (p : ptr) : bool :=
  match p with None => true | Some a => bool_decide (is_Some (loadDeviceInfo h a)) end.

Definition okState (h : Heap) (s : State) : bool :=
  forallb (λ i, okVal h (Field s i)) (seq 0 12) && okDeviceInfo h (DeviceInfo_ s).

(** What the type [*State] guarantees of a Go pointer that [Merge] receives:
    it leads to a [State] whose set fields lead to cells of their kind. *)
Definition wfState (h : Heap) (a : addr) : bool :=
  match loadState h a with Some s => okState h s | None => false end.

(** What a reader sees through a scalar pointer: [Some None] for nil,
    [Some (Some v)] for a pointee [v]; [None] is a fault. *)
Definition viewPtr (h : Heap) (p : ptr) : option (option value) :=
  match p with
  | None => Some None
  | Some a => v ← loadVal h a; Some (Some v)
  end.

Definition viewDeviceInfo (h : Heap) (p : ptr)
    : option (option (list (option value) * option (list string))) :=
  match p with
  | None => Some None
  | Some a =>
    d ← loadDeviceInfo h a;
    vs ← mapM (viewPtr h) (DeviceInfo_ptrs d);
    Some (Some (vs, AvailableSoundtracks d))
  end.

(** Everything a holder of a [*State] can read through it: the values of the
    twelve scalar fields and of every field of the device information. *)
Definition viewState (h : Heap) (a : addr) :=
  s ← loadState h a;
  vs ← mapM (λ i, viewPtr h (Field s i)) (seq 0 12);
  d ← viewDeviceInfo h (DeviceInfo_ s);
  Some (vs, d).

End baby.

(** ** Specification vocabulary for [Merge] *)

Module MergeSpec.
Import baby.

(** [ext n h h']: [h'] has every cell of [h] except possibly the one at [n]. *)
Definition ext (n : addr) (h h' : Heap) : Prop :=
  (length h ≤ length h')%nat ∧ ∀ a c, a ≠ n → h !! a = Some c → h' !! a = Some c.

(** The scalar that field [i] of the result must show. *)
Definition expected (h0 : Heap) (cur patch : State) (i : nat) : option value :=
  match Field patch i with
  | Some pa => loadVal h0 pa
  | None => Elem h0 (Field cur i)
  end.

(** Whether the loop body sets [changed] at field [i]. *)
Definition fieldChanged (h0 : Heap) (cur patch : State) (i : nat) : bool :=
  match Field patch i with
  | None => false
  | Some pa =>
    if decide (i = 12%nat) then true
    else match Field cur i with
         | None => true
         | Some ca => bool_decide (loadVal h0 ca ≠ loadVal h0 pa)
         end
  end.

(** What the loop body leaves in field [i] of the new record. *)
Definition fieldRule (h0 : Heap) (cur patch : State) (h : Heap) (i : nat) (q : ptr) : Prop :=
  if decide (i = 12%nat) then
    match Field patch i, Field cur i with
    | None, c => q = c
    | Some pa, None => q = Some pa
    | Some pa, Some ca =>
      ∃ c p a, loadDeviceInfo h0 ca = Some c ∧ loadDeviceInfo h0 pa = Some p ∧
               q = Some a ∧ (length h0 < a)%nat ∧
               loadDeviceInfo h a = Some (mergedDeviceInfo c p)
    end
  else viewPtr h q = Some (expected h0 cur patch i).

(** The loop invariant of [Merge] after the fields below [k] have been
    processed: [h0] is the heap at the call, [newState] the record under
    construction. *)
Definition Inv (h0 : Heap) (cur patch : State) (k : nat) (h : Heap) (changed : bool) : Prop :=
  ext (length h0) (h0 ++ [CState emptyState]) h ∧
  changed = existsb (fieldChanged h0 cur patch) (seq 0 k) ∧
  ∃ new, loadState h (length h0) = Some new ∧
         ∀ j, (j < k)%nat → fieldRule h0 cur patch h j (Field new j).

(** Example heaps.  [heapVolume]: a record at address 2 and a patch at
    address 5 whose device information both hold volume 5 and nothing else. *)
Definition deviceInfoVolume (p : ptr) : DeviceInfo :=
  mkDeviceInfo None None None None None None None p None None None None None
               None None None None None None None None None None None None None.

Definition deviceInfoLastUpdated (p : ptr) : DeviceInfo :=
  mkDeviceInfo None None None None None None None None None None None None None
               None None None None None None None None None None None None p.

Definition stateDeviceInfo (p : ptr) : State :=
  mkState None None None None None None None None None None None None p.

Definition heapVolume : Heap :=
  [CVal (VInt32 5); CDeviceInfo (deviceInfoVolume (Some 0%nat)); CState (stateDeviceInfo (Some 1%nat));
   CVal (VInt32 5); CDeviceInfo (deviceInfoVolume (Some 3%nat)); CState (stateDeviceInfo (Some 4%nat))].

(** [heapLastUpdated]: the record at address 2 was last updated at time 100,
    the patch at address 5 carries the time 200. *)
Definition heapLastUpdated : Heap :=
  [CVal (VInt64 100); CDeviceInfo (deviceInfoLastUpdated (Some 0%nat)); CState (stateDeviceInfo (Some 1%nat));
   CVal (VInt64 200); CDeviceInfo (deviceInfoLastUpdated (Some 3%nat)); CState (stateDeviceInfo (Some 4%nat))].

End MergeSpec.

(** * pkg/client/websocket_conn.go *)

Module client.

(** [RequestType] is a protobuf enum ([int32]); its constants are generated
    code and are not needed here. *)
Abbreviation RequestType := Z.

(** The fields of [*Response] that the connection reads; each is a pointer
    in the generated struct. *)
Record Response := mkResponse {
  RequestId : option Z;
  RequestType_ : option RequestType;
  StatusCode : option Z;
  StatusMessage : option string
}.

#[global] Instance Response_eq_dec : EqDecision Response.
Proof. solve_decision. Defined.

(** [resC := make(chan *Response, 1)]: what is buffered, and whether the
    channel has been closed. *)
Record chanResponse := mkChan {
  buf : list Response;
  closed : bool
}.

(** An entry of [resHandlers].  [Request_Type] is [*Request.Type] as set by
    [SendRequest]; [resC] is the channel captured by [HandleResponse]. *)
Record unhandledRequest := mkUnhandled {
  Request_Type : RequestType;
  resC : addr
}.

Record WebsocketConnection := mkConn {
  resHandlers : gmap Z unhandledRequest;
  lastRequestID : Z;
  chans : list chanResponse
}.

(** [NewWebsocketConnection] *)
Definition NewWebsocketConnection : WebsocketConnection :=
  mkConn ∅ 0 [].

(** The closure stored as [HandleResponse]:
    [select { case <-resC: return; default: resC <- res }].
    The receive is ready when a response is buffered (it is taken out) or
    when the channel is closed; otherwise the send fills the empty buffer. *)
Definition HandleResponse (res : Response) (c : chanResponse) : chanResponse :=
  match buf c with
  | _ :: rest => mkChan rest (closed c)
  | [] => if closed c then c else mkChan [res] false
  end.

(** What [SendRequest] returns: an awaiter bound to [resC], or, when
    [SendMessage] failed, one that returns the send error at once. *)
Inductive awaiterOf :=
| AwaitOn (ch : addr)
| AwaitSendFailed.

(** [SendRequest].  [sendOk] says whether [SendMessage] could marshal the
    message.  Returns the connection, the request id and the awaiter. *)
Definition SendRequest (sendOk : bool) (reqType : RequestType) (conn : WebsocketConnection)
    : WebsocketConnection * Z * awaiterOf :=
  let id := wrap32 (lastRequestID conn + 1) in
  let ch := length (chans conn) in
  let conn' :=
    mkConn (<[id := mkUnhandled reqType ch]> (resHandlers conn)) id
           (chans conn ++ [mkChan [] false]) in
  (conn', id, if sendOk then AwaitOn ch else AwaitSendFailed).

(** Which case of the awaiter's [select] runs. *)
Inductive awaitEvent :=
| TimerFired
| Received.

(** What the awaiter returns: the response pointer and the error. *)
Definition awaitResult : Type := option Response * option string.

(** [errors.New(...)] / [fmt.Errorf] after a response was received.  The
    rendering of the status code by [%v] is left abstract as [showInt]. *)
Definition responseError (showInt : Z → string) (res : Response) : option string :=
  match StatusCode res with
  | None => Some "No status code received"%string
  | Some code =>
    if decide (code ≠ 200) then
      match StatusMessage res with
      | Some m => if decide (m ≠ ""%string) then Some m
                  else Some ("Unexpected status code " +:+ showInt code)%string
      | None => Some ("Unexpected status code " +:+ showInt code)%string
      end
    else None
  end.

(** The awaiter on channel [ch].  [None]: the chosen case is not ready, or
    the call panics (closing a closed channel). *)
Definition awaiter (showInt : Z → string) (ev : awaitEvent) (ch : addr)
    (conn : WebsocketConnection) : option (WebsocketConnection * awaitResult) :=
  c ← chans conn !! ch;
  if closed c then None
  else
    match ev with
    | TimerFired =>
      Some (mkConn (resHandlers conn) (lastRequestID conn)
                   (<[ch := mkChan (buf c) true]> (chans conn)),
            (None, Some "Request timeout"%string))
    | Received =>
      match buf c with
      | res :: rest =>
        Some (mkConn (resHandlers conn) (lastRequestID conn)
                     (<[ch := mkChan rest true]> (chans conn)),
              (Some res, responseError showInt res))
      | [] => None
      end
    end.

(** [handleResponse].  [None]: a nil [RequestId] or [RequestType] is
    dereferenced. *)
Definition handleResponse (r : Response) (conn : WebsocketConnection)
    : option WebsocketConnection :=
  requestID ← RequestId r;
  requestType ← RequestType_ r;
  match resHandlers conn !! requestID with
  | Some unhandledReqCandidate =>
    if decide (requestType = Request_Type unhandledReqCandidate) then
      let ch := resC unhandledReqCandidate in
      Some (mkConn (delete requestID (resHandlers conn)) (lastRequestID conn)
                   (match chans conn !! ch with
                    | Some c => <[ch := HandleResponse r c]> (chans conn)
                    | None => chans conn
                    end))
    else Some conn
  | None => Some conn
  end.

(** Every pending entry has its own channel, and nothing is buffered in it:
    a response is only ever buffered after its entry has been deleted. *)
Definition pendingInv (conn : WebsocketConnection) : Prop :=
  (∀ id e, resHandlers conn !! id = Some e →
           ∃ c, chans conn !! resC e = Some c ∧ buf c = []) ∧
  (∀ id1 id2 e1 e2, resHandlers conn !! id1 = Some e1 → resHandlers conn !! id2 = Some e2 →
                    resC e1 = resC e2 → id1 = id2).

(** The reading of "on timeout the pending entry is discarded". *)
Definition timeout_discards_entry : Prop :=
  ∀ showInt reqType conn conn1 id ch conn2 res,
    SendRequest true reqType conn = (conn1, id, AwaitOn ch) →
    awaiter showInt TimerFired ch conn1 = Some (conn2, res) →
    resHandlers conn2 !! id = None.

(** What can happen to a connection: a request is sent, a response frame
    comes in, an awaiter returns. *)
Inductive connStep : WebsocketConnection → WebsocketConnection → Prop :=
| step_send sendOk reqType conn :
    connStep conn (SendRequest sendOk reqType conn).1.1
| step_response r conn conn' :
    handleResponse r conn = Some conn' → connStep conn conn'
| step_await showInt ev ch conn conn' res :
    awaiter showInt ev ch conn = Some (conn', res) → connStep conn conn'.

(** Examples: a connection with one pending request of type 5 (id 1,
    channel 0) and a successful response to it. *)
Definition connOnePending : WebsocketConnection :=
  (SendRequest true 5 NewWebsocketConnection).1.1.

Definition responseOK : Response :=
  mkResponse (Some 1) (Some 5) (Some 200) None.

Definition showNothing (z : Z) : string := ""%string.

End client.

(** * Baby UID validation (package baby) *)

Module uid.

(** The character class [[a-z0-9_-]] of [validUID] and [rtmpURLRX], on the
    bytes of a Go string.  A byte of a multi-byte rune is above 127 and so
    outside the class, as the rune itself is for the regexp engine. *)
Definition inClass (c : ascii) : bool :=
  let n := nat_of_ascii c in
  ((97 <=? n)%nat && (n <=? 122)%nat) ||
  ((48 <=? n)%nat && (n <=? 57)%nat) ||
  (n =? 95)%nat || (n =? 45)%nat.

Fixpoint allInClass (s : string) : bool :=
  match s with
  | EmptyString => true
  | String c rest => inClass c && allInClass rest
  end.

(** [validUID.MatchString] for [^[a-z0-9_-]+$]: anchored at both ends of the
    text (no multi-line flag), one or more characters of the class. *)
Definition validUID_MatchString (s : string) : bool :=
  match s with
  | EmptyString => false
  | String _ _ => allInClass s
  end.

(** [EnsureValidBabyUID]: [None] is the nil error. *)
Definition EnsureValidBabyUID (babyUID : string) : option string :=
  if negb (validUID_MatchString babyUID) then
    Some ("invalid baby UID '" +:+ babyUID +:+
          "': contains unsafe characters (only lowercase letters, numbers, underscore, and hyphen allowed)")%string
  else None.

(** The alphabet the specification names: lowercase letters, digits,
    underscore and hyphen. *)
Definition allowedAlphabet : list ascii :=
  list_ascii_of_string "abcdefghijklmnopqrstuvwxyz0123456789_-".

Definition isUpper (c : ascii) : bool :=
  let n := nat_of_ascii c in (65 <=? n)%nat && (n <=? 90)%nat.

End uid.

(** * pkg/app/app.go: the streaming retry monitor *)

Module app.
Import baby.

Record RTMPOpts := mkRTMPOpts {
  ListenAddr : string;
  PublicAddr : string;
  AutoStart : bool
}.

(** [Opts.RTMP] is a pointer; the other options play no part here. *)
Record Opts := mkOpts {
  RTMP : option RTMPOpts
}.

(** [retryInterval := 60 * time.Second], in nanoseconds. *)
Definition retryInterval : Z := 60 * 1000000000.

(** [shouldRetryStreaming].  [babyState] is what
    [app.BabyStateManager.GetBabyState(babyUID)] returned, read in heap [h]. *)
Definition shouldRetryStreaming (opts : Opts) (h : Heap) (babyState : State) : bool :=
  match RTMP opts with
  | None => false
  | Some rtmp =>
    if negb (AutoStart rtmp) then false
    else
      GetIsWebsocketAlive h babyState &&
      bool_decide (GetStreamRequestState h babyState = StreamRequestState_RequestFailed) &&
      bool_decide (GetStreamState h babyState ≠ StreamState_Alive)
  end.

(** One [<-ticker.C] of [startStreamingRetryMonitor]: whether
    [go app.retryStreaming(babyUID, conn)] is launched.  [conn] is the
    result of [app.getConnection(babyUID)], nil when none is registered. *)
Definition retryMonitorTick {Conn} (opts : Opts) (h : Heap) (babyState : State)
    (conn : option Conn) : bool :=
  if shouldRetryStreaming opts h babyState then
    match conn with
    | Some _ => true
    | None => false
    end
  else false.

(** The three conditions the specification puts on the device's state. *)
Definition stateAsksForRetry (h : Heap) (babyState : State) : Prop :=
  GetIsWebsocketAlive h babyState = true ∧
  GetStreamRequestState h babyState = StreamRequestState_RequestFailed ∧
  GetStreamState h babyState ≠ StreamState_Alive.

(** The specification's sentence as written: a retry exactly when the state
    asks for one. *)
Definition retry_exactly_on_state : Prop :=
  ∀ (opts : Opts) (h : Heap) (babyState : State) (conn : option unit),
    retryMonitorTick opts h babyState conn = true ↔ stateAsksForRetry h babyState.

(** Example: websocket alive, request failed, stream unhealthy. *)
Definition heapFailed : Heap :=
  [CVal (VStreamState StreamState_Unhealthy);
   CVal (VStreamRequestState StreamRequestState_RequestFailed);
   CVal (VBool true)].

Definition stateFailed : State :=
  mkState (Some 0%nat) (Some 1%nat) (Some 2%nat) None None None None None None None None None None.

Definition optsAutoStart : Opts :=
  mkOpts (Some (mkRTMPOpts ":1935" "192.168.1.100:1935" true)).

End app.

(** * The HLS transcoder (package streaming) *)

Module streaming.

Inductive StreamStatus :=
| StatusStarting
| StatusConnecting
| StatusStreaming
| StatusError
| StatusStopped.

#[global] Instance StreamStatus_eq_dec : EqDecision StreamStatus.
Proof. solve_decision. Defined.

Record StreamError := mkStreamError {
  Type_ : string;
  Message : string;
  Code : string
}.

Definition ErrorTypeRTMPConnection : string := "rtmp_connection".
Definition ErrorTypeRTMPTimeout : string := "rtmp_timeout".
Definition ErrorTypeFFmpegFailed : string := "ffmpeg_failed".
Definition ErrorTypeNetworkError : string := "network_error".
Definition ErrorTypeUnknown : string := "unknown".

(** [time.Second], in nanoseconds. *)
Definition Second : Z := 1000000000.

(** The fields of [HLSTranscoder] that the supervision logic reads or
    writes.  [retryCount] and [maxRetries] are Go [int]s. *)
Record HLSTranscoder := mkHLS {
  isRunning : bool;
  status : StreamStatus;
  lastError : option StreamError;
  startTime : Z;
  retryCount : Z;
  maxRetries : Z;
  retryDelay : Z
}.

(** The transcoder together with what it has set in motion: the due times
    of the retry goroutines that are waiting, and the number of FFmpeg
    processes started so far. *)
Record supervisor := mkSup {
  h : HLSTranscoder;
  retryTimers : list Z;
  launches : nat
}.

(** [NewHLSTranscoder] *)
Definition NewHLSTranscoder : HLSTranscoder :=
  mkHLS false StatusStopped None 0 0 5 (10 * Second).

(** [strings.Contains] *)
Fixpoint Contains (s substr : string) : bool :=
  if String.prefix substr s then true
  else match s with
       | EmptyString => false
       | String _ rest => Contains rest substr
       end.

(** [setError] *)
Definition setError (errorType message code : string) (t : HLSTranscoder) : HLSTranscoder :=
  mkHLS (isRunning t) StatusError (Some (mkStreamError errorType message code))
        (startTime t) (retryCount t) (maxRetries t) (retryDelay t).

(** [classifyAndSetError]; [now] is the clock read by [time.Since]. *)
Definition classifyAndSetError (now : Z) (errStr : string) (t : HLSTranscoder) : HLSTranscoder :=
  if Contains errStr "Connection refused" ||
     Contains errStr "Connection reset" ||
     Contains errStr "No route to host" then
    setError ErrorTypeRTMPConnection "Cannot connect to RTMP server" errStr t
  else if Contains errStr "Connection timed out" || Contains errStr "timeout" then
    setError ErrorTypeRTMPTimeout "RTMP connection timed out" errStr t
  else if Contains errStr "Server error" || Contains errStr "403" || Contains errStr "404" then
    setError ErrorTypeRTMPConnection "RTMP server rejected connection" errStr t
  else if Contains errStr "exit status" then
    if decide (now - startTime t < 10 * Second) then
      setError ErrorTypeRTMPConnection "RTMP stream not available" errStr t
    else
      setError ErrorTypeNetworkError "Stream disconnected unexpectedly" errStr t
  else
    setError ErrorTypeUnknown "FFmpeg process failed" errStr t.

(** [shouldRetry] *)
Definition shouldRetry (t : HLSTranscoder) : bool :=
  if decide (retryCount t >= maxRetries t) then false
  else match lastError t with
       | Some e =>
         if decide (Type_ e = ErrorTypeRTMPConnection) then true
         else if decide (Type_ e = ErrorTypeRTMPTimeout) then true
         else if decide (Type_ e = ErrorTypeNetworkError) then true
         else false
       | None => false
       end.

(** [scheduleRetry]: counts the retry and starts a goroutine that waits
    for [retryDelay]. *)
Definition scheduleRetry (now : Z) (s : supervisor) : supervisor :=
  let t := h s in
  mkSup (mkHLS (isRunning t) (status t) (lastError t) (startTime t)
               (retryCount t + 1) (maxRetries t) (retryDelay t))
        (retryTimers s ++ [now + retryDelay t])
        (launches s).

(** The deferred function of [monitor]. *)
Definition monitorDeferred (t : HLSTranscoder) : HLSTranscoder :=
  mkHLS false (if decide (status t ≠ StatusError) then StatusStopped else status t)
        (lastError t) (startTime t) (retryCount t) (maxRetries t) (retryDelay t).

(** The case of the [select] in [monitor] that runs. *)
Inductive monitorEvent :=
| StopRequested
| ProcessExited (err : option string).

(** [monitor] from its [select] to its return, deferred function included. *)
Definition monitor (now : Z) (ev : monitorEvent) (s : supervisor) : supervisor :=
  let s1 :=
    match ev with
    | StopRequested => s
    | ProcessExited None => s
    | ProcessExited (Some err) =>
      let s' := mkSup (classifyAndSetError now err (h s)) (retryTimers s) (launches s) in
      if shouldRetry (h s') then scheduleRetry now s' else s'
    end in
  mkSup (monitorDeferred (h s1)) (retryTimers s1) (launches s1).

(** [restartFFmpeg]; [startOk] says whether [cmd.Start] succeeded. *)
Definition restartFFmpeg (startOk : bool) (s : supervisor) : supervisor :=
  if startOk then mkSup (h s) (retryTimers s) (S (launches s))
  else mkSup (setError ErrorTypeFFmpegFailed "Failed to restart FFmpeg process" "" (h s))
             (retryTimers s) (launches s).

(** The case of the [select] in the goroutine of [scheduleRetry]. *)
Inductive retryEvent :=
| DelayElapsed (startOk : bool)
| StopSignalled.

(** The goroutine started by [scheduleRetry], from its [select] on. *)
Definition retryGoroutine (ev : retryEvent) (s : supervisor) : supervisor :=
  let s0 := mkSup (h s) (tail (retryTimers s)) (launches s) in
  match ev with
  | StopSignalled => s0
  | DelayElapsed startOk =>
    if negb (isRunning (h s0)) then s0
    else
      let t := h s0 in
      restartFFmpeg startOk
        (mkSup (mkHLS (isRunning t) StatusConnecting None (startTime t)
                      (retryCount t) (maxRetries t) (retryDelay t))
               (retryTimers s0) (launches s0))
  end.

(** [Start]; [mkdirOk] and [startOk] say whether [os.MkdirAll] and
    [cmd.Start] succeeded.  Returns the error, if any. *)
Definition Start (now : Z) (mkdirOk startOk : bool) (s : supervisor)
    : supervisor * option string :=
  let t := h s in
  if isRunning t then (s, Some "transcoder already running"%string)
  else
    let t1 := mkHLS (isRunning t) StatusStarting None now 0 (maxRetries t) (retryDelay t) in
    if negb mkdirOk then
      (mkSup (setError ErrorTypeFFmpegFailed "Failed to create HLS directory" "" t1)
             (retryTimers s) (launches s), Some "failed to create HLS directory"%string)
    else if startOk then
      (mkSup (mkHLS true StatusConnecting (lastError t1) (startTime t1)
                    (retryCount t1) (maxRetries t1) (retryDelay t1))
             (retryTimers s) (S (launches s)), None)
    else
      (mkSup (setError ErrorTypeFFmpegFailed "Failed to start FFmpeg process" "" t1)
             (retryTimers s) (launches s), Some "failed to start FFmpeg"%string).

(** [GetStatus] *)
Definition GetStatus (s : supervisor) : StreamStatus * option StreamError :=
  (status (h s), lastError (h s)).

(** The class of an error text, as [classifyAndSetError] records it. *)
Definition classOf (now : Z) (errStr : string) (t : HLSTranscoder) : option string :=
  Type_ <$> lastError (classifyAndSetError now errStr t).

(** Example run: a new transcoder is started at time 0; FFmpeg exits after
    one second because the RTMP server refuses the connection; eleven
    seconds in, the retry goroutine's delay has elapsed. *)
Definition supStarted : supervisor :=
  (Start 0 true true (mkSup NewHLSTranscoder [] 0)).1.

Definition supFailed : supervisor :=
  monitor (1 * Second) (ProcessExited (Some "dial tcp 127.0.0.1:1935: Connection refused"%string))
          supStarted.

Definition supAfterDelay : supervisor :=
  retryGoroutine (DelayElapsed true) supFailed.

End streaming.

(** * The state store (package baby) *)

Module statestore.
Import baby.

(** Modelled from the spec: the [StateManager] of package baby, whose source
    file is not among the sources.  "In-memory map of device-UID to State
    record"; [notified] lists the subscriber notifications sent, each with
    the UID and the update. *)
Record StateManager := mkStateManager {
  babiesByUID : gmap string addr;
  notified : list (string * addr)
}.

(** Modelled from the spec: [GetBabyState], "never nil: absent UID returns a
    fresh empty record". *)
Definition GetBabyState (babyUID : string) (h : Heap) (m : StateManager) : Heap * addr :=
  match babiesByUID m !! babyUID with
  | Some a => (h, a)
  | None => NewState h
  end.

(** Modelled from the spec: [StateManager.Update], "performs the field-level
    merge; if no field actually changed, the store returns the unchanged
    prior record without notifying subscribers; if any field changed, all
    subscribers are invoked with (uid, update-delta)".  The merge is
    [baby.Merge]; "unchanged" is that [Merge] returned the prior record. *)
Definition Update (babyUID : string) (stateUpdate : addr) (h : Heap) (m : StateManager)
    : option (Heap * StateManager) :=
  let '(h0, cur) := GetBabyState babyUID h m in
  '(h1, r) ← Merge h0 cur stateUpdate;
  if decide (r = cur) then Some (h1, m)
  else Some (h1, mkStateManager (<[babyUID := r]> (babiesByUID m))
                                (notified m ++ [(babyUID, stateUpdate)])).

(** Every record of the store is well-formed in the heap. *)
Definition wfStore (h : Heap) (m : StateManager) : Prop :=
  ∀ uid a, babiesByUID m !! uid = Some a → wfState h a = true.

End statestore.

(** * The RTMP handler (package rtmpserver) *)

Module rtmpserver.
Import baby statestore.

(** Media packets are opaque. *)
Abbreviation packet := Z.

(** Modelled from the spec: the subscriber of a broadcaster, "a buffered
    message queue feeding one downstream connection"; the broadcaster's
    source file is not among the sources. *)
Record subscriber := mkSubscriber {
  pktC : list packet;
  pktC_closed : bool
}.

(** Modelled from the spec: the broadcaster, "one Publisher and a set of
    Subscriber channels". *)
Record broadcaster := mkBroadcaster {
  subscribers : list addr
}.

(** [rtmpHandler], with the heaps its pointers lead into. *)
Record rtmpHandler := mkHandler {
  broadcastersByUID : gmap string addr;
  broadcasters : list broadcaster;
  subs : list subscriber;
  heap : Heap;
  babyStateManager : StateManager
}.

(** Modelled from the spec: [newBroadcaster], a publisher without subscribers. *)
Definition newBroadcaster (s : rtmpHandler) : rtmpHandler * addr :=
  (mkHandler (broadcastersByUID s) (broadcasters s ++ [mkBroadcaster []]) (subs s)
             (heap s) (babyStateManager s),
   length (broadcasters s)).

(** Modelled from the spec: [broadcaster.newSubscriber], a new open queue
    added to the fan-out set of the publisher. *)
Definition newSubscriber (b : addr) (s : rtmpHandler) : rtmpHandler * addr :=
  let sub := length (subs s) in
  (mkHandler (broadcastersByUID s)
             (match broadcasters s !! b with
              | Some bc => <[b := mkBroadcaster (subscribers bc ++ [sub])]> (broadcasters s)
              | None => broadcasters s
              end)
             (subs s ++ [mkSubscriber [] false]) (heap s) (babyStateManager s),
   sub).

Definition closeQueue (sub : addr) (l : list subscriber) : list subscriber :=
  match l !! sub with
  | Some q => <[sub := mkSubscriber (pktC q) true]> l
  | None => l
  end.

(** Modelled from the spec: [broadcaster.closeSubscribers], "closing all
    subscribers": the queue of every subscriber of the publisher is closed. *)
Definition closeSubscribers (b : addr) (s : rtmpHandler) : rtmpHandler :=
  match broadcasters s !! b with
  | Some bc =>
    mkHandler (broadcastersByUID s) (broadcasters s)
              (foldr closeQueue (subs s) (subscribers bc))
              (heap s) (babyStateManager s)
  | None => s
  end.

(** [getNewPublisher].  The goroutine [go existingBroadcaster.closeSubscribers()]
    is run at once. *)
Definition getNewPublisher (babyUID : string) (s : rtmpHandler) : rtmpHandler * addr :=
  let '(s1, b) := newBroadcaster s in
  let existing := broadcastersByUID s1 !! babyUID in
  let s2 := mkHandler (<[babyUID := b]> (broadcastersByUID s1)) (broadcasters s1) (subs s1)
                      (heap s1) (babyStateManager s1) in
  match existing with
  | Some existingBroadcaster => (closeSubscribers existingBroadcaster s2, b)
  | None => (s2, b)
  end.

(** [getNewSubscriber]: the subscriber handle, nil when the UID has no
    broadcaster, and what the [unsubscribe] closure captures. *)
Definition getNewSubscriber (babyUID : string) (s : rtmpHandler)
    : rtmpHandler * ptr * option (addr * addr) :=
  match broadcastersByUID s !! babyUID with
  | None => (s, None, None)
  | Some b =>
    let '(s1, sub) := newSubscriber b s in
    (s1, Some sub, Some (b, sub))
  end.

(** [closePublisher] *)
Definition closePublisher (babyUID : string) (b : addr) (s : rtmpHandler) : rtmpHandler :=
  let s1 :=
    match broadcastersByUID s !! babyUID with
    | Some currBroadcaster =>
      if decide (currBroadcaster = b) then
        mkHandler (delete babyUID (broadcastersByUID s)) (broadcasters s) (subs s)
                  (heap s) (babyStateManager s)
      else s
    | None => s
    end in
  closeSubscribers b s1.

(** [s.babyStateManager.Update(babyUID, u)] with the update built by [build]. *)
Definition updateState (babyUID : string) (build : Heap → option (Heap * addr))
    (s : rtmpHandler) : option rtmpHandler :=
  '(h1, u) ← build (heap s);
  '(h2, m) ← Update babyUID u h1 (babyStateManager s);
  Some (mkHandler (broadcastersByUID s) (broadcasters s) (subs s) h2 m).

(** [*baby.NewState().SetStreamState(StreamState_Unhealthy).SetLastVideoPacketTime(0)] *)
Definition unhealthyUpdate (h : Heap) : option (Heap * addr) :=
  let '(h1, a) := NewState h in
  '(h2, a) ← SetStreamState StreamState_Unhealthy h1 a;
  SetLastVideoPacketTime 0 h2 a.

(** [*baby.NewState().SetStreamState(StreamState_Alive).SetStreamRequestState(StreamRequestState_NotRequested)] *)
Definition aliveUpdate (h : Heap) : option (Heap * addr) :=
  let '(h1, a) := NewState h in
  '(h2, a) ← SetStreamState StreamState_Alive h1 a;
  SetStreamRequestState StreamRequestState_NotRequested h2 a.

(** The [err != nil] branch of the publisher loop of [handleConnection]:
    [c.ReadPacket()] failed. *)
Definition publisherReadFailed (babyUID : string) (publisher : addr) (s : rtmpHandler)
    : option rtmpHandler :=
  s1 ← updateState babyUID unhealthyUpdate s;
  Some (closePublisher babyUID publisher s1).

(** [rtmpURLRX.FindStringSubmatch] for [^/local/([a-z0-9_-]+)$]: the
    captured UID when the path matches. *)
Definition rtmpURLRX_submatch (path : string) : option string :=
  if String.prefix "/local/" path then
    let rest := String.substring 7 (String.length path - 7) path in
    if uid.validUID_MatchString rest then Some rest else None
  else None.

(** How [handleConnection] leaves the connection before it enters one of
    its loops. *)
Inductive connOutcome :=
| ConnClosed
| Publishing (babyUID : string) (publisher : addr)
| Subscribed (babyUID : string) (sub : addr).

(** [handleConnection] up to its loops.  [publishing] is [c.Publishing]. *)
Definition handleConnection (path : string) (publishing : bool) (s : rtmpHandler)
    : option (rtmpHandler * connOutcome) :=
  match rtmpURLRX_submatch path with
  | None => Some (s, ConnClosed)
  | Some babyUID =>
    if publishing then
      let '(s1, publisher) := getNewPublisher babyUID s in
      s2 ← updateState babyUID aliveUpdate s1;
      Some (s2, Publishing babyUID publisher)
    else
      let '(s1, subscriber, _) := getNewSubscriber babyUID s in
      match subscriber with
      | None => Some (s1, ConnClosed)
      | Some sub => Some (s1, Subscribed babyUID sub)
      end
  end.

(** Examples: a handler without publishers, and the same after a publisher
    connected for the UID "abc". *)
Definition handlerEmpty : rtmpHandler :=
  mkHandler ∅ [] [] [] (mkStateManager ∅ []).

Definition handlerPublishing : rtmpHandler :=
  match handleConnection "/local/abc" true handlerEmpty with
  | Some (s, _) => s
  | None => handlerEmpty
  end.

End rtmpserver.

(** * pkg/baby/state.go: the remaining accessors *)

Module accessors.
Import baby.

(** *** Assignments to single fields of a [DeviceInfo] *)

Definition withFirmwareVersion (p : ptr) (d : DeviceInfo) : DeviceInfo :=
  mkDeviceInfo p (HardwareVersion d) (DeviceMode d) (MountingMode d) (WiFiNetwork d)
    (WiFiBand d) (NightVision d) (Volume d) (SleepMode d) (StatusLight d) (MicMute d)
    (AntiFlicker d) (StreamingError d) (UpgradeDownloaded d) (AvailableSoundtracks d)
    (TempLowThreshold d) (TempHighThreshold d) (HumidityLowThreshold d)
    (HumidityHighThreshold d) (MobileBitrate d) (MobileFPS d) (DVRBitrate d) (DVRFPS d)
    (AnalyticsBitrate d) (AnalyticsFPS d) (LastUpdated d).

Definition withHardwareVersion (p : ptr) (d : DeviceInfo) : DeviceInfo :=
  mkDeviceInfo (FirmwareVersion d) p (DeviceMode d) (MountingMode d) (WiFiNetwork d)
    (WiFiBand d) (NightVision d) (Volume d) (SleepMode d) (StatusLight d) (MicMute d)
    (AntiFlicker d) (StreamingError d) (UpgradeDownloaded d) (AvailableSoundtracks d)
    (TempLowThreshold d) (TempHighThreshold d) (HumidityLowThreshold d)
    (HumidityHighThreshold d) (MobileBitrate d) (MobileFPS d) (DVRBitrate d) (DVRFPS d)
    (AnalyticsBitrate d) (AnalyticsFPS d) (LastUpdated d).

Definition withDeviceMode (p : ptr) (d : DeviceInfo) : DeviceInfo :=
  mkDeviceInfo (FirmwareVersion d) (HardwareVersion d) p (MountingMode d)
    (WiFiNetwork d) (WiFiBand d) (NightVision d) (Volume d) (SleepMode d)
    (StatusLight d) (MicMute d) (AntiFlicker d) (StreamingError d) (UpgradeDownloaded d)
    (AvailableSoundtracks d) (TempLowThreshold d) (TempHighThreshold d)
    (HumidityLowThreshold d) (HumidityHighThreshold d) (MobileBitrate d) (MobileFPS d)
    (DVRBitrate d) (DVRFPS d) (AnalyticsBitrate d) (AnalyticsFPS d) (LastUpdated d).

Definition withWiFiNetwork (p : ptr) (d : DeviceInfo) : DeviceInfo :=
  mkDeviceInfo (FirmwareVersion d) (HardwareVersion d) (DeviceMode d) (MountingMode d) p
    (WiFiBand d) (NightVision d) (Volume d) (SleepMode d) (StatusLight d) (MicMute d)
    (AntiFlicker d) (StreamingError d) (UpgradeDownloaded d) (AvailableSoundtracks d)
    (TempLowThreshold d) (TempHighThreshold d) (HumidityLowThreshold d)
    (HumidityHighThreshold d) (MobileBitrate d) (MobileFPS d) (DVRBitrate d) (DVRFPS d)
    (AnalyticsBitrate d) (AnalyticsFPS d) (LastUpdated d).

Definition withNightVision (p : ptr) (d : DeviceInfo) : DeviceInfo :=
  mkDeviceInfo (FirmwareVersion d) (HardwareVersion d) (DeviceMode d) (MountingMode d)
    (WiFiNetwork d) (WiFiBand d) p (Volume d) (SleepMode d) (StatusLight d) (MicMute d)
    (AntiFlicker d) (StreamingError d) (UpgradeDownloaded d) (AvailableSoundtracks d)
    (TempLowThreshold d) (TempHighThreshold d) (HumidityLowThreshold d)
    (HumidityHighThreshold d) (MobileBitrate d) (MobileFPS d) (DVRBitrate d) (DVRFPS d)
    (AnalyticsBitrate d) (AnalyticsFPS d) (LastUpdated d).

Definition withVolume (p : ptr) (d : DeviceInfo) : DeviceInfo :=
  mkDeviceInfo (FirmwareVersion d) (HardwareVersion d) (DeviceMode d) (MountingMode d)
    (WiFiNetwork d) (WiFiBand d) (NightVision d) p (SleepMode d) (StatusLight d)
    (MicMute d) (AntiFlicker d) (StreamingError d) (UpgradeDownloaded d)
    (AvailableSoundtracks d) (TempLowThreshold d) (TempHighThreshold d)
    (HumidityLowThreshold d) (HumidityHighThreshold d) (MobileBitrate d) (MobileFPS d)
    (DVRBitrate d) (DVRFPS d) (AnalyticsBitrate d) (AnalyticsFPS d) (LastUpdated d).

Definition withSleepMode (p : ptr) (d : DeviceInfo) : DeviceInfo :=
  mkDeviceInfo (FirmwareVersion d) (HardwareVersion d) (DeviceMode d) (MountingMode d)
    (WiFiNetwork d) (WiFiBand d) (NightVision d) (Volume d) p (StatusLight d)
    (MicMute d) (AntiFlicker d) (StreamingError d) (UpgradeDownloaded d)
    (AvailableSoundtracks d) (TempLowThreshold d) (TempHighThreshold d)
    (HumidityLowThreshold d) (HumidityHighThreshold d) (MobileBitrate d) (MobileFPS d)
    (DVRBitrate d) (DVRFPS d) (AnalyticsBitrate d) (AnalyticsFPS d) (LastUpdated d).

Definition withStreamingError (p : ptr) (d : DeviceInfo) : DeviceInfo :=
  mkDeviceInfo (FirmwareVersion d) (HardwareVersion d) (DeviceMode d) (MountingMode d)
    (WiFiNetwork d) (WiFiBand d) (NightVision d) (Volume d) (SleepMode d)
    (StatusLight d) (MicMute d) (AntiFlicker d) p (UpgradeDownloaded d)
    (AvailableSoundtracks d) (TempLowThreshold d) (TempHighThreshold d)
    (HumidityLowThreshold d) (HumidityHighThreshold d) (MobileBitrate d) (MobileFPS d)
    (DVRBitrate d) (DVRFPS d) (AnalyticsBitrate d) (AnalyticsFPS d) (LastUpdated d).

Definition withWiFiBand (p : ptr) (d : DeviceInfo) : DeviceInfo :=
  mkDeviceInfo (FirmwareVersion d) (HardwareVersion d) (DeviceMode d) (MountingMode d)
    (WiFiNetwork d) p (NightVision d) (Volume d) (SleepMode d) (StatusLight d)
    (MicMute d) (AntiFlicker d) (StreamingError d) (UpgradeDownloaded d)
    (AvailableSoundtracks d) (TempLowThreshold d) (TempHighThreshold d)
    (HumidityLowThreshold d) (HumidityHighThreshold d) (MobileBitrate d) (MobileFPS d)
    (DVRBitrate d) (DVRFPS d) (AnalyticsBitrate d) (AnalyticsFPS d) (LastUpdated d).

Definition withStatusLight (p : ptr) (d : DeviceInfo) : DeviceInfo :=
  mkDeviceInfo (FirmwareVersion d) (HardwareVersion d) (DeviceMode d) (MountingMode d)
    (WiFiNetwork d) (WiFiBand d) (NightVision d) (Volume d) (SleepMode d) p (MicMute d)
    (AntiFlicker d) (StreamingError d) (UpgradeDownloaded d) (AvailableSoundtracks d)
    (TempLowThreshold d) (TempHighThreshold d) (HumidityLowThreshold d)
    (HumidityHighThreshold d) (MobileBitrate d) (MobileFPS d) (DVRBitrate d) (DVRFPS d)
    (AnalyticsBitrate d) (AnalyticsFPS d) (LastUpdated d).

Definition withMicMute (p : ptr) (d : DeviceInfo) : DeviceInfo :=
  mkDeviceInfo (FirmwareVersion d) (HardwareVersion d) (DeviceMode d) (MountingMode d)
    (WiFiNetwork d) (WiFiBand d) (NightVision d) (Volume d) (SleepMode d)
    (StatusLight d) p (AntiFlicker d) (StreamingError d) (UpgradeDownloaded d)
    (AvailableSoundtracks d) (TempLowThreshold d) (TempHighThreshold d)
    (HumidityLowThreshold d) (HumidityHighThreshold d) (MobileBitrate d) (MobileFPS d)
    (DVRBitrate d) (DVRFPS d) (AnalyticsBitrate d) (AnalyticsFPS d) (LastUpdated d).

Definition withAntiFlicker (p : ptr) (d : DeviceInfo) : DeviceInfo :=
  mkDeviceInfo (FirmwareVersion d) (HardwareVersion d) (DeviceMode d) (MountingMode d)
    (WiFiNetwork d) (WiFiBand d) (NightVision d) (Volume d) (SleepMode d)
    (StatusLight d) (MicMute d) p (StreamingError d) (UpgradeDownloaded d)
    (AvailableSoundtracks d) (TempLowThreshold d) (TempHighThreshold d)
    (HumidityLowThreshold d) (HumidityHighThreshold d) (MobileBitrate d) (MobileFPS d)
    (DVRBitrate d) (DVRFPS d) (AnalyticsBitrate d) (AnalyticsFPS d) (LastUpdated d).

Definition withMountingMode (p : ptr) (d : DeviceInfo) : DeviceInfo :=
  mkDeviceInfo (FirmwareVersion d) (HardwareVersion d) (DeviceMode d) p (WiFiNetwork d)
    (WiFiBand d) (NightVision d) (Volume d) (SleepMode d) (StatusLight d) (MicMute d)
    (AntiFlicker d) (StreamingError d) (UpgradeDownloaded d) (AvailableSoundtracks d)
    (TempLowThreshold d) (TempHighThreshold d) (HumidityLowThreshold d)
    (HumidityHighThreshold d) (MobileBitrate d) (MobileFPS d) (DVRBitrate d) (DVRFPS d)
    (AnalyticsBitrate d) (AnalyticsFPS d) (LastUpdated d).

Definition withUpgradeDownloaded (p : ptr) (d : DeviceInfo) : DeviceInfo :=
  mkDeviceInfo (FirmwareVersion d) (HardwareVersion d) (DeviceMode d) (MountingMode d)
    (WiFiNetwork d) (WiFiBand d) (NightVision d) (Volume d) (SleepMode d)
    (StatusLight d) (MicMute d) (AntiFlicker d) (StreamingError d) p
    (AvailableSoundtracks d) (TempLowThreshold d) (TempHighThreshold d)
    (HumidityLowThreshold d) (HumidityHighThreshold d) (MobileBitrate d) (MobileFPS d)
    (DVRBitrate d) (DVRFPS d) (AnalyticsBitrate d) (AnalyticsFPS d) (LastUpdated d).

Definition withLastUpdated (p : ptr) (d : DeviceInfo) : DeviceInfo :=
  mkDeviceInfo (FirmwareVersion d) (HardwareVersion d) (DeviceMode d) (MountingMode d)
    (WiFiNetwork d) (WiFiBand d) (NightVision d) (Volume d) (SleepMode d)
    (StatusLight d) (MicMute d) (AntiFlicker d) (StreamingError d) (UpgradeDownloaded d)
    (AvailableSoundtracks d) (TempLowThreshold d) (TempHighThreshold d)
    (HumidityLowThreshold d) (HumidityHighThreshold d) (MobileBitrate d) (MobileFPS d)
    (DVRBitrate d) (DVRFPS d) (AnalyticsBitrate d) (AnalyticsFPS d) p.

Definition withTempLowThreshold (p : ptr) (d : DeviceInfo) : DeviceInfo :=
  mkDeviceInfo (FirmwareVersion d) (HardwareVersion d) (DeviceMode d) (MountingMode d)
    (WiFiNetwork d) (WiFiBand d) (NightVision d) (Volume d) (SleepMode d)
    (StatusLight d) (MicMute d) (AntiFlicker d) (StreamingError d) (UpgradeDownloaded d)
    (AvailableSoundtracks d) p (TempHighThreshold d) (HumidityLowThreshold d)
    (HumidityHighThreshold d) (MobileBitrate d) (MobileFPS d) (DVRBitrate d) (DVRFPS d)
    (AnalyticsBitrate d) (AnalyticsFPS d) (LastUpdated d).

Definition withTempHighThreshold (p : ptr) (d : DeviceInfo) : DeviceInfo :=
  mkDeviceInfo (FirmwareVersion d) (HardwareVersion d) (DeviceMode d) (MountingMode d)
    (WiFiNetwork d) (WiFiBand d) (NightVision d) (Volume d) (SleepMode d)
    (StatusLight d) (MicMute d) (AntiFlicker d) (StreamingError d) (UpgradeDownloaded d)
    (AvailableSoundtracks d) (TempLowThreshold d) p (HumidityLowThreshold d)
    (HumidityHighThreshold d) (MobileBitrate d) (MobileFPS d) (DVRBitrate d) (DVRFPS d)
    (AnalyticsBitrate d) (AnalyticsFPS d) (LastUpdated d).

Definition withHumidityLowThreshold (p : ptr) (d : DeviceInfo) : DeviceInfo :=
  mkDeviceInfo (FirmwareVersion d) (HardwareVersion d) (DeviceMode d) (MountingMode d)
    (WiFiNetwork d) (WiFiBand d) (NightVision d) (Volume d) (SleepMode d)
    (StatusLight d) (MicMute d) (AntiFlicker d) (StreamingError d) (UpgradeDownloaded d)
    (AvailableSoundtracks d) (TempLowThreshold d) (TempHighThreshold d) p
    (HumidityHighThreshold d) (MobileBitrate d) (MobileFPS d) (DVRBitrate d) (DVRFPS d)
    (AnalyticsBitrate d) (AnalyticsFPS d) (LastUpdated d).

Definition withHumidityHighThreshold (p : ptr) (d : DeviceInfo) : DeviceInfo :=
  mkDeviceInfo (FirmwareVersion d) (HardwareVersion d) (DeviceMode d) (MountingMode d)
    (WiFiNetwork d) (WiFiBand d) (NightVision d) (Volume d) (SleepMode d)
    (StatusLight d) (MicMute d) (AntiFlicker d) (StreamingError d) (UpgradeDownloaded d)
    (AvailableSoundtracks d) (TempLowThreshold d) (TempHighThreshold d)
    (HumidityLowThreshold d) p (MobileBitrate d) (MobileFPS d) (DVRBitrate d) (DVRFPS d)
    (AnalyticsBitrate d) (AnalyticsFPS d) (LastUpdated d).

Definition withMobileBitrate (p : ptr) (d : DeviceInfo) : DeviceInfo :=
  mkDeviceInfo (FirmwareVersion d) (HardwareVersion d) (DeviceMode d) (MountingMode d)
    (WiFiNetwork d) (WiFiBand d) (NightVision d) (Volume d) (SleepMode d)
    (StatusLight d) (MicMute d) (AntiFlicker d) (StreamingError d) (UpgradeDownloaded d)
    (AvailableSoundtracks d) (TempLowThreshold d) (TempHighThreshold d)
    (HumidityLowThreshold d) (HumidityHighThreshold d) p (MobileFPS d) (DVRBitrate d)
    (DVRFPS d) (AnalyticsBitrate d) (AnalyticsFPS d) (LastUpdated d).

Definition withMobileFPS (p : ptr) (d : DeviceInfo) : DeviceInfo :=
  mkDeviceInfo (FirmwareVersion d) (HardwareVersion d) (DeviceMode d) (MountingMode d)
    (WiFiNetwork d) (WiFiBand d) (NightVision d) (Volume d) (SleepMode d)
    (StatusLight d) (MicMute d) (AntiFlicker d) (StreamingError d) (UpgradeDownloaded d)
    (AvailableSoundtracks d) (TempLowThreshold d) (TempHighThreshold d)
    (HumidityLowThreshold d) (HumidityHighThreshold d) (MobileBitrate d) p
    (DVRBitrate d) (DVRFPS d) (AnalyticsBitrate d) (AnalyticsFPS d) (LastUpdated d).

Definition withDVRBitrate (p : ptr) (d : DeviceInfo) : DeviceInfo :=
  mkDeviceInfo (FirmwareVersion d) (HardwareVersion d) (DeviceMode d) (MountingMode d)
    (WiFiNetwork d) (WiFiBand d) (NightVision d) (Volume d) (SleepMode d)
    (StatusLight d) (MicMute d) (AntiFlicker d) (StreamingError d) (UpgradeDownloaded d)
    (AvailableSoundtracks d) (TempLowThreshold d) (TempHighThreshold d)
    (HumidityLowThreshold d) (HumidityHighThreshold d) (MobileBitrate d) (MobileFPS d) p
    (DVRFPS d) (AnalyticsBitrate d) (AnalyticsFPS d) (LastUpdated d).

Definition withDVRFPS (p : ptr) (d : DeviceInfo) : DeviceInfo :=
  mkDeviceInfo (FirmwareVersion d) (HardwareVersion d) (DeviceMode d) (MountingMode d)
    (WiFiNetwork d) (WiFiBand d) (NightVision d) (Volume d) (SleepMode d)
    (StatusLight d) (MicMute d) (AntiFlicker d) (StreamingError d) (UpgradeDownloaded d)
    (AvailableSoundtracks d) (TempLowThreshold d) (TempHighThreshold d)
    (HumidityLowThreshold d) (HumidityHighThreshold d) (MobileBitrate d) (MobileFPS d)
    (DVRBitrate d) p (AnalyticsBitrate d) (AnalyticsFPS d) (LastUpdated d).

Definition withAnalyticsBitrate (p : ptr) (d : DeviceInfo) : DeviceInfo :=
  mkDeviceInfo (FirmwareVersion d) (HardwareVersion d) (DeviceMode d) (MountingMode d)
    (WiFiNetwork d) (WiFiBand d) (NightVision d) (Volume d) (SleepMode d)
    (StatusLight d) (MicMute d) (AntiFlicker d) (StreamingError d) (UpgradeDownloaded d)
    (AvailableSoundtracks d) (TempLowThreshold d) (TempHighThreshold d)
    (HumidityLowThreshold d) (HumidityHighThreshold d) (MobileBitrate d) (MobileFPS d)
    (DVRBitrate d) (DVRFPS d) p (AnalyticsFPS d) (LastUpdated d).

Definition withAnalyticsFPS (p : ptr) (d : DeviceInfo) : DeviceInfo :=
  mkDeviceInfo (FirmwareVersion d) (HardwareVersion d) (DeviceMode d) (MountingMode d)
    (WiFiNetwork d) (WiFiBand d) (NightVision d) (Volume d) (SleepMode d)
    (StatusLight d) (MicMute d) (AntiFlicker d) (StreamingError d) (UpgradeDownloaded d)
    (AvailableSoundtracks d) (TempLowThreshold d) (TempHighThreshold d)
    (HumidityLowThreshold d) (HumidityHighThreshold d) (MobileBitrate d) (MobileFPS d)
    (DVRBitrate d) (DVRFPS d) (AnalyticsBitrate d) p (LastUpdated d).

(** *** Setters and getters *)

Definition SetMotionTimestamp (t : Z) := setField 4 (VInt32 t).
Definition SetSoundTimestamp (t : Z) := setField 5 (VInt32 t).
Definition SetTemperature (b : bool) := setField 6 (VBool b).
Definition SetIsNight (b : bool) := setField 7 (VBool b).
Definition SetTemperatureMilli (z : Z) := setField 8 (VInt32 z).
Definition SetHumidityMilli (z : Z) := setField 9 (VInt32 z).
Definition SetNightLight (b : bool) := setField 10 (VBool b).
Definition SetStandby (b : bool) := setField 11 (VBool b).

(** [GetNightLight]: [s.NightLight != nil && *s.NightLight] *)
Definition GetNightLight (h : Heap) (s : State) : bool :=
  match NightLight s with
  | Some a => match loadVal h a with Some (VBool b) => b | _ => false end
  | None => false
  end.

(** [GetStandby]: [s.Standby != nil && *s.Standby] *)
Definition GetStandby (h : Heap) (s : State) : bool :=
  match Standby s with
  | Some a => match loadVal h a with Some (VBool b) => b | _ => false end
  | None => false
  end.

(** [GetDeviceInfo]: stores a new empty [DeviceInfo] in the record when the
    field is nil, and returns the field. *)
Definition GetDeviceInfo (h : Heap) (state : addr) : option (Heap * addr) :=
  s ← loadState h state;
  match DeviceInfo_ s with
  | Some d => Some (h, d)
  | None =>
    let '(h1, d) := alloc h (CDeviceInfo emptyDeviceInfo) in
    Some (<[state := CState (SetField s 12 (Some d))]> h1, d)
  end.

(** The [switch field] of [UpdateDeviceInfoField] with its type assertions:
    the assignment that is made for the field name [field] and a value of
    the dynamic type of [v], if any. *)
Definition fieldAssignment (field : string) (v : value)
    : option (ptr → DeviceInfo → DeviceInfo) :=
  if String.eqb field "firmware_version" then
    match v with VString _ => Some withFirmwareVersion | _ => None end
  else if String.eqb field "hardware_version" then
    match v with VString _ => Some withHardwareVersion | _ => None end
  else if String.eqb field "device_mode" then
    match v with VString _ => Some withDeviceMode | _ => None end
  else if String.eqb field "wifi_network" then
    match v with VString _ => Some withWiFiNetwork | _ => None end
  else if String.eqb field "night_vision" then
    match v with VBool _ => Some withNightVision | _ => None end
  else if String.eqb field "volume" then
    match v with VInt32 _ => Some withVolume | _ => None end
  else if String.eqb field "sleep_mode" then
    match v with VBool _ => Some withSleepMode | _ => None end
  else if String.eqb field "streaming_error" then
    match v with VString _ => Some withStreamingError | _ => None end
  else None.

(** [UpdateDeviceInfoField].  The [interface{}] argument is a [value]. *)
Definition UpdateDeviceInfoField (field : string) (v : value) (h : Heap) (state : addr)
    : option (Heap * addr) :=
  s ← loadState h state;
  let '(h1, da) :=
    match DeviceInfo_ s with
    | Some da => (h, da)
    | None =>
      let '(h', da) := alloc h (CDeviceInfo emptyDeviceInfo) in
      (<[state := CState (SetField s 12 (Some da))]> h', da)
    end in
  d ← loadDeviceInfo h1 da;
  match fieldAssignment field v with
  | Some assign =>
    let '(h2, p) := alloc h1 (CVal v) in
    Some (<[da := CDeviceInfo (assign (Some p) d)]> h2, state)
  | None => Some (h1, state)
  end.

(** The cases of that [switch], as a table: the field name, the dynamic
    type asserted by the case, and the field the case assigns. *)
Definition isString (v : value) : bool := match v with VString _ => true | _ => false end.
Definition isBool (v : value) : bool := match v with VBool _ => true | _ => false end.
Definition isInt32 (v : value) : bool := match v with VInt32 _ => true | _ => false end.

Definition handledFields : list (string * (value → bool) * (DeviceInfo → ptr)) :=
  [("firmware_version"%string, isString, FirmwareVersion);
   ("hardware_version"%string, isString, HardwareVersion);
   ("device_mode"%string, isString, DeviceMode);
   ("wifi_network"%string, isString, WiFiNetwork);
   ("night_vision"%string, isBool, NightVision);
   ("volume"%string, isInt32, Volume);
   ("sleep_mode"%string, isBool, SleepMode);
   ("streaming_error"%string, isString, StreamingError)].

(** The device information a record holds, an empty one for nil. *)
Definition deviceInfoOf (h : Heap) (s : State) : option DeviceInfo :=
  match DeviceInfo_ s with
  | Some da => loadDeviceInfo h da
  | None => Some emptyDeviceInfo
  end.

(** *** AsMap *)

(** The struct tag [internal:"true"]. *)
Definition internalTag (i : nat) : bool :=
  match i with
  | 0 | 1 | 2 | 3 | 12 => true
  | _ => false
  end%nat.

(** [f.Type().Elem().Kind() == reflect.Int32]: the fields of type [*int32],
    [*StreamState] and [*StreamRequestState]. *)
Definition elemKindInt32 (i : nat) : bool :=
  match i with
  | 0 | 1 | 4 | 5 | 8 | 9 => true
  | _ => false
  end%nat.

(** The integer behind a [StreamState] / [StreamRequestState] ([iota]). *)
Definition StreamState_int (v : StreamState) : Z :=
  match v with
  | StreamState_Unknown => 0
  | StreamState_Unhealthy => 1
  | StreamState_Alive => 2
  end.

Definition StreamRequestState_int (v : StreamRequestState) : Z :=
  match v with
  | StreamRequestState_NotRequested => 0
  | StreamRequestState_Requested => 1
  | StreamRequestState_RequestFailed => 2
  end.

(** [reflect.Value.Int()]; it panics on a value that is not an integer. *)
Definition Int (v : value) : option Z :=
  match v with
  | VInt32 z | VInt64 z => Some z
  | VStreamState x => Some (StreamState_int x)
  | VStreamRequestState x => Some (StreamRequestState_int x)
  | VBool _ | VString _ => None
  end.

(** What [AsMap] stores: the [int64] of [Elem().Int()], the quotient
    [float64(z) / 1000] (kept as its numerator), or [Elem().Interface()]. *)
Inductive mapValue :=
| MInt (z : Z)
| MFloatMilli (z : Z)
| MIface (c : cell).

(** [strings.ToLower] on ASCII letters (struct field names are ASCII). *)
Definition lowerChar (c : ascii) : ascii :=
  if uid.isUpper c then ascii_of_nat (nat_of_ascii c + 32) else c.

(** [strings.HasSuffix] *)
Fixpoint HasSuffix (s suffix : string) : bool :=
  if String.eqb s suffix then true
  else match s with
       | EmptyString => false
       | String _ rest => HasSuffix rest suffix
       end.

(** [strings.TrimSuffix] *)
Definition TrimSuffix (s suffix : string) : string :=
  if HasSuffix s suffix
  then String.substring 0 (String.length s - String.length suffix) s
  else s.

(** [upperCaseRX.ReplaceAllStringFunc(name, func(m) { return "_" + ToLower(m) })]
    for [[A-Z]+]: every maximal run of capitals is lowered and gets an
    underscore in front.  [inRun] says whether the previous character was
    a capital. *)
Fixpoint snakeRuns (inRun : bool) (s : string) : string :=
  match s with
  | EmptyString => EmptyString
  | String c rest =>
    if uid.isUpper c then
      if inRun then String (lowerChar c) (snakeRuns true rest)
      else String "_" (String (lowerChar c) (snakeRuns true rest))
    else String c (snakeRuns false rest)
  end.

(** [name = strings.ToLower(name[0:1]) + name[1:]] followed by the
    replacement of the capital runs.  [name[0:1]] panics on an empty name. *)
Definition mapKey (name : string) : option string :=
  match name with
  | EmptyString => None
  | String c rest => Some (snakeRuns false (String (lowerChar c) rest))
  end.

(** The name and the value computed for field [i] from the cell [c] it
    points to.  [None] is the panic of [Int] on a value that is no
    integer. *)
Definition fieldValue (i : nat) (c : cell) : option (string * mapValue) :=
  let name := FieldName i in
  if elemKindInt32 i then
    z ← match c with CVal v => Int v | _ => None end;
    if HasSuffix name "Milli"
    then Some (TrimSuffix name "Milli", MFloatMilli z)
    else Some (name, MInt z)
  else Some (name, MIface c).

(** The body of the loop of [AsMap] for field [i]: the entry that is
    written, if any.  The outer [None] is a panic. *)
Definition asMapEntry (includeInternal : bool) (h : Heap) (s : State) (i : nat)
    : option (option (string * mapValue)) :=
  if includeInternal || negb (internalTag i) then
    match Field s i with
    | None => Some None
    | Some a =>
      c ← h !! a;
      '(name, value) ← fieldValue i c;
      key ← mapKey name;
      Some (Some (key, value))
    end
  else Some None.

Fixpoint asMap_loop (includeInternal : bool) (h : Heap) (s : State) (idxs : list nat)
    (m : gmap string mapValue) : option (gmap string mapValue) :=
  match idxs with
  | [] => Some m
  | i :: idxs' =>
    e ← asMapEntry includeInternal h s i;
    asMap_loop includeInternal h s idxs'
      (match e with Some (k, v) => <[k := v]> m | None => m end)
  end.

(** [func (state *State) AsMap(includeInternal bool) map[string]interface{}] *)
Definition AsMap (includeInternal : bool) (h : Heap) (s : State)
    : option (gmap string mapValue) :=
  asMap_loop includeInternal h s (seq 0 NumField) ∅.

(** The key under which field [i] appears. *)
Definition fieldKey (i : nat) : string :=
  let name := FieldName i in
  let name := if elemKindInt32 i && HasSuffix name "Milli"
              then TrimSuffix name "Milli" else name in
  default EmptyString (mapKey name).

(** What the Go types guarantee for the fields of a record: a non-nil
    field points to a cell, and a field of an integer kind to an integer. *)
Definition fieldTyped (h : Heap) (s : State) (i : nat) : bool :=
  match Field s i with
  | None => true
  | Some a =>
    match h !! a with
    | None => false
    | Some c =>
      if elemKindInt32 i
      then match c with
           | CVal v => match Int v with Some _ => true | None => false end
           | _ => false
           end
      else true
    end
  end.

Definition fieldsTyped (h : Heap) (s : State) : bool :=
  forallb (fieldTyped h s) (seq 0 NumField).

(** One iteration of the loop of [AsMap] as a map update. *)
Definition upd (m : gmap string mapValue) (e : option (string * mapValue)) :=
  match e with Some (k, v) => <[k := v]> m | None => m end.

(** The entry that the loop writes for field [i] when nothing panics. *)
Definition entry (includeInternal : bool) (h : Heap) (s : State) (i : nat) : option (string * mapValue) :=
  if includeInternal || negb (internalTag i) then
    match Field s i with
    | None => None
    | Some a =>
      match h !! a with
      | Some c => match fieldValue i c with
                  | Some (_, v) => Some (fieldKey i, v)
                  | None => None
                  end
      | None => None
      end
    end
  else None.

(** Example: a heap with one record whose [Temperature] flag and
    [TemperatureMilli] are both set. *)
Definition heapTemperature : Heap :=
  [CVal (VBool true); CVal (VInt32 21500);
   CState (mkState None None None None None None (Some 0%nat) None (Some 1%nat)
                   None None None None)].

Definition stateTemperature : State :=
  mkState None None None None None None (Some 0%nat) None (Some 1%nat) None None None None.

End accessors.

(** * The HLS manager (package streaming) *)

Module hls.
Import streaming.

(** The texts that [classifyAndSetError] looks for. *)
Definition errorPatterns : list string :=
  ["Connection refused"; "Connection reset"; "No route to host";
   "Connection timed out"; "timeout"; "Server error"; "403"; "404";
   "exit status"]%string.

(** [sub] occurs in [s]. *)
Definition occurs (sub s : string) : Prop :=
  ∃ pre post, s = (pre +:+ sub +:+ post)%string.

(** A transcoder with its stop channel: the supervision state, and whether
    [stopChan] has been closed. *)
Record transcoder := mkTranscoder {
  sup : supervisor;
  stopChanClosed : bool
}.

(** [NewHLSTranscoder] with its channel [make(chan struct{})]. *)
Definition newTranscoder : transcoder :=
  mkTranscoder (mkSup NewHLSTranscoder [] 0) false.

(** [Stop].  [None] is the panic of closing a closed channel. *)
Definition Stop (t : transcoder) : option transcoder :=
  let c := h (sup t) in
  if negb (isRunning c) then Some t
  else if stopChanClosed t then None
  else Some (mkTranscoder
               (mkSup (mkHLS false (status c) (lastError c) (startTime c)
                             (retryCount c) (maxRetries c) (retryDelay c))
                      (retryTimers (sup t)) (launches (sup t)))
               true).

(** [IsRunning] *)
Definition IsRunning (t : transcoder) : bool := isRunning (h (sup t)).


(** [HLSManager]: the map of transcoders, whether [cleanupTicker] is set,
    and whether [stopCleanup] has been closed. *)
Record HLSManager := mkManager {
  transcoders : gmap string transcoder;
  cleanupTicker : bool;
  stopCleanupClosed : bool
}.

(** [NewHLSManager]; [startPeriodicCleanup] sets the ticker. *)
Definition NewHLSManager : HLSManager := mkManager ∅ true false.

(** [StartTranscoding]; [now], [mkdirOk] and [startOk] are passed on to
    [Start].  The outer [None] is a panic, the inner option the error
    returned. *)
Definition StartTranscoding (now : Z) (mkdirOk startOk : bool) (babyUID : string)
    (m : HLSManager) : option (HLSManager * option string) :=
  ts ← match transcoders m !! babyUID with
       | Some existing =>
         t' ← Stop existing; Some (<[babyUID := t']> (transcoders m))
       | None => Some (transcoders m)
       end;
  let '(s, err) := Start now mkdirOk startOk (sup newTranscoder) in
  match err with
  | Some e => Some (mkManager ts (cleanupTicker m) (stopCleanupClosed m), Some e)
  | None =>
    Some (mkManager (<[babyUID := mkTranscoder s false]> ts)
                    (cleanupTicker m) (stopCleanupClosed m), None)
  end.


(** [GetTranscoder] *)
Definition GetTranscoder (babyUID : string) (m : HLSManager) : option transcoder :=
  transcoders m !! babyUID.

(** [StopAll]: stops the ticker and closes [stopCleanup], then stops and
    deletes every transcoder. *)
Definition StopAll (m : HLSManager) : option HLSManager :=
  closed ← (if cleanupTicker m
            then if stopCleanupClosed m then None else Some true
            else Some (stopCleanupClosed m));
  _ ← mapM (λ e : string * transcoder, Stop e.2) (map_to_list (transcoders m));
  Some (mkManager ∅ (cleanupTicker m) closed).



(** What holds of every transcoder a manager holds. *)
Definition transcoderInv (t : transcoder) : Prop :=
  let c := h (sup t) in
  (stopChanClosed t = true → isRunning c = false) ∧
  maxRetries c = 5 ∧ 0 ≤ retryCount c ≤ 5 ∧
  retryDelay c = 10 * Second ∧
  (status c = StatusError → lastError c ≠ None) ∧
  (isRunning c = true →
   status c = StatusConnecting ∨ status c = StatusStreaming ∨ status c = StatusError).

Definition managerInv (m : HLSManager) : Prop :=
  cleanupTicker m = true ∧
  ∀ babyUID t, transcoders m !! babyUID = Some t → transcoderInv t.

End hls.

(** * The local stream URL (package app) *)

Module localstream.
Import app.

(** [strings.NewReplacer(oldnew...)]: the pairs in argument order. *)
Definition Replacer := list (string * string).

(** The pair that applies at the start of [s]: the first pair, in argument
    order, whose old string is a prefix of [s].  The old strings of the
    call modelled here are not empty; empty ones are passed over. *)
Fixpoint lookup (r : Replacer) (s : string) : option (string * string) :=
  match r with
  | [] => None
  | (old, new) :: r' =>
    if negb (String.eqb old "") && String.prefix old s then Some (old, new)
    else lookup r' s
  end.

(** [Replacer.Replace]: one pass from left to right; at each position the
    pair found by [lookup] is applied and the scan goes on behind the old
    string, so replaced text is not scanned again.  [skip] counts the
    characters of a matched old string still to pass over. *)
Fixpoint replaceFrom (r : Replacer) (skip : nat) (s : string) : string :=
  match s with
  | EmptyString => EmptyString
  | String c rest =>
    match skip with
    | S k => replaceFrom r k rest
    | O =>
      match lookup r s with
      | Some (old, new) => new +:+ replaceFrom r (String.length old - 1) rest
      | None => String c (replaceFrom r 0 rest)
      end
    end
  end.

Definition Replace (r : Replacer) (s : string) : string := replaceFrom r 0 s.

(** [getLocalStreamURL] *)
Definition getLocalStreamURL (opts : Opts) (babyUID : string) : string :=
  match RTMP opts with
  | Some rtmp =>
    let tpl := "rtmp://{publicAddr}/local/{babyUid}"%string in
    Replace [("{publicAddr}"%string, PublicAddr rtmp); ("{babyUid}"%string, babyUID)] tpl
  | None => EmptyString
  end.

End localstream.

(** * Request ids (package client) *)

Module requestids.
Import client.

(** A connection on which [SendRequest] has been called [n] times since
    [NewWebsocketConnection], with responses handled and awaiters
    returning in between. *)
Inductive sentN : nat → WebsocketConnection → Prop :=
| sent_new : sentN 0 NewWebsocketConnection
| sent_send n sendOk reqType conn :
    sentN n conn → sentN (S n) (SendRequest sendOk reqType conn).1.1
| sent_response n r conn conn' :
    sentN n conn → handleResponse r conn = Some conn' → sentN n conn'
| sent_await n showInt ev ch conn conn' res :
    sentN n conn → awaiter showInt ev ch conn = Some (conn', res) → sentN n conn'.

(** The largest [int32]. *)
Definition MaxInt32 : Z := 2^31 - 1.

End requestids.

(** * Message handlers (pkg/app/websocket_handlers.go) *)

Module handlers.
Import baby accessors.

(** The fields of [client.SensorData] that [processSensorData] reads; each
    is a pointer in the generated struct. *)
Record SensorData := mkSensorData {
  SensorType : option Z;
  ValueMilli : option Z;
  Value : option Z
}.

Section SensorTypes.

(** The constants of the protobuf enum [client.SensorType]; the generated
    code is not among the sources. *)
Variables SensorType_TEMPERATURE SensorType_HUMIDITY SensorType_NIGHT : Z.

(** The body of the loop of [processSensorData] for one element of the
    slice.  [None]: a nil pointer is dereferenced. *)
Definition sensorStep (sensorDataSet : option SensorData) (st : Heap * addr)
    : option (Heap * addr) :=
  d ← sensorDataSet;
  ty ← SensorType d;
  st1 ← (if decide (ty = SensorType_TEMPERATURE)
         then v ← ValueMilli d; SetTemperatureMilli v st.1 st.2
         else Some st);
  st2 ← (if decide (ty = SensorType_HUMIDITY)
         then v ← ValueMilli d; SetHumidityMilli v st1.1 st1.2
         else Some st1);
  if decide (ty = SensorType_NIGHT)
  then v ← Value d; SetIsNight (bool_decide (v = 1)) st2.1 st2.2
  else Some st2.

Fixpoint sensorLoop (sensorData : list (option SensorData)) (st : Heap * addr)
    : option (Heap * addr) :=
  match sensorData with
  | [] => Some st
  | e :: rest => st' ← sensorStep e st; sensorLoop rest st'
  end.

(** The [stateUpdate] that [processSensorData] passes to the state
    manager: [baby.State{}] after the loop. *)
Definition sensorUpdate (sensorData : list (option SensorData)) (h : Heap)
    : option (Heap * addr) :=
  sensorLoop sensorData (NewState h).

(** An element the loop passes without a nil dereference. *)
Definition sensorDataOk (e : option SensorData) : bool :=
  match e with
  | None => false
  | Some d =>
    match SensorType d with
    | None => false
    | Some ty =>
      (if decide (ty = SensorType_TEMPERATURE) then bool_decide (is_Some (ValueMilli d))
       else true) &&
      (if decide (ty = SensorType_HUMIDITY) then bool_decide (is_Some (ValueMilli d))
       else true) &&
      (if decide (ty = SensorType_NIGHT) then bool_decide (is_Some (Value d)) else true)
    end
  end.

End SensorTypes.

(** The reading of field [field] in the last element of type [ty] that
    has one. *)
Definition lastReading (ty : Z) (field : SensorData → option Z)
    (sensorData : list (option SensorData)) : option Z :=
  last (omap (λ e : option SensorData,
                d ← e; t ← SensorType d;
                if decide (t = ty) then field d else None) sensorData).

(** The fields of [client.Status] that [processStatus] reads.  The version
    strings and the upgrade flag are pointers that the device information
    takes over as they are; the mode is dereferenced. *)
Record Status := mkStatus {
  Status_CurrentVersion : ptr;
  Status_HardwareVersion : ptr;
  Status_Mode : option Z;
  Status_UpgradeDownloaded : ptr
}.

Section MountingModes.

(** The constants of the protobuf enum [client.MountingMode]; the
    generated code is not among the sources. *)
Variables MountingMode_STAND MountingMode_TRAVEL MountingMode_SWITCH : Z.

(** The [switch *status.Mode] of [processStatus]. *)
Definition modeName (m : Z) : string :=
  if decide (m = MountingMode_STAND) then "Stand"
  else if decide (m = MountingMode_TRAVEL) then "Travel"
  else if decide (m = MountingMode_SWITCH) then "Switch"
  else "Unknown".

(** The [stateUpdate] that [processStatus] passes to the state manager;
    [now] is [time.Now().Unix()].  The struct [*deviceInfo] is built in
    [d] and stored when complete. *)
Definition statusUpdate (now : Z) (status : Status) (h : Heap) : Heap * addr :=
  let '(h, stateUpdate) := alloc h (CState emptyState) in
  let '(h, deviceInfo) := alloc h (CDeviceInfo emptyDeviceInfo) in
  let d := emptyDeviceInfo in
  let d := if IsNil (Status_CurrentVersion status) then d
           else withFirmwareVersion (Status_CurrentVersion status) d in
  let d := if IsNil (Status_HardwareVersion status) then d
           else withHardwareVersion (Status_HardwareVersion status) d in
  let '(h, d) :=
    match Status_Mode status with
    | Some m =>
      let '(h, mode) := alloc h (CVal (VString (modeName m))) in
      (h, withDeviceMode (Some mode) d)
    | None => (h, d)
    end in
  let d := if IsNil (Status_UpgradeDownloaded status) then d
           else withUpgradeDownloaded (Status_UpgradeDownloaded status) d in
  let '(h, timestamp) := alloc h (CVal (VInt64 now)) in
  let d := withLastUpdated (Some timestamp) d in
  let h := <[deviceInfo := CDeviceInfo d]> h in
  (<[stateUpdate := CState (SetField emptyState 12 (Some deviceInfo))]> h, stateUpdate).

End MountingModes.

(** The fields of [client.Settings] that [processStandby] reads, with the
    elements of its two slices.  Flags, volume, thresholds and stream
    figures are pointers that the device information takes over as they
    are; the enums are dereferenced.  The slices hold pointers, as the
    slice of [processSensorData] does. *)
Record SettingsSensor := mkSettingsSensor {
  Sensor_SensorType : option Z;
  Sensor_LowThreshold : ptr;
  Sensor_HighThreshold : ptr
}.

Record SettingsStream := mkSettingsStream {
  Stream_Id : option Z;
  Stream_Bitrate : ptr;
  Stream_BestFps : ptr
}.

Record Settings := mkSettings {
  Settings_SleepMode : ptr;
  Settings_NightVision : ptr;
  Settings_Volume : ptr;
  Settings_StatusLightOn : ptr;
  Settings_MicMuteOn : ptr;
  Settings_AntiFlicker : option Z;
  Settings_WifiBand : option Z;
  Settings_MountingMode : option Z;
  Settings_Sensors : list (option SettingsSensor);
  Settings_Streams : list (option SettingsStream)
}.

(** [if p != nil { deviceInfo.X = p }], with the assignment [assign]. *)
Definition setIfNotNil (p : ptr) (assign : ptr → DeviceInfo → DeviceInfo)
    (d : DeviceInfo) : DeviceInfo :=
  if IsNil p then d else assign p d.

Section SettingsEnums.

(** Constants of the protobuf enums of [client.Settings], [client.SensorType]
    and [client.StreamIdentifier]; the generated code is not among the
    sources. *)
Variables Settings_FR50HZ Settings_FR60HZ : Z.
Variables Settings_ANY Settings_FR2_4GHZ Settings_FR5_0GHZ : Z.
Variables SensorType_TEMPERATURE SensorType_HUMIDITY : Z.
Variables StreamIdentifier_MOBILE StreamIdentifier_DVR StreamIdentifier_ANALYTICS : Z.

(** The [switch *settings.AntiFlicker] and the [switch *settings.WifiBand]. *)
Definition antiFlickerName (a : Z) : string :=
  if decide (a = Settings_FR50HZ) then "50Hz"
  else if decide (a = Settings_FR60HZ) then "60Hz"
  else "Unknown".

Definition wifiBandName (b : Z) : string :=
  if decide (b = Settings_ANY) then "Any"
  else if decide (b = Settings_FR2_4GHZ) then "2.4GHz"
  else if decide (b = Settings_FR5_0GHZ) then "5.0GHz"
  else "Unknown".

(** The body of the loop over [settings.Sensors].  [None]: the element is
    a nil pointer. *)
Definition sensorThresholds (sensor : option SettingsSensor) (d : DeviceInfo)
    : option DeviceInfo :=
  s ← sensor;
  match Sensor_SensorType s with
  | None => Some d
  | Some ty =>
    if decide (ty = SensorType_TEMPERATURE) then
      let d := setIfNotNil (Sensor_LowThreshold s) withTempLowThreshold d in
      let d := setIfNotNil (Sensor_HighThreshold s) withTempHighThreshold d in
      Some d
    else if decide (ty = SensorType_HUMIDITY) then
      let d := setIfNotNil (Sensor_LowThreshold s) withHumidityLowThreshold d in
      let d := setIfNotNil (Sensor_HighThreshold s) withHumidityHighThreshold d in
      Some d
    else Some d
  end.

(** The body of the loop over [settings.Streams]. *)
Definition streamSettings (stream : option SettingsStream) (d : DeviceInfo)
    : option DeviceInfo :=
  s ← stream;
  match Stream_Id s with
  | None => Some d
  | Some id =>
    if decide (id = StreamIdentifier_MOBILE) then
      let d := setIfNotNil (Stream_Bitrate s) withMobileBitrate d in
      let d := setIfNotNil (Stream_BestFps s) withMobileFPS d in
      Some d
    else if decide (id = StreamIdentifier_DVR) then
      let d := setIfNotNil (Stream_Bitrate s) withDVRBitrate d in
      let d := setIfNotNil (Stream_BestFps s) withDVRFPS d in
      Some d
    else if decide (id = StreamIdentifier_ANALYTICS) then
      let d := setIfNotNil (Stream_Bitrate s) withAnalyticsBitrate d in
      let d := setIfNotNil (Stream_BestFps s) withAnalyticsFPS d in
      Some d
    else Some d
  end.

(** [for _, x := range xs { body }] on the struct under construction. *)
Fixpoint forEach {A} (body : A → DeviceInfo → option DeviceInfo) (xs : list A)
    (d : DeviceInfo) : option DeviceInfo :=
  match xs with
  | [] => Some d
  | x :: rest => d' ← body x d; forEach body rest d'
  end.

(** The [stateUpdate] that [processStandby] passes to the state manager;
    [now] is [time.Now().Unix()].  The struct [*deviceInfo] is built in
    [d] and stored when complete.  [None]: a nil element of a slice is
    dereferenced. *)
Definition standbyUpdate (now : Z) (settings : Settings) (h : Heap)
    : option (Heap * addr) :=
  let '(h, stateUpdate) := alloc h (CState emptyState) in
  let '(h, deviceInfo) := alloc h (CDeviceInfo emptyDeviceInfo) in
  let d := emptyDeviceInfo in
  '(h, d) ← match Settings_SleepMode settings with
            | Some p =>
              match loadVal h p with
              | Some (VBool b) =>
                '(h, _) ← SetStandby b h stateUpdate;
                Some (h, withSleepMode (Some p) d)
              | _ => None
              end
            | None => Some (h, d)
            end;
  let d := setIfNotNil (Settings_NightVision settings) withNightVision d in
  let d := setIfNotNil (Settings_Volume settings) withVolume d in
  let d := setIfNotNil (Settings_StatusLightOn settings) withStatusLight d in
  let d := setIfNotNil (Settings_MicMuteOn settings) withMicMute d in
  let '(h, d) :=
    match Settings_AntiFlicker settings with
    | Some a =>
      let '(h, antiFlicker) := alloc h (CVal (VString (antiFlickerName a))) in
      (h, withAntiFlicker (Some antiFlicker) d)
    | None => (h, d)
    end in
  let '(h, d) :=
    match Settings_WifiBand settings with
    | Some b =>
      let '(h, wifiBand) := alloc h (CVal (VString (wifiBandName b))) in
      (h, withWiFiBand (Some wifiBand) d)
    | None => (h, d)
    end in
  let '(h, d) :=
    match Settings_MountingMode settings with
    | Some m =>
      let '(h, mountingMode) := alloc h (CVal (VInt32 m)) in
      (h, withMountingMode (Some mountingMode) d)
    | None => (h, d)
    end in
  d ← forEach sensorThresholds (Settings_Sensors settings) d;
  d ← forEach streamSettings (Settings_Streams settings) d;
  let '(h, timestamp) := alloc h (CVal (VInt64 now)) in
  let d := withLastUpdated (Some timestamp) d in
  let h := <[deviceInfo := CDeviceInfo d]> h in
  SetDeviceInfo (Some deviceInfo) h stateUpdate.

End SettingsEnums.

(** The threshold [field] of the last sensor of type [ty] that has one,
    and the same for the streams. *)
Definition lastSensor (ty : Z) (field : SettingsSensor → ptr)
    (sensors : list (option SettingsSensor)) : ptr :=
  last (omap (λ e : option SettingsSensor,
                s ← e; t ← Sensor_SensorType s;
                if decide (t = ty) then field s else None) sensors).

Definition lastStream (id : Z) (field : SettingsStream → ptr)
    (streams : list (option SettingsStream)) : ptr :=
  last (omap (λ e : option SettingsStream,
                s ← e; t ← Stream_Id s;
                if decide (t = id) then field s else None) streams).

(** The positions, in [DeviceInfo_ptrs], of the fields [processStandby]
    leaves nil: firmware and hardware version, device mode, network name,
    streaming error and upgrade flag. *)
Definition notInSettings : list nat := [0; 1; 2; 4; 12; 13]%nat.

(** Example: settings with sleep mode on (the flag at address 0 of
    [heapTemperature]), anti-flicker 1 (with 0 for 50 Hz and 1 for 60 Hz),
    and a sensor of type 2 (temperature, with 3 for humidity) that has a
    high threshold (at address 1). *)
Definition settingsExample : Settings :=
  mkSettings (Some 0%nat) None None None None (Some 1) None None
             [Some (mkSettingsSensor (Some 2) None (Some 1%nat))] [].

(** The positions, in [DeviceInfo_ptrs], of the fields [processStatus]
    sets: firmware and hardware version, device mode, upgrade flag and
    time of the last update. *)
Definition statusFields : list nat := [0; 1; 2; 13; 24]%nat.

(** Example: a status that reports firmware "1.2" (at address 3 of the
    heap below) and the mode 1, with 0, 1 and 2 for the three modes. *)
Definition heapStatus : Heap := heapTemperature ++ [CVal (VString "1.2")].

Definition statusExample : Status := mkStatus (Some 3%nat) None (Some 1) None.

(** Example: a humidity reading followed by two temperature readings, with
    2 for temperature, 3 for humidity and 5 for night. *)
Definition sensorExample : list (option SensorData) :=
  [Some (mkSensorData (Some 3) (Some 45000) None);
   Some (mkSensorData (Some 2) (Some 21000) None);
   Some (mkSensorData (Some 2) (Some 21500) None)].

End handlers.

(** * Requesting the local stream (pkg/app/websocket_handlers.go) *)

Module streamrequest.
Import baby client.

(** What becomes of one request sent by [requestLocalStreaming]:
    [SendMessage] fails with the error [e], the timer of the awaiter
    fires, or the response to this request comes in with the given status
    code and message. *)
Inductive attempt :=
| SendFails (e : string)
| TimesOut
| Answered (code : option Z) (msg : option string).

(** What [stateManager.GetBabyState(babyUID)] shows when the loop looks
    at it after the attempt. *)
Record observed := mkObserved {
  obsStreamState : StreamState;
  obsWebsocketAlive : bool
}.

(** How a pass of the loop ends: the function returns, after the state
    update given if any, or the loop goes round again. *)
Inductive passResult :=
| Return (update : option StreamRequestState)
| Again.

Definition forbidden : string :=
  "Forbidden: Number of Mobile App connections above limit, declining connection".

(** The branches on [err] after [awaitResponse]. *)
Definition afterAwait (err : option string) (obs : observed) : passResult :=
  match err with
  | Some e =>
    if decide (e = forbidden) then Return (Some StreamRequestState_RequestFailed)
    else if decide (e ≠ "Request timeout"%string) then
      if decide (obsStreamState obs = StreamState_Alive) then Return None
      else Return (Some StreamRequestState_RequestFailed)
    else if negb (obsWebsocketAlive obs) then Return None
    else Again
  | None => Return (Some StreamRequestState_Requested)
  end.

Section PutStreaming.

(** [client.RequestType_PUT_STREAMING]; the generated code is not among
    the sources. *)
Variable RequestType_PUT_STREAMING : RequestType.

Variable showInt : Z → string.

(** [conn.SendRequest(...)] followed by [awaitResponse(30 * time.Second)],
    with what the attempt says happens in between: the error returned.
    The outer [None]: the awaiter has nothing to return or panics. *)
Definition sendAndAwait (a : attempt) (conn : WebsocketConnection)
    : option (WebsocketConnection * option string) :=
  match a with
  | SendFails e =>
    let '(conn1, _, _) := SendRequest false RequestType_PUT_STREAMING conn in
    Some (conn1, Some ("failed to send request: " +:+ e)%string)
  | TimesOut =>
    let '(conn1, _, aw) := SendRequest true RequestType_PUT_STREAMING conn in
    match aw with
    | AwaitOn ch =>
      '(conn2, res) ← awaiter showInt TimerFired ch conn1; Some (conn2, res.2)
    | AwaitSendFailed => None
    end
  | Answered code msg =>
    let '(conn1, id, aw) := SendRequest true RequestType_PUT_STREAMING conn in
    conn2 ← handleResponse (mkResponse (Some id) (Some RequestType_PUT_STREAMING) code msg)
                           conn1;
    match aw with
    | AwaitOn ch =>
      '(conn3, res) ← awaiter showInt Received ch conn2; Some (conn3, res.2)
    | AwaitSendFailed => None
    end
  end.

(** [requestLocalStreaming] on a script of attempts, one per pass of its
    loop.  It returns the connection and the update that was passed to
    [stateManager.Update], if any; [None] when the loop has not returned
    by the end of the script. *)
Fixpoint requestLocalStreaming (script : list (attempt * observed))
    (conn : WebsocketConnection)
    : option (WebsocketConnection * option StreamRequestState) :=
  match script with
  | [] => None
  | (a, obs) :: rest =>
    '(conn', err) ← sendAndAwait a conn;
    match afterAwait err obs with
    | Return update => Some (conn', update)
    | Again => requestLocalStreaming rest conn'
    end
  end.

(** The error [awaitResponse] returns for an attempt. *)
Definition errorOf (a : attempt) : option string :=
  match a with
  | SendFails e => Some ("failed to send request: " +:+ e)%string
  | TimesOut => Some "Request timeout"%string
  | Answered code msg => responseError showInt (mkResponse None None code msg)
  end.

End PutStreaming.

End streamrequest.

(** * Stream activity and the health report *)

Module activity.
Import baby streaming.






End activity.

Module healthapi.
Import baby streaming hls activity.







End healthapi.

(** * The updates around the retry test (pkg/app/app.go) *)

Module retrycycle.
Import baby app.

(** [*baby.NewState().SetStreamRequestState(v)]: the update that
    [requestLocalStreaming] passes to the state manager when it returns
    with one, and, with [StreamRequestState_NotRequested], the update of
    [retryStreaming] before it asks again. *)
Definition requestStateUpdate (v : StreamRequestState) (h : Heap) : option (Heap * addr) :=
  let '(h1, a) := NewState h in
  SetStreamRequestState v h1 a.

(** [*baby.NewState().SetStreamState(baby.StreamState_Unhealthy)], the
    update of [autoStopStreaming]. *)
Definition stoppedUpdate (h : Heap) : option (Heap * addr) :=
  let '(h1, a) := NewState h in
  SetStreamState StreamState_Unhealthy h1 a.

(** [app.Opts.RTMP != nil && app.Opts.RTMP.AutoStart] *)
Definition autoStartOn (opts : Opts) : bool :=
  match RTMP opts with
  | Some rtmp => AutoStart rtmp
  | None => false
  end.


(** Example: a record that has the websocket alive and nothing else. *)
Definition stateWebsocketAlive : State :=
  mkState None None (Some 0%nat) None None None None None None None None None None.

Definition heapWebsocketAlive : Heap := [CVal (VBool true); CState stateWebsocketAlive].

End retrycycle.

(** * Serving the HLS files (pkg/app/api_handlers.go) *)

Module hlsapi.
Import app localstream streaming hls accessors.

(** [strings.TrimPrefix] *)
Fixpoint dropBytes (n : nat) (s : string) : string :=
  match n, s with
  | S k, String _ rest => dropBytes k rest
  | _, _ => s
  end.

Definition TrimPrefix (s prefix : string) : string :=
  if String.prefix prefix s then dropBytes (String.length prefix) s else s.

(** [strings.Split(s, "/")]: the pieces between the slashes, one more
    than there are slashes. *)
Fixpoint Split (s : string) : list string :=
  match s with
  | EmptyString => [EmptyString]
  | String c rest =>
    if Ascii.eqb c "/" then EmptyString :: Split rest
    else match Split rest with
         | part :: parts => String c part :: parts
         | [] => [String c EmptyString]
         end
  end.

(** What [handleHLSStreamAPI] answers: the four error responses, with the
    status and error of the transcoder where the body shows them, or the
    file that [http.ServeFile] is given, with the [Content-Type] and
    [Cache-Control] headers set for it. *)
Inductive answer :=
| InvalidPath
| NoTranscoder
| NotRunning (status : StreamStatus) (streamError : option StreamError)
| FileNotFound (status : StreamStatus) (streamError : option StreamError) (file : string)
| ServeFile (contentType cacheControl : option string) (filePath : string).

Section Files.

(** [filepath.Join], and whether [os.Stat] fails with an error for which
    [os.IsNotExist] holds. *)
Variable Join : string → string → string.
Variable notExist : string → bool.

(** [transcoder.GetHLSDir()]; the directory is not among the fields of
    the record. *)
Variable GetHLSDir : transcoder → string.

(** [handleHLSStreamAPI] for a request with the path [urlPath]. *)
Definition handleHLSStreamAPI (urlPath : string) (m : HLSManager) : answer :=
  let path := TrimPrefix urlPath "/api/stream/hls/" in
  let parts := Split path in
  match parts with
  | babyUID :: fileName :: _ =>
    match GetTranscoder babyUID m with
    | None => NoTranscoder
    | Some transcoder =>
      if negb (IsRunning transcoder) then
        let '(status, streamError) := GetStatus (sup transcoder) in
        NotRunning status streamError
      else
        let filePath := Join (GetHLSDir transcoder) fileName in
        if notExist filePath then
          let '(status, streamError) := GetStatus (sup transcoder) in
          FileNotFound status streamError fileName
        else if HasSuffix fileName ".m3u8" then
          ServeFile (Some "application/vnd.apple.mpegurl"%string) (Some "no-cache"%string)
                    filePath
        else if HasSuffix fileName ".ts" then
          ServeFile (Some "video/mp2t"%string) (Some "max-age=3600"%string) filePath
        else ServeFile None None filePath
    end
  | _ => InvalidPath
  end.

End Files.



End hlsapi.

(** * Proofs *)

(** ** pkg/baby/state.go: Merge *)

Module MergeProofs.
Import baby MergeSpec.

Lemma ext_refl n h : ext n h h.
Proof. split; auto. Qed.

Lemma ext_trans n h1 h2 h3 : ext n h1 h2 → ext n h2 h3 → ext n h1 h3.
Proof. intros [L1 E1] [L2 E2]. split; [lia | eauto]. Qed.

Lemma ext_alloc n (h : Heap) c : ext n h (h ++ [c]).
Proof.
  split; [rewrite length_app; lia |].
  intros a c' _ Ha. rewrite lookup_app_l; [done | by eapply lookup_lt_Some].
Qed.

Lemma ext_insert n (h : Heap) c : ext n h (<[n := c]> h).
Proof.
  split; [by rewrite length_insert |].
  intros a c' Hne Ha. by rewrite list_lookup_insert_ne.
Qed.

Lemma lookup_alloc_insert n (h : Heap) c c' :
  (n < length h)%nat → (<[n := c']> (h ++ [c])) !! length h = Some c.
Proof.
  intros Hn. rewrite list_lookup_insert_ne by lia.
  rewrite lookup_app_r by lia. by rewrite Nat.sub_diag.
Qed.

Lemma Field_SetField_eq s i p : (i < 13)%nat → Field (SetField s i p) i = p.
Proof.
  intros Hi. destruct s.
  do 13 (destruct i as [|i]; [reflexivity |]). lia.
Qed.

Lemma Field_SetField_ne s i j p : i ≠ j → Field (SetField s i p) j = Field s j.
Proof.
  intros Hne. destruct s.
  do 13 (destruct i as [|i];
         [do 13 (destruct j as [|j]; [reflexivity || congruence |]); reflexivity |]).
  reflexivity.
Qed.

Lemma FieldName_DeviceInfo i :
  (i < 13)%nat → bool_decide (FieldName i = "DeviceInfo"%string) = bool_decide (i = 12%nat).
Proof.
  intros Hi. do 13 (destruct i as [|i]; [reflexivity |]). lia.
Qed.

Lemma okState_val h s i : okState h s = true → (i < 12)%nat → okVal h (Field s i) = true.
Proof.
  unfold okState. rewrite andb_true_iff, forallb_forall. intros [H _] Hi.
  apply H, in_seq. lia.
Qed.

Lemma okState_DeviceInfo h s : okState h s = true → okDeviceInfo h (Field s 12) = true.
Proof. unfold okState. rewrite andb_true_iff. by intros [_ H]. Qed.

Lemma okVal_Some h a : okVal h (Some a) = true → ∃ v, h !! a = Some (CVal v).
Proof.
  simpl. rewrite bool_decide_eq_true. unfold loadVal. intros [v Hv].
  destruct (h !! a) as [[]|]; naive_solver.
Qed.

Lemma okDeviceInfo_Some h a : okDeviceInfo h (Some a) = true → ∃ d, h !! a = Some (CDeviceInfo d).
Proof.
  simpl. rewrite bool_decide_eq_true. unfold loadDeviceInfo. intros [v Hv].
  destruct (h !! a) as [[]|]; naive_solver.
Qed.

Lemma loadState_Some h a s : loadState h a = Some s → h !! a = Some (CState s).
Proof. unfold loadState. destruct (h !! a) as [[]|]; naive_solver. Qed.

Section Loop.
Variables (h0 : Heap) (state stateUpdate : addr) (cur patch : State).
Hypothesis Hcur : loadState h0 state = Some cur.
Hypothesis Hpatch : loadState h0 stateUpdate = Some patch.
Hypothesis HokC : okState h0 cur = true.
Hypothesis HokP : okState h0 patch = true.

Let newState : addr := length h0.
Let hstart : Heap := h0 ++ [CState emptyState].

(** Cells of the original heap are found in every later heap. *)
Lemma old_cell h a c : ext newState hstart h → h0 !! a = Some c → h !! a = Some c.
Proof.
  intros [_ E] Ha. apply E.
  - apply lookup_lt_Some in Ha. subst newState. lia.
  - subst hstart. rewrite lookup_app_l; [done | by eapply lookup_lt_Some].
Qed.

Lemma old_loadVal h a v : ext newState hstart h → loadVal h0 a = Some v → loadVal h a = Some v.
Proof.
  unfold loadVal. intros E Ha.
  destruct (h0 !! a) as [[]|] eqn:Hl; simplify_eq.
  by rewrite (old_cell _ _ _ E Hl).
Qed.

Lemma old_loadDeviceInfo h a d :
  ext newState hstart h → loadDeviceInfo h0 a = Some d → loadDeviceInfo h a = Some d.
Proof.
  unfold loadDeviceInfo. intros E Ha.
  destruct (h0 !! a) as [[]|] eqn:Hl; simplify_eq.
  by rewrite (old_cell _ _ _ E Hl).
Qed.

Lemma old_loadState h a s : ext newState hstart h → loadState h0 a = Some s → loadState h a = Some s.
Proof.
  unfold loadState. intros E Ha.
  destruct (h0 !! a) as [[]|] eqn:Hl; simplify_eq.
  by rewrite (old_cell _ _ _ E Hl).
Qed.

Lemma newState_lt h : ext newState hstart h → (newState < length h)%nat.
Proof. intros [L _]. subst hstart newState. rewrite length_app in L. simpl in L. lia. Qed.

(** A scalar seen through [q] stays the same while only the new record is
    rewritten and cells are added. *)
Lemma viewPtr_ext h h' q x s :
  ext newState h h' → loadState h newState = Some s →
  viewPtr h q = Some x → viewPtr h' q = Some x.
Proof.
  intros [_ E] Hs. destruct q as [a|]; simpl; [| done].
  unfold loadVal. destruct (h !! a) as [[v| |]|] eqn:Ha; simpl; try done.
  intros ?; simplify_eq.
  rewrite (E a (CVal v)); [done | | done].
  intros ->. apply loadState_Some in Hs. congruence.
Qed.

Lemma fieldRule_ext h h' i q s :
  ext newState h h' → loadState h newState = Some s →
  fieldRule h0 cur patch h i q → fieldRule h0 cur patch h' i q.
Proof.
  intros E Hs. unfold fieldRule. case_decide.
  - destruct (Field patch i); [| done]. destruct (Field cur i); [| done].
    intros (c & p & a & Hc & Hp & -> & Hlt & Hm). exists c, p, a. split_and!; try done.
    clear Hc Hp. unfold loadDeviceInfo in *.
    destruct (h !! a) as [[]|] eqn:Ha; simplify_eq.
    destruct E as [_ E].
    assert (a ≠ newState) as Hne by (subst newState; lia).
    by rewrite (E a _ Hne Ha).
  - by apply viewPtr_ext with s.
Qed.

(** One iteration of the loop. *)
Lemma merge_field_step h changed new i :
  (i < 13)%nat →
  ext newState hstart h →
  loadState h newState = Some new →
  ∃ h' q,
    merge_field state stateUpdate newState i (h, changed)
      = Some (h', changed || fieldChanged h0 cur patch i) ∧
    ext newState h h' ∧
    loadState h' newState = Some (SetField new i q) ∧
    fieldRule h0 cur patch h' i q.
Proof.
  intros Hi E Hnew.
  pose proof (newState_lt _ E) as Hlt.
  assert (Hstore : ∀ (hh : Heap) c, (newState < length hh)%nat →
            loadState (<[newState := CState c]> hh) newState = Some c).
  { intros hh c Hl. unfold loadState. by rewrite list_lookup_insert_eq. }
  unfold merge_field.
  rewrite (old_loadState _ _ _ E Hcur), (old_loadState _ _ _ E Hpatch), Hnew. simpl.
  rewrite FieldName_DeviceInfo by done.
  unfold fieldChanged, fieldRule.
  destruct (Field patch i) as [pa|] eqn:HP; simpl.
  2:{ (* the patch leaves the field unset: the current pointer is kept *)
    rewrite andb_false_r, orb_false_r.
    eexists _, (Field cur i). refine (conj _ (conj _ (conj _ _))); [done | apply ext_insert | by apply Hstore |].
    case_decide; [done |].
    unfold expected. rewrite HP.
    destruct (Field cur i) as [ca|] eqn:HC; [| done].
    assert (okVal h0 (Some ca) = true) as [v Hv]%okVal_Some.
    { rewrite <- HC. apply okState_val; [done | lia]. }
    simpl. unfold loadVal at 2. rewrite Hv.
    erewrite old_loadVal; [done | by eapply ext_trans; [| apply ext_insert] |].
    unfold loadVal. by rewrite Hv. }
  rewrite andb_true_r.
  destruct (decide (i = 12%nat)) as [->|Hne].
  - (* the DeviceInfo field, set in the patch *)
    rewrite bool_decide_eq_true_2 by done.
    assert (okDeviceInfo h0 (Some pa) = true) as [p Hp]%okDeviceInfo_Some.
    { rewrite <- HP. by apply okState_DeviceInfo. }
    destruct (Field cur 12) as [ca|] eqn:HC; simpl.
    + assert (okDeviceInfo h0 (Some ca) = true) as [c Hc]%okDeviceInfo_Some.
      { rewrite <- HC. by apply okState_DeviceInfo. }
      assert (loadDeviceInfo h0 ca = Some c) as Hc' by (unfold loadDeviceInfo; by rewrite Hc).
      assert (loadDeviceInfo h0 pa = Some p) as Hp' by (unfold loadDeviceInfo; by rewrite Hp).
      rewrite (old_loadDeviceInfo _ _ _ E Hc'), (old_loadDeviceInfo _ _ _ E Hp'). simpl.
      rewrite orb_true_r.
      assert (ca < length h0)%nat by (by eapply lookup_lt_Some).
      rewrite bool_decide_eq_true_2; last first.
      { intros [=]. subst newState. lia. }
      eexists _, (Some (length h)). refine (conj _ (conj _ (conj _ _))); [done | | |].
      * eapply ext_trans; [apply ext_alloc | apply ext_insert].
      * apply Hstore. rewrite length_app. lia.
      * exists c, p, (length h). split_and!; try done.
        unfold loadDeviceInfo. by rewrite lookup_alloc_insert.
    + rewrite orb_true_r.
      eexists _, (Some pa). refine (conj _ (conj _ (conj _ _))); [done | apply ext_insert | by apply Hstore | done].
  - (* a scalar field, set in the patch *)
    rewrite bool_decide_eq_false_2 by done. simpl.
    assert (okVal h0 (Some pa) = true) as [pv Hpv]%okVal_Some.
    { rewrite <- HP. apply okState_val; [done | lia]. }
    assert (loadVal h0 pa = Some pv) as Hpv' by (unfold loadVal; by rewrite Hpv).
    rewrite (old_loadVal _ _ _ E Hpv'). simpl.
    unfold expected. rewrite HP, Hpv'.
    assert (Hfresh : ∃ h' q,
      (let '(h1, p) := alloc h (CVal pv) in
       Some (<[newState := CState (SetField new i (Some p))]> h1, true))
        = Some (h', true) ∧ ext newState h h' ∧
      loadState h' newState = Some (SetField new i q) ∧ viewPtr h' q = Some (Some pv)).
    { eexists _, (Some (length h)). simpl. refine (conj _ (conj _ (conj _ _))); [done | | |].
      - eapply ext_trans; [apply ext_alloc | apply ext_insert].
      - apply Hstore. rewrite length_app. lia.
      - unfold loadVal. by rewrite lookup_alloc_insert. }
    destruct (Field cur i) as [ca|] eqn:HC; simpl.
    + assert (okVal h0 (Some ca) = true) as [cv Hcv]%okVal_Some.
      { rewrite <- HC. apply okState_val; [done | lia]. }
      assert (loadVal h0 ca = Some cv) as Hcv' by (unfold loadVal; by rewrite Hcv).
      rewrite (old_loadVal _ _ _ E Hcv'), Hcv'. simpl.
      destruct (decide (cv = pv)) as [->|Hd].
      * rewrite !bool_decide_eq_false_2 by (intros Hx; by apply Hx).
        rewrite orb_false_r.
        eexists _, (Some ca). refine (conj _ (conj _ (conj _ _))); [done | apply ext_insert | by apply Hstore |].
        simpl. erewrite old_loadVal; [done | by eapply ext_trans; [| apply ext_insert] | done].
      * rewrite !bool_decide_eq_true_2 by congruence. by rewrite orb_true_r.
    + by rewrite orb_true_r.
Qed.

Lemma merge_loop_inv n : ∀ k h changed,
  (k + n ≤ 13)%nat → Inv h0 cur patch k h changed →
  ∃ h' changed',
    merge_loop state stateUpdate newState (seq k n) (h, changed) = Some (h', changed') ∧
    Inv h0 cur patch (k + n) h' changed'.
Proof.
  induction n as [|n IH]; intros k h changed Hk HI.
  - exists h, changed. by rewrite Nat.add_0_r.
  - destruct HI as (E & Hch & new & Hnew & Hrules).
    destruct (merge_field_step h changed new k ltac:(lia) E Hnew)
      as (h1 & q & Hstep & E1 & Hnew1 & Hrule1).
    destruct (IH (S k) h1 (changed || fieldChanged h0 cur patch k)) as (h' & c' & Hl & HI').
    { lia. }
    { refine (conj _ (conj _ _)).
      - by eapply ext_trans.
      - rewrite seq_S, existsb_app, Hch. simpl. by rewrite orb_false_r.
      - exists (SetField new k q). split; [done |].
        intros j Hj. destruct (decide (j = k)) as [->|Hne].
        + rewrite Field_SetField_eq by lia. done.
        + rewrite Field_SetField_ne by done.
          eapply fieldRule_ext; [done | done |]. apply Hrules. lia. }
    exists h', c'. split.
    + rewrite <- cons_seq. cbn [merge_loop]. rewrite Hstep. done.
    + by replace (k + S n)%nat with (S k + n)%nat by lia.
Qed.

(** [Merge] returns, and this is what it returns. *)
Lemma Merge_run :
  ∃ h' new,
    Merge h0 state stateUpdate
      = Some (h', if existsb (fieldChanged h0 cur patch) (seq 0 13) then newState else state) ∧
    (length h0 < length h')%nat ∧
    (∀ a c, h0 !! a = Some c → h' !! a = Some c) ∧
    loadState h' newState = Some new ∧
    ∀ j, (j < 13)%nat → fieldRule h0 cur patch h' j (Field new j).
Proof.
  destruct (merge_loop_inv 13 0 hstart false) as (h' & c' & Hl & E & Hc & new & Hnew & Hrules).
  { lia. }
  { refine (conj (ext_refl _ _) (conj eq_refl _)).
    exists emptyState. split; [| lia].
    unfold loadState. subst hstart newState.
    rewrite lookup_app_r by lia. by rewrite Nat.sub_diag. }
  exists h', new. refine (conj _ (conj _ (conj _ (conj Hnew Hrules)))).
  - unfold Merge, alloc. change NumField with 13%nat.
    subst newState hstart. cbv beta iota zeta in *. rewrite Hl. simpl. by rewrite Hc.
  - by apply newState_lt.
  - intros a c Ha. by eapply old_cell.
Qed.

(** When no iteration sets [changed], the current record already shows
    what every iteration would have written. *)
Lemma unchanged_rule h' j :
  (∀ a c, h0 !! a = Some c → h' !! a = Some c) →
  (j < 13)%nat → fieldChanged h0 cur patch j = false →
  fieldRule h0 cur patch h' j (Field cur j).
Proof.
  intros Hframe Hj. unfold fieldChanged, fieldRule, expected.
  assert (Hv : ∀ a v, loadVal h0 a = Some v → loadVal h' a = Some v).
  { intros a v. unfold loadVal. destruct (h0 !! a) as [[]|] eqn:Ha; try done.
    intros ?; simplify_eq. by rewrite (Hframe _ _ Ha). }
  assert (Hcv : ∀ ca, Field cur j = Some ca → j ≠ 12%nat → ∃ cv, loadVal h0 ca = Some cv).
  { intros ca HC Hne.
    assert (okVal h0 (Some ca) = true) as [cv Hcv]%okVal_Some.
    { rewrite <- HC. apply okState_val; [done | lia]. }
    exists cv. unfold loadVal. by rewrite Hcv. }
  destruct (Field patch j) as [pa|] eqn:HP.
  - case_decide; [done |].
    destruct (Field cur j) as [ca|] eqn:HC; [| done].
    rewrite bool_decide_eq_false. intros Heq.
    destruct (Hcv ca eq_refl) as [cv Hl]; [done |].
    simpl. rewrite (Hv _ _ Hl). simpl. rewrite <- Hl. f_equal.
    destruct (decide (loadVal h0 ca = loadVal h0 pa)); [done | by destruct Heq].
  - intros _. case_decide; [done |].
    destruct (Field cur j) as [ca|] eqn:HC; [| done].
    destruct (Hcv ca eq_refl) as [cv Hl]; [done |].
    simpl. by rewrite (Hv _ _ Hl), Hl.
Qed.

(** [Merge] on well-formed arguments: it returns; the old cells are
    intact; the result is the old record exactly when no iteration set
    [changed], and a record allocated by this call otherwise; every field of the
    result obeys [fieldRule]. *)
Lemma Merge_result :
  ∃ h' r res,
    Merge h0 state stateUpdate = Some (h', r) ∧
    (length h0 < length h')%nat ∧
    (∀ a c, h0 !! a = Some c → h' !! a = Some c) ∧
    r = (if existsb (fieldChanged h0 cur patch) (seq 0 13) then length h0 else state) ∧
    loadState h' r = Some res ∧
    ∀ j, (j < 13)%nat → fieldRule h0 cur patch h' j (Field res j).
Proof.
  destruct Merge_run as (h' & new & HM & Hlen & Hframe & Hnew & Hrules).
  destruct (existsb (fieldChanged h0 cur patch) (seq 0 13)) eqn:Hch.
  - exists h', newState, new. by repeat split.
  - exists h', state, cur. refine (conj HM (conj Hlen (conj Hframe (conj eq_refl (conj _ _))))).
    + unfold loadState. by rewrite (Hframe _ _ (loadState_Some _ _ _ Hcur)).
    + intros j Hj. apply unchanged_rule; [done | done |].
      apply not_true_is_false. intros Ht.
      assert (existsb (fieldChanged h0 cur patch) (seq 0 13) = true); [| congruence].
      apply existsb_exists. exists j. split; [apply in_seq; lia | done].
Qed.

End Loop.

(** Reading through a pointer is unaffected by a call that keeps every old cell. *)
Lemma viewPtr_frame (h h' : Heap) p x :
  (∀ a c, h !! a = Some c → h' !! a = Some c) →
  viewPtr h p = Some x → viewPtr h' p = Some x.
Proof.
  intros Hframe. destruct p as [a|]; simpl; [| done].
  unfold loadVal. destruct (h !! a) as [[]|] eqn:Ha; try done.
  by rewrite (Hframe _ _ Ha).
Qed.

Lemma mapM_frame {A B} (f g : A → option B) l k :
  (∀ x y, f x = Some y → g x = Some y) → mapM f l = Some k → mapM g l = Some k.
Proof.
  intros Hfg. rewrite !mapM_Some. intros HF. eapply Forall2_impl; [exact HF | auto].
Qed.

Lemma viewDeviceInfo_frame (h h' : Heap) p x :
  (∀ a c, h !! a = Some c → h' !! a = Some c) →
  viewDeviceInfo h p = Some x → viewDeviceInfo h' p = Some x.
Proof.
  intros Hframe. destruct p as [a|]; [| done]. unfold viewDeviceInfo.
  rewrite !bind_Some. intros (d & Hd & H). exists d. split.
  { unfold loadDeviceInfo in *. destruct (h !! a) as [[]|] eqn:Ha; try done.
    by rewrite (Hframe _ _ Ha). }
  revert H. rewrite !bind_Some. intros (vs & Hvs & H). exists vs. split; [| done].
  eapply mapM_frame; [| exact Hvs]. intros q y. by apply viewPtr_frame.
Qed.

Lemma viewState_frame (h h' : Heap) a v :
  (∀ a c, h !! a = Some c → h' !! a = Some c) →
  viewState h a = Some v → viewState h' a = Some v.
Proof.
  intros Hframe. unfold viewState.
  rewrite !bind_Some. intros (s & Hs & H). exists s. split.
  { unfold loadState in *. destruct (h !! a) as [[]|] eqn:Ha; try done.
    by rewrite (Hframe _ _ Ha). }
  revert H. rewrite !bind_Some. intros (vs & Hvs & H). exists vs. split.
  { eapply mapM_frame; [| exact Hvs]. intros i y. by apply viewPtr_frame. }
  revert H. rewrite !bind_Some. intros (d & Hd & H). exists d. split; [| done].
  by eapply viewDeviceInfo_frame.
Qed.

Lemma wfState_inv h a :
  wfState h a = true → ∃ s, loadState h a = Some s ∧ okState h s = true.
Proof. unfold wfState. destruct (loadState h a) as [s|]; [eauto | done]. Qed.

Lemma okVal_view h q x : viewPtr h q = Some x → okVal h q = true.
Proof.
  destruct q as [a|]; simpl; [| done]. rewrite bind_Some. intros (v & Hv & _).
  rewrite bool_decide_eq_true. by exists v.
Qed.

Lemma okDeviceInfo_frame (h h' : Heap) q :
  (∀ a c, h !! a = Some c → h' !! a = Some c) →
  okDeviceInfo h q = true → okDeviceInfo h' q = true.
Proof.
  intros Hframe. destruct q as [a|]; [| done].
  intros [d Hd]%okDeviceInfo_Some. simpl. rewrite bool_decide_eq_true.
  exists d. unfold loadDeviceInfo. by rewrite (Hframe _ _ Hd).
Qed.

Lemma okVal_frame (h h' : Heap) q :
  (∀ a c, h !! a = Some c → h' !! a = Some c) →
  okVal h q = true → okVal h' q = true.
Proof.
  intros Hframe. destruct q as [a|]; [| done].
  intros [v Hv]%okVal_Some. simpl. rewrite bool_decide_eq_true.
  exists v. unfold loadVal. by rewrite (Hframe _ _ Hv).
Qed.

Lemma okState_frame (h h' : Heap) s :
  (∀ a c, h !! a = Some c → h' !! a = Some c) →
  okState h s = true → okState h' s = true.
Proof.
  intros Hframe. unfold okState. rewrite !andb_true_iff, !forallb_forall.
  intros [Hv Hd]. split.
  - intros i Hi. eapply okVal_frame; [done | by apply Hv].
  - by eapply okDeviceInfo_frame.
Qed.

Lemma wfState_frame (h h' : Heap) a :
  (∀ a c, h !! a = Some c → h' !! a = Some c) →
  wfState h a = true → wfState h' a = true.
Proof.
  intros Hframe (s & Hs & Hok)%wfState_inv. unfold wfState, loadState.
  rewrite (Hframe _ _ (loadState_Some _ _ _ Hs)). by eapply okState_frame.
Qed.

(** The scalar fields of the result: the patch's value where the patch sets
    the field, the current value elsewhere. *)
Lemma Merge_scalar_fields (h : Heap) (s p : addr) cur patch :
  loadState h s = Some cur → loadState h p = Some patch →
  okState h cur = true → okState h patch = true →
  ∃ h' r res,
    Merge h s p = Some (h', r) ∧ loadState h' r = Some res ∧
    ∀ i, (i < 12)%nat →
      viewPtr h' (Field res i) =
        Some (match Field patch i with
              | Some pa => loadVal h pa
              | None => Elem h (Field cur i)
              end).
Proof.
  intros Hc Hp Hoc Hop.
  destruct (Merge_result h s p cur patch Hc Hp Hoc Hop)
    as (h' & r & res & HM & _ & _ & _ & Hres & Hrules).
  exists h', r, res. split; [done |]. split; [done |].
  intros i Hi. specialize (Hrules i ltac:(lia)).
  unfold fieldRule in Hrules. by rewrite decide_False in Hrules by lia.
Qed.

(** The device information of the result: kept when the patch has none,
    taken from the patch when the record has none, and otherwise a struct
    allocated by the call that holds [mergedDeviceInfo]. *)
Lemma Merge_DeviceInfo_field (h : Heap) (s p : addr) cur patch :
  loadState h s = Some cur → loadState h p = Some patch →
  okState h cur = true → okState h patch = true →
  ∃ h' r res,
    Merge h s p = Some (h', r) ∧ loadState h' r = Some res ∧
    match DeviceInfo_ patch, DeviceInfo_ cur with
    | None, c => DeviceInfo_ res = c
    | Some pa, None => DeviceInfo_ res = Some pa
    | Some pa, Some ca =>
      ∃ c p a, loadDeviceInfo h ca = Some c ∧ loadDeviceInfo h pa = Some p ∧
               DeviceInfo_ res = Some a ∧ (length h < a)%nat ∧
               loadDeviceInfo h' a = Some (mergedDeviceInfo c p)
    end.
Proof.
  intros Hc Hp Hoc Hop.
  destruct (Merge_result h s p cur patch Hc Hp Hoc Hop)
    as (h' & r & res & HM & _ & _ & _ & Hres & Hrules).
  exists h', r, res. split; [done |]. split; [done |].
  exact (Hrules 12%nat ltac:(lia)).
Qed.

(** The result of [Merge] is again a well-formed record, and the patch
    still is one. *)
Lemma Merge_wf (h : Heap) (s p : addr) :
  wfState h s = true → wfState h p = true →
  ∃ h' r, Merge h s p = Some (h', r) ∧
          (∀ a c, h !! a = Some c → h' !! a = Some c) ∧
          wfState h' r = true.
Proof.
  intros (cur & Hc & Hoc)%wfState_inv (patch & Hp & Hop)%wfState_inv.
  destruct (Merge_result h s p cur patch Hc Hp Hoc Hop)
    as (h' & r & res & HM & _ & Hframe & _ & Hres & Hrules).
  exists h', r. split; [done |]. split; [done |].
  unfold wfState. rewrite Hres. unfold okState.
  apply andb_true_iff. split.
  - apply forallb_forall. intros i [_ Hi]%in_seq.
    specialize (Hrules i ltac:(lia)). unfold fieldRule in Hrules.
    rewrite decide_False in Hrules by lia. by eapply okVal_view.
  - specialize (Hrules 12%nat ltac:(lia)). unfold fieldRule in Hrules. simpl in Hrules.
    pose proof (okState_DeviceInfo _ _ Hoc) as Hdc.
    pose proof (okState_DeviceInfo _ _ Hop) as Hdp. simpl in Hdc, Hdp.
    destruct (DeviceInfo_ patch) as [pa|].
    + destruct (DeviceInfo_ cur) as [ca|].
      * destruct Hrules as (c & p' & a & _ & _ & -> & _ & Hl).
        simpl. rewrite bool_decide_eq_true. by exists (mergedDeviceInfo c p').
      * rewrite Hrules. by eapply okDeviceInfo_frame.
    + rewrite Hrules. by eapply okDeviceInfo_frame.
Qed.

Lemma Elem_view h q x : viewPtr h q = Some x → Elem h q = x.
Proof.
  destruct q as [a|]; simpl; [| by intros [= <-]].
  destruct (loadVal h a); simpl; by intros [= <-].
Qed.

Lemma loadVal_frame (h h' : Heap) a v :
  (∀ a c, h !! a = Some c → h' !! a = Some c) →
  loadVal h a = Some v → loadVal h' a = Some v.
Proof.
  intros Hframe. unfold loadVal. destruct (h !! a) as [[]|] eqn:Ha; try done.
  by rewrite (Hframe _ _ Ha).
Qed.

(** An update that sets nothing gives back the record it was applied to. *)
Lemma Merge_empty_patch (h : Heap) (s p : addr) :
  wfState h s = true → loadState h p = Some emptyState →
  ∃ h', Merge h s p = Some (h', s).
Proof.
  intros (cur & Hc & Hoc)%wfState_inv Hp.
  destruct (Merge_result h s p cur emptyState Hc Hp Hoc eq_refl)
    as (h' & r & res & HM & _ & _ & Hr & _ & _).
  exists h'. by rewrite HM, Hr.
Qed.

(** Two updates in a row: each scalar field shows the value of the later
    update that sets it, else the value the record had. *)
Lemma Merge_twice_scalar (h : Heap) (s u1 u2 : addr) cur p1 p2 :
  loadState h s = Some cur → loadState h u1 = Some p1 → loadState h u2 = Some p2 →
  okState h cur = true → okState h p1 = true → okState h p2 = true →
  ∃ h1 r1 h2 r2 res,
    Merge h s u1 = Some (h1, r1) ∧ Merge h1 r1 u2 = Some (h2, r2) ∧
    loadState h2 r2 = Some res ∧
    ∀ i, (i < 12)%nat →
      viewPtr h2 (Field res i) =
        Some (match Field p2 i with
              | Some a2 => loadVal h a2
              | None => match Field p1 i with
                        | Some a1 => loadVal h a1
                        | None => Elem h (Field cur i)
                        end
              end).
Proof.
  intros Hc H1 H2 Hoc Ho1 Ho2.
  destruct (Merge_result h s u1 cur p1 Hc H1 Hoc Ho1)
    as (h1 & r1 & res1 & HM1 & _ & Hf1 & _ & Hres1 & Hrules1).
  destruct (Merge_wf h s u1) as (h1' & r1' & HM1' & _ & Hwf1).
  { unfold wfState. by rewrite Hc. }
  { unfold wfState. by rewrite H1. }
  rewrite HM1 in HM1'. injection HM1' as <- <-.
  assert (Hok1 : okState h1 res1 = true).
  { unfold wfState in Hwf1. by rewrite Hres1 in Hwf1. }
  assert (H2' : loadState h1 u2 = Some p2).
  { unfold loadState. by rewrite (Hf1 _ _ (loadState_Some _ _ _ H2)). }
  destruct (Merge_scalar_fields h1 r1 u2 res1 p2 Hres1 H2' Hok1)
    as (h2 & r2 & res & HM2 & Hres & Hfields); [by eapply okState_frame |].
  exists h1, r1, h2, r2, res. split; [done |]. split; [done |]. split; [done |].
  intros i Hi. rewrite (Hfields i Hi). f_equal.
  destruct (Field p2 i) as [a2|] eqn:Hp2.
  - assert (okVal h (Some a2) = true) as [v Hv]%okVal_Some.
    { rewrite <- Hp2. by apply okState_val. }
    assert (loadVal h a2 = Some v) as Hl by (unfold loadVal; by rewrite Hv).
    by rewrite Hl, (loadVal_frame _ _ _ _ Hf1 Hl).
  - specialize (Hrules1 i ltac:(lia)). unfold fieldRule in Hrules1.
    rewrite decide_False in Hrules1 by lia. by apply Elem_view in Hrules1.
Qed.


(** Whether [Merge] hands back the record it was called on. *)
Lemma Merge_same_record_iff (h : Heap) (s p : addr) cur patch :
  loadState h s = Some cur → loadState h p = Some patch →
  okState h cur = true → okState h patch = true →
  ∃ h' r, Merge h s p = Some (h', r) ∧
          (r = s ↔ existsb (fieldChanged h cur patch) (seq 0 13) = false).
Proof.
  intros Hc Hp Hoc Hop.
  destruct (Merge_result h s p cur patch Hc Hp Hoc Hop)
    as (h' & r & res & HM & _ & _ & Hr & _ & _).
  exists h', r. split; [done |].
  assert (s < length h)%nat.
  { apply loadState_Some in Hc. by eapply lookup_lt_Some. }
  destruct (existsb _ _); subst r; split; (done || lia).
Qed.

(** A patch that carries device information always yields a new record,
    whatever the device information holds. *)
Lemma Merge_DeviceInfo_patch_new (h : Heap) (s p : addr) cur patch :
  loadState h s = Some cur → loadState h p = Some patch →
  okState h cur = true → okState h patch = true →
  is_Some (DeviceInfo_ patch) →
  ∃ h', Merge h s p = Some (h', length h).
Proof.
  intros Hc Hp Hoc Hop [pa Hpa].
  destruct (Merge_result h s p cur patch Hc Hp Hoc Hop)
    as (h' & r & res & HM & _ & _ & Hr & _ & _).
  exists h'. rewrite HM, Hr. do 2 f_equal.
  assert (existsb (fieldChanged h cur patch) (seq 0 13) = true) as ->; [| done].
  apply existsb_exists. exists 12%nat. split; [apply in_seq; lia |].
  unfold fieldChanged. simpl. by rewrite Hpa.
Qed.

(** C9: [Merge] is copy-on-write.  On well-formed arguments it returns;
    every cell that existed before the call holds the same contents after
    it, so the record and the patch read the same through any reference;
    the result is the old record or a record allocated by this call, and it
    is the latter whenever it reads differently from the old record. *)
Theorem Merge_copy_on_write (h : Heap) (s p : addr) :
  wfState h s = true → wfState h p = true →
  ∃ h' r,
    Merge h s p = Some (h', r) ∧
    (∀ a c, h !! a = Some c → h' !! a = Some c) ∧
    (∀ v, viewState h s = Some v → viewState h' s = Some v) ∧
    (∀ v, viewState h p = Some v → viewState h' p = Some v) ∧
    (r = s ∨ r = length h) ∧
    (∀ v, viewState h s = Some v → viewState h' r ≠ Some v →
          r = length h ∧ h !! r = None).
Proof.
  intros (cur & Hc & Hoc)%wfState_inv (patch & Hp & Hop)%wfState_inv.
  destruct (Merge_result h s p cur patch Hc Hp Hoc Hop)
    as (h' & r & res & HM & _ & Hframe & Hr & _ & _).
  exists h', r. split; [done |]. split; [done |].
  split; [intros v; by apply viewState_frame |].
  split; [intros v; by apply viewState_frame |].
  destruct (existsb _ _); subst r.
  - split; [by right |]. intros _ _ _. split; [done |]. by apply lookup_ge_None.
  - split; [by left |]. intros v Hv Hne. destruct Hne. by eapply viewState_frame.
Qed.

Lemma Merge_copy_on_write_witness :
  ∃ h' r,
    Merge heapVolume 2 5 = Some (h', r) ∧
    (∀ a c, heapVolume !! a = Some c → h' !! a = Some c) ∧
    (∀ v, viewState heapVolume 2 = Some v → viewState h' 2 = Some v) ∧
    (∀ v, viewState heapVolume 5 = Some v → viewState h' 5 = Some v) ∧
    (r = 2%nat ∨ r = length heapVolume) ∧
    (∀ v, viewState heapVolume 2 = Some v → viewState h' r ≠ Some v →
          r = length heapVolume ∧ heapVolume !! r = None).
Proof. apply (Merge_copy_on_write heapVolume 2 5); reflexivity. Defined.

(** C1, evaluated: the record was last updated at 100 and the patch sets
    200; the merged device information still shows 100.  [mergeDeviceInfo]
    has no assignment for [LastUpdated]. *)
Theorem Merge_LastUpdated_not_overwritten :
  ∃ h' r res a d,
    Merge heapLastUpdated 2 5 = Some (h', r) ∧
    loadState h' r = Some res ∧
    DeviceInfo_ res = Some a ∧ loadDeviceInfo h' a = Some d ∧
    (∃ patch pd pa, loadState heapLastUpdated 5 = Some patch ∧
                    DeviceInfo_ patch = Some pa ∧
                    loadDeviceInfo heapLastUpdated pa = Some pd ∧
                    Elem heapLastUpdated (LastUpdated pd) = Some (VInt64 200)) ∧
    Elem h' (LastUpdated d) = Some (VInt64 100).
Proof.
  eexists _, _, _, _, _. split; [vm_compute; reflexivity |].
  split; [vm_compute; reflexivity |].
  split; [reflexivity |]. split; [vm_compute; reflexivity |].
  split; [| reflexivity].
  eexists _, _, _. repeat split; vm_compute; reflexivity.
Qed.

(** In general: the merged struct keeps the current [LastUpdated]. *)
Lemma mergedDeviceInfo_LastUpdated c p :
  LastUpdated (mergedDeviceInfo c p) = LastUpdated c.
Proof. reflexivity. Qed.

(** C2, evaluated: record and patch both hold device information with
    volume 5 and nothing else, so the patch changes no value; [Merge] still
    returns a record other than the one it was called on, one that reads
    the same. *)
Theorem Merge_equal_DeviceInfo_returns_new_record :
  ∃ h' r,
    Merge heapVolume 2 5 = Some (h', r) ∧
    r ≠ 2%nat ∧
    heapVolume !! r = None ∧
    is_Some (viewState heapVolume 2) ∧
    viewState h' r = viewState heapVolume 2.
Proof.
  eexists _, _. split; [vm_compute; reflexivity |].
  split; [done |]. split; [reflexivity |]. split; [by eexists | reflexivity].
Qed.

End MergeProofs.

(** ** pkg/client/websocket_conn.go: pending requests *)

Module ClientProofs.
Import client.

Lemma pendingInv_new : pendingInv NewWebsocketConnection.
Proof. split; intros *; simpl; by rewrite lookup_empty. Qed.

Lemma pendingInv_SendRequest sendOk reqType conn :
  pendingInv conn → pendingInv (SendRequest sendOk reqType conn).1.1.
Proof.
  intros [Hbuf Hinj]. unfold SendRequest, pendingInv. simpl.
  set (id := wrap32 (lastRequestID conn + 1)).
  assert (Hold : ∀ i e, i ≠ id → resHandlers conn !! i = Some e →
                        (resC e < length (chans conn))%nat).
  { intros i e _ He. destruct (Hbuf _ _ He) as (c & Hc & _). by eapply lookup_lt_Some. }
  split.
  - intros i e. rewrite lookup_insert. case_decide as Hi.
    + intros [= <-]. simpl. exists (mkChan [] false).
      rewrite lookup_app_r by lia. by rewrite Nat.sub_diag.
    + intros He. destruct (Hbuf _ _ He) as (c & Hc & Hb). exists c.
      split; [| done]. rewrite lookup_app_l; [done | by eapply lookup_lt_Some].
  - intros i1 i2 e1 e2. rewrite !lookup_insert.
    repeat case_decide; intros H1 H2 Heq; simplify_eq; simpl in *; try done.
    + pose proof (Hold i2 e2 ltac:(done) H2). lia.
    + pose proof (Hold i1 e1 ltac:(done) H1). lia.
    + by eapply Hinj.
Qed.

Lemma pendingInv_handleResponse r conn conn' :
  pendingInv conn → handleResponse r conn = Some conn' → pendingInv conn'.
Proof.
  intros [Hbuf Hinj]. unfold handleResponse.
  destruct (RequestId r) as [id|]; [| done].
  destruct (RequestType_ r) as [ty|]; [| done]. simpl.
  destruct (resHandlers conn !! id) as [e|] eqn:He; [| by intros [= <-]].
  case_decide; [| by intros [= <-]].
  intros [= <-]. destruct (Hbuf _ _ He) as (c & Hc & Hb). rewrite Hc.
  split; simpl.
  - intros i e'. rewrite lookup_delete. case_decide as Hi; [done |].
    intros He'. destruct (Hbuf _ _ He') as (c' & Hc' & Hb'). exists c'.
    split; [| done]. rewrite list_lookup_insert_ne; [done |].
    intros Heq. apply Hi. by eapply Hinj.
  - intros i1 i2 e1 e2. rewrite !lookup_delete.
    repeat case_decide; try done. apply Hinj.
Qed.

Lemma pendingInv_awaiter showInt ev ch conn conn' res :
  pendingInv conn → awaiter showInt ev ch conn = Some (conn', res) → pendingInv conn'.
Proof.
  intros [Hbuf Hinj]. unfold awaiter.
  destruct (chans conn !! ch) as [c|] eqn:Hc; [| done]. simpl.
  destruct (closed c); [done |].
  assert (Hgoal : ∀ b, (∃ pre, buf c = pre ++ b) →
    pendingInv (mkConn (resHandlers conn) (lastRequestID conn)
                       (<[ch := mkChan b true]> (chans conn)))).
  { intros b [pre Hpre]. split; simpl; [| done].
    intros i e He. destruct (Hbuf _ _ He) as (c' & Hc' & Hb').
    destruct (decide (resC e = ch)) as [Heq|Hne].
    - rewrite Heq in *.
      exists (mkChan b true). rewrite list_lookup_insert_eq by (by eapply lookup_lt_Some).
      split; [done |]. simpl. assert (c' = c) as -> by congruence.
      rewrite Hb' in Hpre. symmetry in Hpre. by apply app_eq_nil in Hpre as [_ ->].
    - exists c'. by rewrite list_lookup_insert_ne. }
  destruct ev.
  - intros [= <- _]. apply Hgoal. by exists [].
  - destruct (buf c) as [|r0 rest] eqn:Hb; [done |].
    intros [= <- _]. apply Hgoal. by exists [r0].
Qed.

Lemma pendingInv_step conn conn' : connStep conn conn' → pendingInv conn → pendingInv conn'.
Proof.
  destruct 1 as [sendOk reqType conn | r conn conn' Hr | showInt ev ch conn conn' res Ha];
    intros HI.
  - by apply pendingInv_SendRequest.
  - by eapply pendingInv_handleResponse.
  - by eapply pendingInv_awaiter.
Qed.

(** The invariant holds in every state a connection can reach. *)
Lemma pendingInv_reachable conn :
  rtc connStep NewWebsocketConnection conn → pendingInv conn.
Proof.
  revert conn. apply rtc_ind_r.
  - apply pendingInv_new.
  - intros y z _ Hstep IH. by eapply pendingInv_step.
Qed.

(** [SendRequest] records the entry under the new id, with a fresh channel
    that is open and empty. *)
Lemma SendRequest_pending sendOk reqType conn :
  let '(conn1, id, _) := SendRequest sendOk reqType conn in
  id = wrap32 (lastRequestID conn + 1) ∧
  resHandlers conn1 !! id = Some (mkUnhandled reqType (length (chans conn))) ∧
  chans conn1 !! length (chans conn) = Some (mkChan [] false).
Proof.
  simpl. split; [done |]. split; [by rewrite lookup_insert_eq |].
  rewrite lookup_app_r by lia. by rewrite Nat.sub_diag.
Qed.

(** C3 as stated fails: after a timeout the entry is still in [resHandlers]. *)
Lemma timeout_leaves_entry : ¬ timeout_discards_entry.
Proof.
  intros H.
  specialize (H showNothing 5 NewWebsocketConnection connOnePending 1 0%nat
                (mkConn (resHandlers connOnePending) 1 [mkChan [] true])
                (None, Some "Request timeout"%string) eq_refl eq_refl).
  vm_compute in H. discriminate H.
Qed.

(** C3, amended: while no response has arrived on the channel the awaiter
    can only return by its timer; it then returns the error "Request
    timeout", closes the channel and leaves [resHandlers] as it is.  A
    response whose id is not pending, or whose type differs from the
    pending request's, changes nothing.  A response that matches the
    timed-out request removes the entry and delivers nothing. *)
Theorem awaiter_timeout (showInt : Z → string) (conn : WebsocketConnection) (ch : addr) :
  chans conn !! ch = Some (mkChan [] false) →
  let conn2 := mkConn (resHandlers conn) (lastRequestID conn)
                      (<[ch := mkChan [] true]> (chans conn)) in
  awaiter showInt Received ch conn = None ∧
  awaiter showInt TimerFired ch conn = Some (conn2, (None, Some "Request timeout"%string)) ∧
  (∀ r id ty,
     RequestId r = Some id → RequestType_ r = Some ty →
     (∀ e, resHandlers conn2 !! id = Some e → Request_Type e ≠ ty) →
     handleResponse r conn2 = Some conn2) ∧
  (∀ r id e,
     resHandlers conn2 !! id = Some e → resC e = ch →
     RequestId r = Some id → RequestType_ r = Some (Request_Type e) →
     ∃ conn3, handleResponse r conn2 = Some conn3 ∧
              resHandlers conn3 !! id = None ∧ chans conn3 = chans conn2).
Proof.
  intros Hch conn2. unfold awaiter. rewrite Hch. simpl.
  split; [done |]. split; [done |]. split.
  - intros r id ty Hid Hty Hne. unfold handleResponse. rewrite Hid, Hty. simpl.
    destruct (resHandlers conn !! id) as [e|] eqn:He; [| done].
    case_decide as Heq; [| done]. by destruct (Hne e eq_refl).
  - intros r id e He Hc Hid Hty. unfold handleResponse. rewrite Hid, Hty. simpl in *.
    rewrite He. rewrite decide_True by done. eexists. split; [done |]. simpl.
    split; [by rewrite lookup_delete_eq |].
    rewrite Hc. rewrite list_lookup_insert_eq by (by eapply lookup_lt_Some).
    by rewrite list_insert_insert_eq.
Qed.

Lemma awaiter_timeout_witness :
  let conn2 := mkConn (resHandlers connOnePending) 1 [mkChan [] true] in
  awaiter showNothing Received 0 connOnePending = None ∧
  awaiter showNothing TimerFired 0 connOnePending
    = Some (conn2, (None, Some "Request timeout"%string)) ∧
  handleResponse (mkResponse (Some 1) (Some 6) (Some 200) None) conn2 = Some conn2 ∧
  ∃ conn3, handleResponse responseOK conn2 = Some conn3 ∧
           resHandlers conn3 !! 1 = None ∧ chans conn3 = chans conn2.
Proof.
  destruct (awaiter_timeout showNothing connOnePending 0 eq_refl) as (H1 & H2 & H3 & H4).
  split; [exact H1 |]. split; [exact H2 |]. split.
  - apply (H3 _ 1 6); [reflexivity | reflexivity |].
    intros e He. vm_compute in He. injection He as <-. discriminate.
  - apply (H4 responseOK 1 (mkUnhandled 5 0)); reflexivity.
Defined.

(** C4: a response that matches a pending entry removes the entry; it is
    delivered to the awaiter when the awaiter is still waiting, and
    delivered to nobody when the awaiter has already returned; from then
    on, before or after the awaiter has returned, every further response
    with the same request id is a no-op, so what the awaiter receives is
    the first response. *)
Theorem pending_resolved_once (showInt : Z → string) (conn : WebsocketConnection)
    (r : Response) (id : Z) (e : unhandledRequest) (c : chanResponse) :
  pendingInv conn →
  RequestId r = Some id → RequestType_ r = Some (Request_Type e) →
  resHandlers conn !! id = Some e → chans conn !! resC e = Some c →
  ∃ conn1,
    handleResponse r conn = Some conn1 ∧
    resHandlers conn1 = delete id (resHandlers conn) ∧
    (closed c = false →
       chans conn1 !! resC e = Some (mkChan [r] false) ∧
       ∃ conn2, awaiter showInt Received (resC e) conn1
                  = Some (conn2, (Some r, responseError showInt r))) ∧
    (closed c = true → chans conn1 = chans conn) ∧
    (∀ conn' r2, resHandlers conn' = resHandlers conn1 →
                 RequestId r2 = Some id → is_Some (RequestType_ r2) →
                 handleResponse r2 conn' = Some conn').
Proof.
  intros [Hbuf _] Hid Hty He Hc.
  destruct (Hbuf _ _ He) as (c' & Hc' & Hb). assert (c' = c) as -> by congruence.
  unfold handleResponse at 1. rewrite Hid, Hty. simpl. rewrite He, Hc.
  rewrite decide_True by done. eexists. split; [done |]. simpl.
  split; [done |]. unfold HandleResponse. rewrite Hb.
  assert (resC e < length (chans conn))%nat by (by eapply lookup_lt_Some).
  split; [| split].
  - intros Hopen. rewrite Hopen.
    split; [by rewrite list_lookup_insert_eq |].
    unfold awaiter. simpl. rewrite list_lookup_insert_eq by done. simpl. by eexists.
  - intros Hcl. rewrite Hcl. by apply list_insert_id.
  - intros conn' r2 Hsame Hid2 [ty2 Hty2]. unfold handleResponse.
    rewrite Hid2, Hty2. simpl. by rewrite Hsame, lookup_delete_eq.
Qed.

Lemma pending_resolved_once_witness :
  ∃ conn1,
    handleResponse responseOK connOnePending = Some conn1 ∧
    resHandlers conn1 = delete 1 (resHandlers connOnePending) ∧
    (false = false →
       chans conn1 !! 0%nat = Some (mkChan [responseOK] false) ∧
       ∃ conn2, awaiter showNothing Received 0 conn1
                  = Some (conn2, (Some responseOK, responseError showNothing responseOK))) ∧
    (false = true → chans conn1 = chans connOnePending) ∧
    (∀ conn' r2, resHandlers conn' = resHandlers conn1 →
                 RequestId r2 = Some 1 → is_Some (RequestType_ r2) →
                 handleResponse r2 conn' = Some conn').
Proof.
  apply (pending_resolved_once showNothing connOnePending responseOK 1
           (mkUnhandled 5 0) (mkChan [] false)); try reflexivity.
  apply pendingInv_SendRequest, pendingInv_new.
Defined.

End ClientProofs.

(** ** Baby UID validation *)

Module UidProofs.
Import uid.

Lemma inClass_existsb c : inClass c = existsb (Ascii.eqb c) allowedAlphabet.
Proof. destruct c as [[] [] [] [] [] [] [] []]; vm_compute; reflexivity. Qed.

(** The ranges of the character class are exactly the named alphabet. *)
Lemma inClass_allowed c : inClass c = true ↔ In c allowedAlphabet.
Proof.
  rewrite inClass_existsb, existsb_exists. split.
  - intros (x & Hx & ->%Ascii.eqb_eq). done.
  - intros H. exists c. split; [done | apply Ascii.eqb_refl].
Qed.

Lemma allInClass_Forall s :
  allInClass s = true ↔ ∀ c, In c (list_ascii_of_string s) → inClass c = true.
Proof.
  induction s as [|c s IH]; simpl.
  - split; [intros _ c [] | done].
  - rewrite andb_true_iff, IH. split.
    + intros [Hc Hs] c' [<-|Hin]; auto.
    + intros H. split; [apply H; by left | intros c' Hc'; apply H; by right].
Qed.

Lemma allInClass_false s :
  allInClass s = false → ∃ c, In c (list_ascii_of_string s) ∧ inClass c = false.
Proof.
  induction s as [|c s IH]; simpl; [done |].
  destruct (inClass c) eqn:Hc; simpl.
  - intros (c' & Hin & Hc')%IH. exists c'. auto.
  - intros _. exists c. auto.
Qed.

(** C10: [EnsureValidBabyUID] returns an error exactly when the UID is
    empty or has a character outside lowercase letters, digits, underscore
    and hyphen; so an accepted UID is not empty and has no slash, no
    backslash, no dot and no uppercase letter. *)
Theorem EnsureValidBabyUID_spec (babyUID : string) :
  (is_Some (EnsureValidBabyUID babyUID) ↔
     babyUID = ""%string ∨
     ∃ c, In c (list_ascii_of_string babyUID) ∧ ¬ In c allowedAlphabet) ∧
  (EnsureValidBabyUID babyUID = None →
     babyUID ≠ ""%string ∧
     ∀ c, In c (list_ascii_of_string babyUID) →
          c ≠ "/"%char ∧ c ≠ "092"%char ∧ c ≠ "."%char ∧ isUpper c = false).
Proof.
  assert (Hok : EnsureValidBabyUID babyUID = None →
                babyUID ≠ ""%string ∧
                ∀ c, In c (list_ascii_of_string babyUID) → In c allowedAlphabet).
  { unfold EnsureValidBabyUID, validUID_MatchString.
    destruct babyUID as [|c0 s0]; [done |].
    destruct (allInClass (String c0 s0)) eqn:Hall; [| done].
    pose proof (proj1 (allInClass_Forall _) Hall) as Hall'.
    intros _. split; [done |]. intros c Hc. by apply inClass_allowed, Hall'. }
  split.
  - split.
    + unfold EnsureValidBabyUID, validUID_MatchString.
      destruct babyUID as [|c0 s0]; [by left |].
      destruct (allInClass (String c0 s0)) eqn:Hall; simpl; [by intros [? ?] |].
      intros _. right. apply allInClass_false in Hall as (c & Hin & Hc).
      exists c. split; [done |]. intros Hal%inClass_allowed. congruence.
    + intros Hbad. destruct (EnsureValidBabyUID babyUID) eqn:He; [by eexists |].
      destruct (Hok eq_refl) as [Hne Hall]. destruct Hbad as [->|(c & Hc & Hnin)]; [done |].
      destruct Hnin. by apply Hall.
  - intros [Hne Hall]%Hok. split; [done |]. intros c Hc.
    specialize (Hall c Hc). apply inClass_allowed in Hall.
    repeat split; try (intros ->; vm_compute in Hall; discriminate Hall).
    destruct c as [[] [] [] [] [] [] [] []]; vm_compute in Hall |- *;
      reflexivity || discriminate Hall.
Qed.

Lemma EnsureValidBabyUID_spec_witness :
  EnsureValidBabyUID "abc_01-x" = None ∧
  is_Some (EnsureValidBabyUID "../etc") ∧
  ("abc_01-x"%string ≠ ""%string ∧
   ∀ c, In c (list_ascii_of_string "abc_01-x") →
        c ≠ "/"%char ∧ c ≠ "\"%char ∧ c ≠ "."%char ∧ isUpper c = false).
Proof.
  split; [reflexivity |]. split; [by eexists |].
  apply (EnsureValidBabyUID_spec "abc_01-x"). reflexivity.
Defined.

End UidProofs.

(** ** pkg/app/app.go: the streaming retry monitor *)

Module AppProofs.
Import baby app.

Lemma shouldRetryStreaming_iff opts h st :
  shouldRetryStreaming opts h st = true ↔
  (∃ rtmp, RTMP opts = Some rtmp ∧ AutoStart rtmp = true) ∧ stateAsksForRetry h st.
Proof.
  unfold shouldRetryStreaming, stateAsksForRetry.
  destruct (RTMP opts) as [rtmp|]; [| split; [done | by intros [(? & ? & ?) _]]].
  destruct (AutoStart rtmp) eqn:Hauto; simpl.
  - rewrite !andb_true_iff, !bool_decide_eq_true. split.
    + intros [[? ?] ?]. split; [by exists rtmp | done].
    + intros [_ (? & ? & ?)]. done.
  - split; [done |]. intros [(r & [= <-] & Hr) _]. congruence.
Qed.

(** C8 as stated fails: the state asks for a retry, RTMP auto-start is on,
    but no connection is registered for the device; the tick does nothing. *)
Lemma retry_needs_connection : ¬ retry_exactly_on_state.
Proof.
  intros H. specialize (H optsAutoStart heapFailed stateFailed None).
  destruct H as [_ H].
  assert (retryMonitorTick optsAutoStart heapFailed stateFailed (@None unit) = true) as Hc.
  { apply H. repeat split. vm_compute. discriminate. }
  vm_compute in Hc. discriminate Hc.
Qed.

(** C8, amended: on a tick the monitor re-attempts local streaming exactly
    when RTMP auto-start is enabled, a connection is registered for the
    device, the websocket is alive, the stream request state is
    [RequestFailed] and the stream is not [Alive]. *)
Theorem retryMonitorTick_iff {Conn} (opts : Opts) (h : Heap) (babyState : State)
    (conn : option Conn) :
  retryMonitorTick opts h babyState conn = true ↔
  (∃ rtmp, RTMP opts = Some rtmp ∧ AutoStart rtmp = true) ∧
  is_Some conn ∧
  GetIsWebsocketAlive h babyState = true ∧
  GetStreamRequestState h babyState = StreamRequestState_RequestFailed ∧
  GetStreamState h babyState ≠ StreamState_Alive.
Proof.
  unfold retryMonitorTick.
  destruct (shouldRetryStreaming opts h babyState) eqn:Hs.
  - apply shouldRetryStreaming_iff in Hs as [Hr Hst].
    destruct conn as [cn|]; split.
    + intros _. split; [done |]. split; [by eexists | done].
    + done.
    + done.
    + intros (_ & [? ?] & _). done.
  - split; [done |]. intros (Hr & _ & Hst).
    assert (shouldRetryStreaming opts h babyState = true); [| congruence].
    by apply shouldRetryStreaming_iff.
Qed.

End AppProofs.

(** ** The HLS transcoder: retrying *)

Module StreamingProofs.
Import streaming.

Lemma shouldRetry_iff t :
  shouldRetry t = true ↔
  retryCount t < maxRetries t ∧
  ∃ e, lastError t = Some e ∧
       (Type_ e = ErrorTypeRTMPConnection ∨ Type_ e = ErrorTypeRTMPTimeout ∨
        Type_ e = ErrorTypeNetworkError).
Proof.
  unfold shouldRetry. case_decide.
  - split; [done | lia].
  - destruct (lastError t) as [e|]; [| split; [done | by intros [_ (? & ? & _)]]].
    repeat case_decide; split; try done.
    all: try (intros _; split; [lia | exists e; tauto]).
    intros [_ (e' & [= <-] & [?|[?|?]])]; done.
Qed.

(** [monitor] always leaves the transcoder marked as not running. *)
Lemma monitor_not_running now ev s : isRunning (h (monitor now ev s)) = false.
Proof. done. Qed.

(** So the retry goroutine, which runs after [monitor] has returned, finds
    [isRunning] false and returns without starting FFmpeg. *)
Lemma retry_after_monitor_does_nothing now ev startOk s :
  let s1 := monitor now ev s in
  let s2 := retryGoroutine (DelayElapsed startOk) s1 in
  launches s2 = launches s ∧ h s2 = h s1.
Proof.
  simpl. split; [| done].
  destruct ev as [|[err|]]; simpl; try done. by destruct (shouldRetry _).
Qed.

(** What [monitor] decides when the process exits with an error. *)
Lemma monitor_schedules now err s :
  let t := classifyAndSetError now err (h s) in
  let s1 := monitor now (ProcessExited (Some err)) s in
  status (h s1) = StatusError ∧
  if shouldRetry t
  then retryTimers s1 = retryTimers s ++ [now + retryDelay (h s)] ∧
       retryCount (h s1) = retryCount (h s) + 1
  else retryTimers s1 = retryTimers s ∧ retryCount (h s1) = retryCount (h s).
Proof.
  simpl.
  assert (Hst : status (classifyAndSetError now err (h s)) = StatusError).
  { unfold classifyAndSetError. repeat case_match; done. }
  assert (Hrd : retryDelay (classifyAndSetError now err (h s)) = retryDelay (h s)).
  { unfold classifyAndSetError. repeat case_match; done. }
  assert (Hrc : retryCount (classifyAndSetError now err (h s)) = retryCount (h s)).
  { unfold classifyAndSetError. repeat case_match; done. }
  destruct (shouldRetry _); simpl; rewrite Hst; simpl; by rewrite ?Hrd, ?Hrc.
Qed.

(** C7, evaluated.  A transcoder is started; FFmpeg exits with
    "Connection refused".  The error is classed [rtmp_connection], the retry
    counter goes to 1 of 5 and a retry goroutine is started with a delay
    of ten seconds.  [monitor]'s deferred function then clears [isRunning],
    so when the delay has elapsed the goroutine returns at its
    [if !h.isRunning] test: FFmpeg is not started again, no goroutine is
    left, and the status is [Error] after one failure. *)
Theorem retry_is_scheduled_but_never_runs :
  isRunning (h supStarted) = true ∧ launches supStarted = 1%nat ∧
  Type_ <$> lastError (h supFailed) = Some ErrorTypeRTMPConnection ∧
  retryCount (h supFailed) = 1 ∧ maxRetries (h supFailed) = 5 ∧
  retryTimers supFailed = [1 * Second + 10 * Second] ∧
  isRunning (h supFailed) = false ∧
  launches supAfterDelay = 1%nat ∧
  retryTimers supAfterDelay = [] ∧
  retryCount (h supAfterDelay) = 1 ∧
  (GetStatus supAfterDelay).1 = StatusError.
Proof. vm_compute. repeat split; reflexivity. Qed.

End StreamingProofs.

(** ** The state store *)

Module StoreProofs.
Import baby MergeSpec MergeProofs statestore.

Lemma wfStore_frame (h h' : Heap) m :
  (∀ a c, h !! a = Some c → h' !! a = Some c) → wfStore h m → wfStore h' m.
Proof. intros Hframe Hwf uid a Ha. eapply wfState_frame; [done | by eapply Hwf]. Qed.

Lemma frame_app (h l : Heap) : ∀ a c, h !! a = Some c → (h ++ l) !! a = Some c.
Proof. intros a c Ha. rewrite lookup_app_l; [done | by eapply lookup_lt_Some]. Qed.

(** [Update] with a well-formed update that sets a scalar field: it
    returns, keeps every old cell and the store well-formed, and afterwards
    the store holds a record for the UID that shows, in each scalar field
    the update sets, the update's value. *)
Lemma Update_sets_scalars uid u (h : Heap) m patch i0 :
  wfStore h m → loadState h u = Some patch → okState h patch = true →
  (i0 < 12)%nat → is_Some (Field patch i0) →
  ∃ h' m',
    Update uid u h m = Some (h', m') ∧
    (∀ a c, h !! a = Some c → h' !! a = Some c) ∧
    wfStore h' m' ∧
    ∃ a res,
      babiesByUID m' !! uid = Some a ∧ loadState h' a = Some res ∧
      ∀ j pj, (j < 12)%nat → Field patch j = Some pj →
              Elem h' (Field res j) = loadVal h pj ∧ is_Some (loadVal h pj).
Proof.
  intros Hwf Hu Hok Hi0 [p0 Hp0].
  unfold Update, GetBabyState.
  set (h0 := match babiesByUID m !! uid with Some _ => h | None => (NewState h).1 end).
  set (cur := match babiesByUID m !! uid with Some a => a | None => (NewState h).2 end).
  assert (Hget : match babiesByUID m !! uid with
                 | Some a => (h, a) | None => NewState h end = (h0, cur)).
  { subst h0 cur. by destruct (babiesByUID m !! uid). }
  rewrite Hget.
  assert (Hf0 : ∀ a c, h !! a = Some c → h0 !! a = Some c).
  { subst h0. destruct (babiesByUID m !! uid); [done |]. apply frame_app. }
  assert (Hcurwf : wfState h0 cur = true).
  { subst h0 cur. destruct (babiesByUID m !! uid) as [a|] eqn:Ha; [by eapply Hwf |].
    unfold wfState, loadState. simpl. rewrite lookup_app_r by lia.
    by rewrite Nat.sub_diag. }
  apply wfState_inv in Hcurwf as (cs & Hcs & Hcok).
  assert (Hu0 : loadState h0 u = Some patch).
  { unfold loadState. by rewrite (Hf0 _ _ (loadState_Some _ _ _ Hu)). }
  assert (Hok0 : okState h0 patch = true) by (by eapply okState_frame).
  destruct (Merge_result h0 cur u cs patch Hcs Hu0 Hcok Hok0)
    as (h' & r & res & HM & _ & Hframe & _ & Hres & Hrules).
  destruct (Merge_wf h0 cur u) as (h'' & r' & HM' & _ & Hrwf).
  { unfold wfState. by rewrite Hcs. }
  { unfold wfState. by rewrite Hu0. }
  rewrite HM in HM'. injection HM' as <- <-.
  rewrite HM. simpl.
  assert (Hfr : ∀ a c, h !! a = Some c → h' !! a = Some c) by auto.
  assert (Hfields : ∀ j pj, (j < 12)%nat → Field patch j = Some pj →
            Elem h' (Field res j) = loadVal h pj ∧ is_Some (loadVal h pj)).
  { intros j pj Hj Hpj. specialize (Hrules j ltac:(lia)).
    unfold fieldRule in Hrules. rewrite decide_False in Hrules by lia.
    unfold expected in Hrules. rewrite Hpj in Hrules.
    assert (okVal h (Some pj) = true) as [v Hv]%okVal_Some.
    { rewrite <- Hpj. by apply okState_val. }
    assert (loadVal h pj = Some v) as Hl by (unfold loadVal; by rewrite Hv).
    assert (loadVal h0 pj = Some v) as Hl0 by (unfold loadVal; by rewrite (Hf0 _ _ Hv)).
    rewrite Hl0 in Hrules. rewrite Hl. split; [| by eexists].
    destruct (Field res j) as [a|]; simpl in *; [| done].
    destruct (loadVal h' a); simpl in *; congruence. }
  case_decide as Hrc.
  - (* the prior record came back: it is the stored one *)
    exists h', m. split; [done |]. split; [done |].
    split; [by eapply wfStore_frame |].
    exists cur, res. subst r. split; [| split; [exact Hres | exact Hfields]].
    clear Hget. subst cur. destruct (babiesByUID m !! uid) as [a|] eqn:Ha; [done |]. exfalso.
    (* a fresh empty record cannot show the value the update sets *)
    destruct (Hfields i0 p0 Hi0 Hp0) as [He [v Hv]].
    assert (res = emptyState) as ->.
    { subst h0. simpl in *. unfold loadState in Hres.
      rewrite (Hframe (length h) (CState emptyState)) in Hres; [congruence |].
      rewrite lookup_app_r by lia. by rewrite Nat.sub_diag. }
    rewrite Hv in He. clear -He Hi0.
    do 12 (destruct i0 as [|i0]; [discriminate He |]). lia.
  - exists h', (mkStateManager (<[uid := r]> (babiesByUID m)) (notified m ++ [(uid, u)])).
    split; [done |]. split; [done |]. split.
    + intros uid' a. simpl. rewrite lookup_insert. case_decide.
      * by intros [= <-].
      * intros Ha. eapply wfState_frame; [done | by eapply Hwf].
    + exists r, res. simpl. rewrite lookup_insert_eq.
      split; [done |]. split; [exact Hres | exact Hfields].
Qed.

(** An update that sets nothing leaves the store as it is and notifies nobody. *)
Lemma Update_empty_no_notification uid u (h : Heap) m :
  wfStore h m → loadState h u = Some emptyState →
  ∃ h', Update uid u h m = Some (h', m).
Proof.
  intros Hwf Hu. unfold Update, GetBabyState.
  destruct (babiesByUID m !! uid) as [a|] eqn:Ha.
  - destruct (Merge_empty_patch h a u) as (h' & HM); [by eapply Hwf | done |].
    exists h'. rewrite HM. simpl. by rewrite decide_True.
  - unfold NewState, alloc.
    destruct (Merge_empty_patch (h ++ [CState emptyState]) (length h) u) as (h' & HM).
    + unfold wfState, loadState. rewrite lookup_app_r by lia. by rewrite Nat.sub_diag.
    + unfold loadState. by rewrite (frame_app _ _ _ _ (loadState_Some _ _ _ Hu)).
    + exists h'. rewrite HM. simpl. by rewrite decide_True.
Qed.

(** With [Merge] as it is, an update whose device information equals the
    stored one is still taken for a change, and subscribers are notified. *)
Lemma Update_equal_DeviceInfo_notifies :
  ∃ h' m',
    Update "abc" 5 heapVolume (mkStateManager {[ "abc"%string := 2%nat ]} []) = Some (h', m') ∧
    notified m' = [("abc"%string, 5%nat)].
Proof. eexists _, _. split; [vm_compute; reflexivity | reflexivity]. Qed.

End StoreProofs.

(** ** The RTMP handler *)

Module RtmpProofs.
Import baby MergeProofs statestore StoreProofs rtmpserver.

(** A setter on the record that was allocated last but [rest]. *)
Lemma setField_last (h : Heap) s rest i v :
  setField i v (h ++ CState s :: rest) (length h)
  = Some (h ++ CState (SetField s i (Some (length h + S (length rest))%nat)) :: rest ++ [CVal v],
          length h).
Proof.
  unfold setField, loadState, alloc.
  rewrite lookup_app_r by lia. rewrite Nat.sub_diag. simpl.
  rewrite length_app. simpl. f_equal. f_equal.
  rewrite <- app_assoc. simpl.
  rewrite insert_app_r_alt by lia. by rewrite Nat.sub_diag.
Qed.

(** The update built on a publisher read error. *)
Lemma unhealthyUpdate_eq (h : Heap) :
  unhealthyUpdate h
  = Some (h ++ [CState (mkState (Some (length h + 1)%nat) None None (Some (length h + 2)%nat)
                                None None None None None None None None None);
                CVal (VStreamState StreamState_Unhealthy); CVal (VInt64 0)],
          length h).
Proof.
  unfold unhealthyUpdate, NewState, alloc, SetStreamState, SetLastVideoPacketTime.
  rewrite (setField_last h emptyState [] 0). simpl.
  by rewrite (setField_last h _ [CVal (VStreamState StreamState_Unhealthy)] 3).
Qed.

(** Closing the queues of a list of subscribers closes exactly those. *)
Lemma foldr_closeQueue_lookup (l : list addr) (qs : list subscriber) sub q :
  qs !! sub = Some q →
  foldr closeQueue qs l !! sub
  = Some (mkSubscriber (pktC q) (if decide (sub ∈ l) then true else pktC_closed q)).
Proof.
  intros Hq. induction l as [|x l IH].
  - simpl. by destruct q.
  - cbn [foldr]. unfold closeQueue at 1.
    destruct (decide (x = sub)) as [->|Hne].
    + rewrite IH. rewrite list_lookup_insert_eq by (by eapply lookup_lt_Some).
      simpl. rewrite decide_True; [done | apply elem_of_cons; by left].
    + destruct (foldr closeQueue qs l !! x).
      * rewrite list_lookup_insert_ne by done. rewrite IH.
        do 2 f_equal. apply decide_ext. rewrite elem_of_cons.
        split; [by right | intros [Heq|Hin]; [by destruct Hne | done]].
      * rewrite IH. do 2 f_equal. apply decide_ext. rewrite elem_of_cons.
        split; [by right | intros [Heq|Hin]; [by destruct Hne | done]].
Qed.

Lemma rtmpURLRX_submatch_local babyUID :
  uid.validUID_MatchString babyUID = true →
  rtmpURLRX_submatch ("/local/" +:+ babyUID) = Some babyUID.
Proof.
  intros Hv. unfold rtmpURLRX_submatch. simpl.
  change ("" +:+ babyUID)%string with babyUID.
  rewrite Nat.sub_0_r.
  assert (Hsub : ∀ s, substring 0 (String.length s) s = s).
  { induction s as [|c s IH]; simpl; [done | by rewrite IH]. }
  rewrite Hsub. rewrite Hv. by destruct babyUID.
Qed.

(** C5: subscribing for a UID without a registered publisher returns a nil
    handle and a nil [unsubscribe] and changes nothing, and
    [handleConnection] then closes the connection; with a publisher
    registered, the handle is a new open subscriber queue, added to the
    subscribers of that publisher. *)
Theorem subscribe_without_publisher (s : rtmpHandler) (babyUID : string) :
  uid.validUID_MatchString babyUID = true →
  (broadcastersByUID s !! babyUID = None →
     getNewSubscriber babyUID s = (s, None, None) ∧
     handleConnection ("/local/" +:+ babyUID) false s = Some (s, ConnClosed)) ∧
  (∀ b bc, broadcastersByUID s !! babyUID = Some b → broadcasters s !! b = Some bc →
     ∃ s' sub,
       getNewSubscriber babyUID s = (s', Some sub, Some (b, sub)) ∧
       handleConnection ("/local/" +:+ babyUID) false s = Some (s', Subscribed babyUID sub) ∧
       subs s !! sub = None ∧
       subs s' !! sub = Some (mkSubscriber [] false) ∧
       broadcasters s' !! b = Some (mkBroadcaster (subscribers bc ++ [sub])) ∧
       broadcastersByUID s' = broadcastersByUID s).
Proof.
  intros Hv. split.
  - intros Hnone. unfold handleConnection. rewrite (rtmpURLRX_submatch_local _ Hv).
    unfold getNewSubscriber. by rewrite Hnone.
  - intros b bc Hb Hbc. unfold handleConnection. rewrite (rtmpURLRX_submatch_local _ Hv).
    unfold getNewSubscriber, newSubscriber. rewrite Hb, Hbc.
    eexists _, _. split; [done |]. split; [done |]. simpl.
    split; [by apply lookup_ge_None |].
    split; [rewrite lookup_app_r by lia; by rewrite Nat.sub_diag |].
    split; [| done]. rewrite list_lookup_insert_eq; [done | by eapply lookup_lt_Some].
Qed.

Lemma subscribe_without_publisher_witness :
  (getNewSubscriber "abc" handlerEmpty = (handlerEmpty, None, None) ∧
   handleConnection "/local/abc" false handlerEmpty = Some (handlerEmpty, ConnClosed)) ∧
  ∃ s' sub,
    getNewSubscriber "abc" handlerPublishing = (s', Some sub, Some (0%nat, sub)) ∧
    handleConnection "/local/abc" false handlerPublishing = Some (s', Subscribed "abc" sub) ∧
    subs handlerPublishing !! sub = None ∧
    subs s' !! sub = Some (mkSubscriber [] false) ∧
    broadcasters s' !! 0%nat = Some (mkBroadcaster ([] ++ [sub])) ∧
    broadcastersByUID s' = broadcastersByUID handlerPublishing.
Proof.
  split.
  - apply (proj1 (subscribe_without_publisher handlerEmpty "abc" eq_refl)); reflexivity.
  - apply (proj2 (subscribe_without_publisher handlerPublishing "abc" eq_refl)
                  0%nat (mkBroadcaster [])); reflexivity.
Defined.

(** C6: when the publisher's packet read fails, the handler's update makes
    the stored state of the device show liveness [Unhealthy] and a last
    video packet time of 0; the registry entry of the UID is removed
    exactly when it still maps to this publisher; and the queue of every
    subscriber of this publisher is closed. *)
Theorem publisher_read_failure (s : rtmpHandler) (babyUID : string) (publisher : addr) :
  wfStore (heap s) (babyStateManager s) →
  ∃ s',
    publisherReadFailed babyUID publisher s = Some s' ∧
    (∃ a st,
       babiesByUID (babyStateManager s') !! babyUID = Some a ∧
       loadState (heap s') a = Some st ∧
       GetStreamState (heap s') st = StreamState_Unhealthy ∧
       Elem (heap s') (GetLastVideoPacketTime st) = Some (VInt64 0)) ∧
    broadcastersByUID s' =
      (if decide (broadcastersByUID s !! babyUID = Some publisher)
       then delete babyUID (broadcastersByUID s) else broadcastersByUID s) ∧
    (∀ bc sub q,
       broadcasters s !! publisher = Some bc → sub ∈ subscribers bc →
       subs s !! sub = Some q →
       subs s' !! sub = Some (mkSubscriber (pktC q) true)) ∧
    wfStore (heap s') (babyStateManager s').
Proof.
  intros Hwf. unfold publisherReadFailed, updateState.
  rewrite unhealthyUpdate_eq. simpl.
  set (n := length (heap s)).
  set (patch := mkState (Some (n + 1)%nat) None None (Some (n + 2)%nat)
                        None None None None None None None None None).
  set (h1 := heap s ++ [CState patch; CVal (VStreamState StreamState_Unhealthy); CVal (VInt64 0)]).
  assert (Hl0 : h1 !! n = Some (CState patch)).
  { subst h1 n. rewrite lookup_app_r by lia. by rewrite Nat.sub_diag. }
  assert (Hl1 : h1 !! (n + 1)%nat = Some (CVal (VStreamState StreamState_Unhealthy))).
  { subst h1 n. rewrite lookup_app_r by lia.
    by replace (length (heap s) + 1 - length (heap s))%nat with 1%nat by lia. }
  assert (Hl2 : h1 !! (n + 2)%nat = Some (CVal (VInt64 0))).
  { subst h1 n. rewrite lookup_app_r by lia.
    by replace (length (heap s) + 2 - length (heap s))%nat with 2%nat by lia. }
  assert (Hpatch : loadState h1 n = Some patch) by (unfold loadState; by rewrite Hl0).
  assert (Hok : okState h1 patch = true).
  { unfold okState, okVal, okDeviceInfo, loadVal. simpl. rewrite Hl1, Hl2. done. }
  destruct (Update_sets_scalars babyUID n h1 (babyStateManager s) patch 0)
    as (h' & m' & HU & Hframe & Hwf' & a & st & Ha & Hst & Hfields);
    [by eapply wfStore_frame; [apply frame_app |] | done | done | lia | by eexists |].
  rewrite HU. simpl. eexists. split; [done |].
  split; [| split; [| split]].
  - exists a, st. unfold closePublisher, closeSubscribers; simpl.
    assert (Hs0 : Elem h' (StreamState_ st) = Some (VStreamState StreamState_Unhealthy)).
    { destruct (Hfields 0%nat (n + 1)%nat ltac:(lia) eq_refl) as [Hx _].
      simpl in Hx. rewrite Hx. unfold loadVal. by rewrite Hl1. }
    assert (Hs3 : Elem h' (LastVideoPacketTime st) = Some (VInt64 0)).
    { destruct (Hfields 3%nat (n + 2)%nat ltac:(lia) eq_refl) as [Hx _].
      simpl in Hx. rewrite Hx. unfold loadVal. by rewrite Hl2. }
    assert (Hgoal : babiesByUID m' !! babyUID = Some a ∧ loadState h' a = Some st ∧
                    GetStreamState h' st = StreamState_Unhealthy ∧
                    Elem h' (GetLastVideoPacketTime st) = Some (VInt64 0)).
    { split; [done |]. split; [done |]. split; [| done].
      unfold GetStreamState. destruct (StreamState_ st) as [x|]; [| done].
      simpl in Hs0. by rewrite Hs0. }
    repeat case_match; simpl; exact Hgoal.
  - unfold closePublisher, closeSubscribers; simpl.
    destruct (broadcastersByUID s !! babyUID) as [cb|] eqn:Hcb.
    + destruct (decide (cb = publisher)) as [->|Hne].
      * rewrite decide_True by done. simpl. by destruct (broadcasters s !! publisher).
      * rewrite decide_False by congruence. simpl. by destruct (broadcasters s !! publisher).
    + rewrite decide_False by done. simpl. by destruct (broadcasters s !! publisher).
  - intros bc sub q Hbc Hin Hq. unfold closePublisher, closeSubscribers; simpl.
    assert (Hgoal : foldr closeQueue (subs s) (subscribers bc) !! sub
                    = Some (mkSubscriber (pktC q) true)).
    { rewrite (foldr_closeQueue_lookup _ _ _ _ Hq). by rewrite decide_True. }
    destruct (broadcastersByUID s !! babyUID) as [cb|]; [case_decide |]; simpl;
      rewrite Hbc; simpl; exact Hgoal.
  - unfold closePublisher, closeSubscribers; simpl.
    repeat case_match; simpl; exact Hwf'.
Qed.

Lemma publisher_read_failure_witness :
  ∃ s',
    publisherReadFailed "abc" 0 handlerPublishing = Some s' ∧
    (∃ a st,
       babiesByUID (babyStateManager s') !! "abc"%string = Some a ∧
       loadState (heap s') a = Some st ∧
       GetStreamState (heap s') st = StreamState_Unhealthy ∧
       Elem (heap s') (GetLastVideoPacketTime st) = Some (VInt64 0)) ∧
    broadcastersByUID s' =
      (if decide (broadcastersByUID handlerPublishing !! "abc"%string = Some 0%nat)
       then delete "abc"%string (broadcastersByUID handlerPublishing)
       else broadcastersByUID handlerPublishing) ∧
    (∀ bc sub q,
       broadcasters handlerPublishing !! 0%nat = Some bc → sub ∈ subscribers bc →
       subs handlerPublishing !! sub = Some q →
       subs s' !! sub = Some (mkSubscriber (pktC q) true)) ∧
    wfStore (heap s') (babyStateManager s').
Proof.
  apply (publisher_read_failure handlerPublishing "abc" 0).
  intros u a. vm_compute babiesByUID.
  destruct (decide (u = "abc"%string)) as [->|Hne].
  - vm_compute. by intros [= <-].
  - intros Ha. exfalso. revert Ha.
    change (({[ "abc"%string := 4%nat ]} : gmap string addr) !! u = Some a → False).
    by rewrite lookup_singleton_ne.
Defined.

End RtmpProofs.

(** ** Cells allocated behind a heap *)

Module HeapProofs.
Import baby.

Lemma heap_lookup_tail (h t : Heap) (k : nat) : (h ++ t) !! (length h + k)%nat = t !! k.
Proof. rewrite lookup_app_r by lia. f_equal. lia. Qed.

Lemma heap_lookup_tail0 (h t : Heap) : (h ++ t) !! length h = t !! 0%nat.
Proof. rewrite <- (heap_lookup_tail h t 0). f_equal. lia. Qed.

Lemma heap_insert_tail (h t : Heap) (k : nat) (x : cell) :
  <[(length h + k)%nat := x]> (h ++ t) = h ++ <[k := x]> t.
Proof. apply insert_app_r. Qed.

Lemma heap_insert_tail0 (h t : Heap) (x : cell) :
  <[length h := x]> (h ++ t) = h ++ <[0%nat := x]> t.
Proof. rewrite <- heap_insert_tail. f_equal. lia. Qed.

End HeapProofs.

(** ** pkg/baby/state.go: setters, getters and device information *)

Module AccessorProofs.
Import baby MergeProofs accessors.

(** What a setter does to the heap: one new scalar cell, and the record
    rewritten in place with the field pointing to it. *)
Lemma setField_spec (h : Heap) a s i v :
  loadState h a = Some s → (i < 13)%nat →
  let h' := <[a := CState (SetField s i (Some (length h)))]> (h ++ [CVal v]) in
  setField i v h a = Some (h', a) ∧
  loadState h' a = Some (SetField s i (Some (length h))) ∧
  loadVal h' (length h) = Some v ∧
  (∀ b c, b ≠ a → h !! b = Some c → h' !! b = Some c).
Proof.
  intros Hs Hi h'. pose proof (loadState_Some _ _ _ Hs) as Hc.
  assert (a < length h)%nat as Hlt by (by eapply lookup_lt_Some).
  unfold setField, alloc. rewrite Hs. simpl. split; [done |]. subst h'.
  split; [| split].
  - unfold loadState. rewrite list_lookup_insert_eq; [done |].
    rewrite length_app. simpl. lia.
  - unfold loadVal. rewrite list_lookup_insert_ne by lia.
    rewrite lookup_app_r by lia. by rewrite Nat.sub_diag.
  - intros b c Hne Hb. rewrite list_lookup_insert_ne by done.
    rewrite lookup_app_l; [done | by eapply lookup_lt_Some].
Qed.

(** X1: each setter is read back by its getter.  On a valid record,
    [SetStreamState], [SetStreamRequestState], [SetWebsocketAlive],
    [SetNightLight] and [SetStandby] return the same record; the matching
    getter then returns the value that was set; every other field of the
    record keeps its pointer, and every other cell its contents. *)
Theorem setters_read_back (h : Heap) (a : addr) (s : State) :
  loadState h a = Some s →
  let after (i : nat) (set : Heap → addr → option (Heap * addr))
            (reads : Heap → State → Prop) :=
    ∃ h' s', set h a = Some (h', a) ∧ loadState h' a = Some s' ∧ reads h' s' ∧
             (∀ j, j ≠ i → Field s' j = Field s j) ∧
             (∀ b c, b ≠ a → h !! b = Some c → h' !! b = Some c) in
  (∀ v, after 0%nat (SetStreamState v) (λ h' s', GetStreamState h' s' = v)) ∧
  (∀ v, after 1%nat (SetStreamRequestState v) (λ h' s', GetStreamRequestState h' s' = v)) ∧
  (∀ b, after 2%nat (SetWebsocketAlive b) (λ h' s', GetIsWebsocketAlive h' s' = b)) ∧
  (∀ b, after 10%nat (SetNightLight b) (λ h' s', GetNightLight h' s' = b)) ∧
  (∀ b, after 11%nat (SetStandby b) (λ h' s', GetStandby h' s' = b)).
Proof.
  intros Hs after.
  assert (Hgen : ∀ i v (reads : Heap → State → Prop), (i < 13)%nat →
    (∀ h' s', loadVal h' (length h) = Some v → Field s' i = Some (length h) → reads h' s') →
    after i (setField i v) reads).
  { intros i v reads Hi Hreads.
    destruct (setField_spec h a s i v Hs Hi) as (Hset & Hload & Hval & Hframe).
    eexists _, _. split; [exact Hset |]. split; [exact Hload |].
    split; [| split; [| exact Hframe]].
    - apply Hreads; [done | by apply Field_SetField_eq].
    - intros j Hj. by apply Field_SetField_ne. }
  repeat split; intros v; apply Hgen; try lia; intros h' s' Hv Hf; simpl in Hf.
  - unfold GetStreamState. by rewrite Hf, Hv.
  - unfold GetStreamRequestState. by rewrite Hf, Hv.
  - unfold GetIsWebsocketAlive. by rewrite Hf, Hv.
  - unfold GetNightLight. by rewrite Hf, Hv.
  - unfold GetStandby. by rewrite Hf, Hv.
Qed.

Lemma setters_read_back_witness :
  ∃ h' s',
    SetStreamState StreamState_Alive MergeSpec.heapVolume 2 = Some (h', 2%nat) ∧
    loadState h' 2 = Some s' ∧
    GetStreamState h' s' = StreamState_Alive ∧
    (∀ j, j ≠ 0%nat → Field s' j = Field (MergeSpec.stateDeviceInfo (Some 1%nat)) j) ∧
    (∀ b c, b ≠ 2%nat → MergeSpec.heapVolume !! b = Some c → h' !! b = Some c).
Proof.
  exact (proj1 (setters_read_back MergeSpec.heapVolume 2 _ eq_refl) StreamState_Alive).
Defined.

(** X2: [GetDeviceInfo] never returns nil, and it writes.  With device
    information present it returns that pointer and leaves the heap alone.
    With none it allocates an empty [DeviceInfo], stores it in the record
    it was called on (the other fields keep their pointers), and returns
    it.  Either way a second call returns the same pointer and changes
    nothing. *)
Theorem GetDeviceInfo_allocates_once (h : Heap) (a : addr) (s : State) :
  loadState h a = Some s →
  ∃ h1 d s1,
    GetDeviceInfo h a = Some (h1, d) ∧
    loadState h1 a = Some s1 ∧ DeviceInfo_ s1 = Some d ∧
    (∀ j, j ≠ 12%nat → Field s1 j = Field s j) ∧
    GetDeviceInfo h1 a = Some (h1, d) ∧
    match DeviceInfo_ s with
    | Some d0 => h1 = h ∧ d = d0
    | None => d = length h ∧ h !! d = None ∧
              loadDeviceInfo h1 d = Some emptyDeviceInfo ∧
              (∀ b c, b ≠ a → h !! b = Some c → h1 !! b = Some c)
    end.
Proof.
  intros Hs. pose proof (loadState_Some _ _ _ Hs) as Hc.
  assert (a < length h)%nat as Hlt by (by eapply lookup_lt_Some).
  unfold GetDeviceInfo at 1. rewrite Hs. simpl.
  destruct (DeviceInfo_ s) as [d0|] eqn:Hd.
  - exists h, d0, s. split; [done |]. split; [done |]. split; [done |].
    split; [done |]. split; [| done].
    unfold GetDeviceInfo. by rewrite Hs; simpl; rewrite Hd.
  - set (h1 := <[a := CState (SetField s 12 (Some (length h)))]>
                 (h ++ [CDeviceInfo emptyDeviceInfo])).
    assert (Hs1 : loadState h1 a = Some (SetField s 12 (Some (length h)))).
    { unfold loadState. subst h1. rewrite list_lookup_insert_eq; [done |].
      rewrite length_app. simpl. lia. }
    exists h1, (length h), (SetField s 12 (Some (length h))).
    split; [done |]. split; [done |].
    split; [by destruct s |].
    split; [intros j Hj; apply Field_SetField_ne; congruence |].
    split.
    + unfold GetDeviceInfo. rewrite Hs1. simpl. by destruct s.
    + split; [done |]. split; [by apply lookup_ge_None |]. split.
      * unfold loadDeviceInfo. subst h1. rewrite list_lookup_insert_ne by lia.
        rewrite lookup_app_r by lia. by rewrite Nat.sub_diag.
      * intros b c Hne Hb. subst h1. rewrite list_lookup_insert_ne by done.
        rewrite lookup_app_l; [done | by eapply lookup_lt_Some].
Qed.

Lemma GetDeviceInfo_allocates_once_witness :
  ∃ h1 d s1,
    GetDeviceInfo (app.heapFailed ++ [CState app.stateFailed]) 3 = Some (h1, d) ∧
    loadState h1 3 = Some s1 ∧ DeviceInfo_ s1 = Some d ∧
    GetDeviceInfo h1 3 = Some (h1, d) ∧ d = 4%nat.
Proof.
  destruct (GetDeviceInfo_allocates_once (app.heapFailed ++ [CState app.stateFailed]) 3
              app.stateFailed eq_refl) as (h1 & d & s1 & H1 & H2 & H3 & _ & H5 & H6).
  exists h1, d, s1. simpl in H6. by destruct H6 as (-> & _).
Defined.

Lemma fieldAssignment_handled field v ty proj :
  (field, ty, proj) ∈ handledFields → ty v = true →
  ∃ assign, fieldAssignment field v = Some assign ∧
            (∀ p d, proj (assign p d) = p) ∧
            (∀ p d, ∃ k, ∀ j, j ≠ k → DeviceInfo_ptrs (assign p d) !! j = DeviceInfo_ptrs d !! j) ∧
            (∀ p d, AvailableSoundtracks (assign p d) = AvailableSoundtracks d).
Proof.
  unfold handledFields. intros Hin Hty.
  repeat (apply elem_of_cons in Hin as [Heq|Hin];
    [injection Heq as -> -> ->; destruct v; try discriminate Hty;
     eexists; (split; [reflexivity |]); (split; [done |]); (split; [| done]);
     intros p d |]).
  - exists 0%nat. by intros [|j] Hj.
  - exists 1%nat. intros j Hj. do 2 (destruct j as [|j]; [done || by destruct Hj |]). done.
  - exists 2%nat. intros j Hj. do 3 (destruct j as [|j]; [done || by destruct Hj |]). done.
  - exists 4%nat. intros j Hj. do 5 (destruct j as [|j]; [done || by destruct Hj |]). done.
  - exists 6%nat. intros j Hj. do 7 (destruct j as [|j]; [done || by destruct Hj |]). done.
  - exists 7%nat. intros j Hj. do 8 (destruct j as [|j]; [done || by destruct Hj |]). done.
  - exists 8%nat. intros j Hj. do 9 (destruct j as [|j]; [done || by destruct Hj |]). done.
  - exists 12%nat. intros j Hj. do 13 (destruct j as [|j]; [done || by destruct Hj |]). done.
  - by apply elem_of_nil in Hin.
Qed.

Ltac in_table :=
  repeat (apply elem_of_cons; first [left; reflexivity | right]).

Lemma fieldAssignment_unhandled field v :
  (∀ ty proj, (field, ty, proj) ∈ handledFields → ty v = false) →
  fieldAssignment field v = None.
Proof.
  intros Hno. unfold fieldAssignment.
  assert (∀ name ty proj, (name, ty, proj) ∈ handledFields →
            field = name → ty v = false) as Hno'.
  { intros name ty proj Hin ->. by eapply Hno. }
  pose proof (Hno' _ _ _ (ltac:(unfold handledFields; in_table) : ("firmware_version"%string, isString, FirmwareVersion) ∈ handledFields)) as H1.
  pose proof (Hno' _ _ _ (ltac:(unfold handledFields; in_table) : ("hardware_version"%string, isString, HardwareVersion) ∈ handledFields)) as H2.
  pose proof (Hno' _ _ _ (ltac:(unfold handledFields; in_table) : ("device_mode"%string, isString, DeviceMode) ∈ handledFields)) as H3.
  pose proof (Hno' _ _ _ (ltac:(unfold handledFields; in_table) : ("wifi_network"%string, isString, WiFiNetwork) ∈ handledFields)) as H4.
  pose proof (Hno' _ _ _ (ltac:(unfold handledFields; in_table) : ("night_vision"%string, isBool, NightVision) ∈ handledFields)) as H5.
  pose proof (Hno' _ _ _ (ltac:(unfold handledFields; in_table) : ("volume"%string, isInt32, Volume) ∈ handledFields)) as H6.
  pose proof (Hno' _ _ _ (ltac:(unfold handledFields; in_table) : ("sleep_mode"%string, isBool, SleepMode) ∈ handledFields)) as H7.
  pose proof (Hno' _ _ _ (ltac:(unfold handledFields; in_table) : ("streaming_error"%string, isString, StreamingError) ∈ handledFields)) as H8.
  clear Hno Hno'.
  repeat (match goal with
          | |- (if String.eqb field ?n then _ else _) = None =>
            destruct (String.eqb_spec field n) as [E|_]
          end;
          [destruct v; first [reflexivity | (by (specialize (H1 E)) || by (specialize (H2 E))
             || by (specialize (H3 E)) || by (specialize (H4 E)) || by (specialize (H5 E))
             || by (specialize (H6 E)) || by (specialize (H7 E)) || by (specialize (H8 E)))] |]).
  done.
Qed.

(** X3: [UpdateDeviceInfoField] and its [switch].  On a valid record the
    call returns the record itself, and afterwards the record has device
    information (an empty one is allocated when it had none; the other
    fields keep their pointers).  For a name of the eight cases with a
    value of the asserted type, the case's field then reads that value, at
    most one pointer field differs from before and the soundtrack list is
    kept.  For any other name, or a value of another type, the device
    information is as before. *)
Theorem UpdateDeviceInfoField_switch (h : Heap) (a : addr) (s : State) (d0 : DeviceInfo)
    (field : string) (v : value) :
  loadState h a = Some s → deviceInfoOf h s = Some d0 →
  ∃ h' s' da d',
    UpdateDeviceInfoField field v h a = Some (h', a) ∧
    loadState h' a = Some s' ∧ DeviceInfo_ s' = Some da ∧
    loadDeviceInfo h' da = Some d' ∧
    (∀ j, j ≠ 12%nat → Field s' j = Field s j) ∧
    (∀ ty proj, (field, ty, proj) ∈ handledFields → ty v = true →
       Elem h' (proj d') = Some v ∧
       (∃ k, ∀ j, j ≠ k → DeviceInfo_ptrs d' !! j = DeviceInfo_ptrs d0 !! j) ∧
       AvailableSoundtracks d' = AvailableSoundtracks d0) ∧
    ((∀ ty proj, (field, ty, proj) ∈ handledFields → ty v = false) → d' = d0).
Proof.
  intros Hs Hd0. pose proof (loadState_Some _ _ _ Hs) as Hc.
  assert (a < length h)%nat as Hlt by (by eapply lookup_lt_Some).
  (* the heap and the pointer after the nil check *)
  assert (∃ h1 da s1,
    (match DeviceInfo_ s with
     | Some da => (h, da)
     | None => let '(h', da) := alloc h (CDeviceInfo emptyDeviceInfo) in
               (<[a := CState (SetField s 12 (Some da))]> h', da)
     end) = (h1, da) ∧
    loadState h1 a = Some s1 ∧ DeviceInfo_ s1 = Some da ∧
    loadDeviceInfo h1 da = Some d0 ∧ da ≠ a ∧
    (∀ j, j ≠ 12%nat → Field s1 j = Field s j)) as (h1 & da & s1 & E & Hs1 & Hda & Hd & Hne & Hfr).
  { unfold deviceInfoOf in Hd0. destruct (DeviceInfo_ s) as [da|] eqn:HD.
    - exists h, da, s. repeat split; try done.
      intros ->. unfold loadDeviceInfo in Hd0. by rewrite Hc in Hd0.
    - injection Hd0 as <-. eexists _, (length h), (SetField s 12 (Some (length h))).
      split; [reflexivity |]. split; [| split; [by destruct s | split; [| split]]].
      + unfold loadState. rewrite list_lookup_insert_eq; [done |].
        rewrite length_app. simpl. lia.
      + unfold loadDeviceInfo. rewrite list_lookup_insert_ne by lia.
        rewrite lookup_app_r by lia. by rewrite Nat.sub_diag.
      + lia.
      + intros j Hj. apply Field_SetField_ne. congruence. }
  assert (da < length h1)%nat as Hdalt.
  { unfold loadDeviceInfo in Hd. destruct (h1 !! da) eqn:El; [| done].
    by eapply lookup_lt_Some. }
  unfold UpdateDeviceInfoField. rewrite Hs. cbn [mbind option_bind].
  rewrite E, Hd. cbn [mbind option_bind].
  destruct (fieldAssignment field v) as [assign|] eqn:Hfa.
  - unfold alloc.
    set (h' := <[da := CDeviceInfo (assign (Some (length h1)) d0)]> (h1 ++ [CVal v])).
    assert (Hd' : loadDeviceInfo h' da = Some (assign (Some (length h1)) d0)).
    { unfold loadDeviceInfo. subst h'. rewrite list_lookup_insert_eq; [done |].
      rewrite length_app. simpl. lia. }
    assert (Hv : loadVal h' (length h1) = Some v).
    { unfold loadVal. subst h'. rewrite list_lookup_insert_ne by lia.
      rewrite lookup_app_r by lia. by rewrite Nat.sub_diag. }
    exists h', s1, da, (assign (Some (length h1)) d0).
    split; [done |]. split.
    { unfold loadState. subst h'. rewrite list_lookup_insert_ne by done.
      rewrite lookup_app_l by (eapply lookup_lt_Some, loadState_Some, Hs1).
      exact Hs1. }
    split; [done |]. split; [done |]. split; [done |]. split.
    + intros ty proj Hin Hty.
      destruct (fieldAssignment_handled field v ty proj Hin Hty)
        as (assign' & Hfa' & Hproj & Hone & Hsound).
      rewrite Hfa in Hfa'. injection Hfa' as <-.
      rewrite Hproj. simpl. split; [done |]. split; [apply Hone | apply Hsound].
    + intros Hno. by rewrite fieldAssignment_unhandled in Hfa.
  - exists h1, s1, da, d0. split; [done |]. split; [done |]. split; [done |].
    split; [done |]. split; [done |]. split; [| done].
    intros ty proj Hin Hty. exfalso.
    destruct (fieldAssignment_handled field v ty proj Hin Hty) as (? & Hfa' & _).
    by rewrite Hfa in Hfa'.
Qed.

Lemma UpdateDeviceInfoField_switch_witness :
  ∃ h' s' da d',
    UpdateDeviceInfoField "volume" (VInt32 40)
      (app.heapFailed ++ [CState app.stateFailed]) 3 = Some (h', 3%nat) ∧
    loadState h' 3 = Some s' ∧ DeviceInfo_ s' = Some da ∧
    loadDeviceInfo h' da = Some d' ∧
    Elem h' (Volume d') = Some (VInt32 40).
Proof.
  destruct (UpdateDeviceInfoField_switch (app.heapFailed ++ [CState app.stateFailed]) 3
              app.stateFailed emptyDeviceInfo "volume" (VInt32 40) eq_refl eq_refl)
    as (h' & s' & da & d' & H1 & H2 & H3 & H4 & _ & H6 & _).
  exists h', s', da, d'. split; [exact H1 |].
  split; [exact H2 |]. split; [exact H3 |]. split; [exact H4 |].
  refine (proj1 (H6 isInt32 Volume _ eq_refl)).
  unfold handledFields. in_table.
Defined.

(** *** AsMap *)

Lemma asMap_loop_entries inc h s (ent : nat → option (string * mapValue)) idxs m :
  (∀ i, i ∈ idxs → asMapEntry inc h s i = Some (ent i)) →
  asMap_loop inc h s idxs m = Some (foldl upd m (map ent idxs)).
Proof.
  revert m. induction idxs as [|i idxs IH]; intros m Hent; [done |].
  simpl. rewrite (Hent i) by (apply elem_of_cons; by left). simpl.
  rewrite IH; [by destruct (ent i) as [[k v]|] |].
  intros j Hj. apply Hent, elem_of_cons. by right.
Qed.

Lemma foldl_upd_other k es m :
  (∀ v, Some (k, v) ∉ es) → foldl upd m es !! k = m !! k.
Proof.
  revert m. induction es as [|e es IH]; intros m Hno; [done |].
  simpl. rewrite IH.
  - destruct e as [[k' v']|]; [| done]. simpl.
    apply lookup_insert_ne. intros ->. apply (Hno v'), elem_of_cons. by left.
  - intros v Hv. apply (Hno v), elem_of_cons. by right.
Qed.

Lemma foldl_upd_last k v es1 es2 m :
  (∀ v', Some (k, v') ∉ es2) →
  foldl upd m (es1 ++ Some (k, v) :: es2) !! k = Some v.
Proof.
  intros Hno. rewrite foldl_app. simpl. rewrite foldl_upd_other by done.
  apply lookup_insert_eq.
Qed.

Lemma foldl_upd_dom k es m :
  is_Some (foldl upd m es !! k) ↔ is_Some (m !! k) ∨ ∃ v, Some (k, v) ∈ es.
Proof.
  revert m. induction es as [|e es IH]; intros m; simpl.
  - split; [by left |]. intros [H|[v H]]; [done | by apply elem_of_nil in H].
  - rewrite IH. split.
    + intros [H|[v H]].
      * destruct e as [[k' v']|]; simpl in H; [| by left].
        destruct (decide (k' = k)) as [->|Hne].
        -- right. exists v'. apply elem_of_cons. by left.
        -- rewrite lookup_insert_ne in H by done. by left.
      * right. exists v. apply elem_of_cons. by right.
    + intros [H|[v H]].
      * left. destruct e as [[k' v']|]; simpl; [| done].
        destruct (decide (k' = k)) as [->|Hne].
        -- rewrite lookup_insert_eq. by eexists.
        -- by rewrite lookup_insert_ne.
      * apply elem_of_cons in H as [<-|H].
        -- left. simpl. rewrite lookup_insert_eq. by eexists.
        -- right. by exists v.
Qed.

Lemma fieldsTyped_field h s i :
  fieldsTyped h s = true → (i < 13)%nat → fieldTyped h s i = true.
Proof.
  unfold fieldsTyped. rewrite forallb_forall. intros H Hi. apply H.
  apply in_seq. unfold NumField. lia.
Qed.

Lemma asMapEntry_typed inc h s i :
  (i < 13)%nat → fieldTyped h s i = true →
  asMapEntry inc h s i = Some (entry inc h s i) ∧
  (is_Some (entry inc h s i) ↔
   Field s i ≠ None ∧ (inc = true ∨ internalTag i = false)) ∧
  (∀ k v, entry inc h s i = Some (k, v) → k = fieldKey i ∧
     ∃ a c name, Field s i = Some a ∧ h !! a = Some c ∧ fieldValue i c = Some (name, v)).
Proof.
  intros Hi Hty. unfold asMapEntry, entry, fieldTyped in *.
  destruct (inc || negb (internalTag i)) eqn:Hvis.
  2:{ split; [done |]. split.
      - split; [by intros [? ?] |]. intros [_ [->|Hint]]; [done |].
        rewrite Hint in Hvis. by destruct inc.
      - by intros. }
  assert (inc = true ∨ internalTag i = false) as Hv.
  { destruct inc; [by left |]. right. by destruct (internalTag i). }
  destruct (Field s i) as [a|] eqn:Hf.
  2:{ split; [done |]. split; [| by intros].
      split; [by intros [? ?] | by intros [? _]]. }
  destruct (h !! a) as [c|] eqn:Hc; [| done]. simpl.
  assert (∃ name v, fieldValue i c = Some (name, v) ∧ mapKey name = Some (fieldKey i))
    as (name & v & Hfv & Hkey).
  { unfold fieldValue, fieldKey in *.
    do 13 (destruct i as [|i];
      [simpl in *;
       try (destruct c as [x| |]; [| done..]; destruct (Int x); [| done]);
       by eexists _, _ |]).
    lia. }
  rewrite Hfv. simpl. rewrite Hkey. simpl.
  split; [done |]. split; [split; [done | by eexists] |].
  intros k v' [= <- <-]. split; [done |]. by exists a, c, name.
Qed.

Lemma AsMap_typed inc h s :
  fieldsTyped h s = true →
  AsMap inc h s = Some (foldl upd ∅ (map (entry inc h s) (seq 0 13))).
Proof.
  intros Hty. unfold AsMap. apply asMap_loop_entries.
  intros i Hi. apply elem_of_seq in Hi.
  apply asMapEntry_typed; [unfold NumField in Hi; lia |].
  apply fieldsTyped_field; [done | unfold NumField in Hi; lia].
Qed.

(** X4: the keys of [AsMap].  On a record as the Go types allow it,
    [AsMap] returns a map, and a key is present exactly when it is the
    key of a non-nil field that is not tagged internal, or of any non-nil
    field when internal ones are asked for.  The keys are the snake-case
    field names with the suffix [Milli] dropped; [Temperature] and
    [TemperatureMilli] share one.  Without internal fields the five keys
    of the tagged fields never appear. *)
Theorem AsMap_keys (includeInternal : bool) (h : Heap) (s : State) :
  fieldsTyped h s = true →
  ∃ m, AsMap includeInternal h s = Some m ∧
    (∀ k, is_Some (m !! k) ↔
       ∃ i, (i < 13)%nat ∧ fieldKey i = k ∧ Field s i ≠ None ∧
            (includeInternal = true ∨ internalTag i = false)) ∧
    map fieldKey (seq 0 13) =
      ["stream_state"; "stream_request_state"; "is_websocket_alive";
       "last_video_packet_time"; "motion_timestamp"; "sound_timestamp";
       "temperature"; "is_night"; "temperature"; "humidity"; "night_light";
       "standby"; "device_info"]%string ∧
    (includeInternal = false →
     ∀ k, k ∈ ["stream_state"; "stream_request_state"; "is_websocket_alive";
               "last_video_packet_time"; "device_info"]%string → m !! k = None).
Proof.
  intros Hty. eexists. split; [by apply AsMap_typed |].
  assert (Hdom : ∀ k, is_Some (foldl upd ∅ (map (entry includeInternal h s) (seq 0 13)) !! k) ↔
       ∃ i, (i < 13)%nat ∧ fieldKey i = k ∧ Field s i ≠ None ∧
            (includeInternal = true ∨ internalTag i = false)).
  { intros k. rewrite foldl_upd_dom. split.
    - intros [H|[v H]]; [by rewrite lookup_empty in H; destruct H |].
      apply list_elem_of_In, in_map_iff in H as (i & Hi & Hin).
      apply in_seq in Hin.
      assert (i < 13)%nat as Hlt by lia.
      destruct (asMapEntry_typed includeInternal h s i Hlt
                  (fieldsTyped_field h s i Hty Hlt)) as (_ & Hsome & Hkv).
      destruct (Hkv _ _ Hi) as (-> & _).
      exists i. split; [done |]. split; [done |]. apply Hsome. by eexists.
    - intros (i & Hlt & <- & Hnn & Hvis). right.
      destruct (asMapEntry_typed includeInternal h s i Hlt
                  (fieldsTyped_field h s i Hty Hlt)) as (_ & Hsome & Hkv).
      destruct (proj2 Hsome (conj Hnn Hvis)) as [[k v] He].
      destruct (Hkv _ _ He) as (-> & _).
      exists v. apply list_elem_of_In, in_map_iff. exists i. split; [done |].
      apply in_seq. lia. }
  split; [exact Hdom |]. split; [reflexivity |].
  intros -> k Hk. apply eq_None_not_Some. rewrite Hdom.
  intros (i & Hlt & Hkey & _ & [Hinc|Hint]); [done |].
  do 13 (destruct i as [|i]; [try discriminate Hint;
    vm_compute in Hkey; subst k;
    repeat (apply elem_of_cons in Hk as [Hk|Hk]; [discriminate Hk |]);
    by apply elem_of_nil in Hk |]).
  lia.
Qed.

Lemma AsMap_keys_witness :
  ∃ m, AsMap false heapTemperature stateTemperature = Some m ∧
       is_Some (m !! "temperature"%string) ∧ m !! "device_info"%string = None.
Proof.
  destruct (AsMap_keys false heapTemperature stateTemperature eq_refl)
    as (m & Hm & Hdom & _ & Hint).
  exists m. split; [exact Hm |]. split.
  - apply Hdom. exists 8%nat. split; [lia |]. split; [reflexivity |].
    split; [discriminate | by right].
  - apply Hint; [reflexivity |]. in_table.
Defined.

(** Two fields have the same key only if they are the same field, or
    [Temperature] and [TemperatureMilli]. *)
Lemma fieldKey_collision i j :
  (i < 13)%nat → (j < 13)%nat → fieldKey i = fieldKey j →
  i = j ∨ (i = 6%nat ∧ j = 8%nat) ∨ (i = 8%nat ∧ j = 6%nat).
Proof.
  intros Hi Hj.
  assert (forallb (λ i, forallb (λ j,
            implb (String.eqb (fieldKey i) (fieldKey j))
                  (Nat.eqb i j || (Nat.eqb i 6 && Nat.eqb j 8) || (Nat.eqb i 8 && Nat.eqb j 6)))
            (seq 0 13)) (seq 0 13) = true) as Hall by (vm_compute; reflexivity).
  rewrite forallb_forall in Hall.
  specialize (Hall i ltac:(apply in_seq; lia)). rewrite forallb_forall in Hall.
  specialize (Hall j ltac:(apply in_seq; lia)).
  intros Heq. rewrite Heq, String.eqb_refl in Hall. simpl in Hall.
  apply orb_prop in Hall as [Hall|Hall].
  - apply orb_prop in Hall as [Hall|Hall].
    + left. by apply Nat.eqb_eq.
    + apply andb_prop in Hall as [H1 H2]. right; left.
      split; by apply Nat.eqb_eq.
  - apply andb_prop in Hall as [H1 H2]. right; right. split; by apply Nat.eqb_eq.
Qed.

(** X5: the values of [AsMap].  On a record as the Go types allow it,
    every visible non-nil field other than the [Temperature] flag is found
    under its key with the value computed from the cell it points to: the
    integer, the integer divided by 1000 for [TemperatureMilli] and
    [HumidityMilli], the pointed-to value otherwise.  The boolean
    [Temperature] flag is found under that key only while
    [TemperatureMilli] is nil: a temperature reading replaces it. *)
Theorem AsMap_values (includeInternal : bool) (h : Heap) (s : State) :
  fieldsTyped h s = true →
  ∃ m, AsMap includeInternal h s = Some m ∧
    (∀ i a c, (i < 13)%nat → i ≠ 6%nat →
       includeInternal = true ∨ internalTag i = false →
       Field s i = Some a → h !! a = Some c →
       ∃ name v, fieldValue i c = Some (name, v) ∧ m !! fieldKey i = Some v) ∧
    (∀ a z, TemperatureMilli s = Some a → loadVal h a = Some (VInt32 z) →
       m !! "temperature"%string = Some (MFloatMilli z)) ∧
    (∀ a z, HumidityMilli s = Some a → loadVal h a = Some (VInt32 z) →
       m !! "humidity"%string = Some (MFloatMilli z)) ∧
    (∀ a c, Temperature s = Some a → h !! a = Some c → TemperatureMilli s = None →
       m !! "temperature"%string = Some (MIface c)).
Proof.
  intros Hty. eexists. split; [by apply AsMap_typed |].
  set (m := foldl upd ∅ (map (entry includeInternal h s) (seq 0 13))).
  (* the entry of a field that no later field overwrites *)
  assert (Hlast : ∀ i a c, (i < 13)%nat →
            includeInternal = true ∨ internalTag i = false →
            Field s i = Some a → h !! a = Some c →
            (∀ j, (i < j < 13)%nat → fieldKey j = fieldKey i → Field s j = None) →
            ∃ name v, fieldValue i c = Some (name, v) ∧ m !! fieldKey i = Some v).
  { intros i a c Hlt Hvis Hf Hc Hlater.
    destruct (asMapEntry_typed includeInternal h s i Hlt
                (fieldsTyped_field h s i Hty Hlt)) as (_ & Hsome & Hkv).
    assert (Field s i ≠ None) as Hnn by (by rewrite Hf).
    destruct (proj2 Hsome (conj Hnn Hvis)) as [[k v] He].
    destruct (Hkv _ _ He) as (-> & a' & c' & name & Hf' & Hc' & Hfv).
    assert (a' = a) as -> by congruence. assert (c' = c) as -> by congruence.
    exists name, v. split; [done |]. subst m.
    replace (seq 0 13) with (seq 0 i ++ i :: seq (S i) (12 - i)).
    2:{ clear -Hlt. do 13 (destruct i as [|i]; [reflexivity |]). lia. }
    rewrite map_app. simpl. rewrite He. apply foldl_upd_last.
    intros v' Hin. apply list_elem_of_In, in_map_iff in Hin as (j & Hj & Hin).
      apply in_seq in Hin.
    assert (j < 13)%nat as Hjlt by lia.
    destruct (asMapEntry_typed includeInternal h s j Hjlt
                (fieldsTyped_field h s j Hty Hjlt)) as (_ & Hsomej & Hkvj).
    destruct (Hkvj _ _ Hj) as (Hk & _).
    assert (Field s j = None) as Hnil by (apply Hlater; [lia | done]).
    assert (is_Some (entry includeInternal h s j)) as Hsj by (by eexists).
    destruct (proj1 Hsomej Hsj) as [Hnnj _]. done. }
  split; [| split; [| split]].
  - intros i a c Hlt Hne Hvis Hf Hc. apply (Hlast i a c); try done.
    intros j Hj Hkey. exfalso.
    destruct (fieldKey_collision j i ltac:(lia) Hlt Hkey) as [E|[[E1 E2]|[E1 E2]]]; lia.
  - intros a z Ha Hv. unfold loadVal in Hv.
    destruct (h !! a) as [[v| |]|] eqn:Hc; try done. injection Hv as ->.
    destruct (Hlast 8%nat a (CVal (VInt32 z)) ltac:(lia) ltac:(by right) Ha Hc)
      as (name & v & Hfv & Hm).
    { intros j Hj Hkey. exfalso.
      destruct (fieldKey_collision j 8 ltac:(lia) ltac:(lia) Hkey) as [E|[[E1 E2]|[E1 E2]]]; lia. }
    vm_compute in Hfv. injection Hfv as <- <-. exact Hm.
  - intros a z Ha Hv. unfold loadVal in Hv.
    destruct (h !! a) as [[v| |]|] eqn:Hc; try done. injection Hv as ->.
    destruct (Hlast 9%nat a (CVal (VInt32 z)) ltac:(lia) ltac:(by right) Ha Hc)
      as (name & v & Hfv & Hm).
    { intros j Hj Hkey. exfalso.
      destruct (fieldKey_collision j 9 ltac:(lia) ltac:(lia) Hkey) as [E|[[E1 E2]|[E1 E2]]]; lia. }
    vm_compute in Hfv. injection Hfv as <- <-. exact Hm.
  - intros a c Ha Hc Hnil.
    destruct (Hlast 6%nat a c ltac:(lia) ltac:(by right) Ha Hc) as (name & v & Hfv & Hm).
    { intros j Hj Hkey.
      destruct (fieldKey_collision j 6 ltac:(lia) ltac:(lia) Hkey) as [E|[[E1 E2]|[E1 E2]]];
        [lia | lia | by rewrite E1]. }
    vm_compute in Hfv. injection Hfv as <- <-. exact Hm.
Qed.

Lemma AsMap_values_witness :
  ∃ m, AsMap false heapTemperature stateTemperature = Some m ∧
       m !! "temperature"%string = Some (MFloatMilli 21500).
Proof.
  destruct (AsMap_values false heapTemperature stateTemperature eq_refl)
    as (m & Hm & _ & Ht & _).
  exists m. split; [exact Hm |]. exact (Ht 1%nat 21500 eq_refl eq_refl).
Defined.

End AccessorProofs.

(** ** package streaming: error classes and the HLS manager *)

Module HlsProofs.
Import streaming hls.

Lemma prefix_occurs p s :
  String.prefix p s = true ↔ ∃ post, s = (p +:+ post)%string.
Proof.
  revert s. induction p as [|c p IH]; intros s.
  - split; [intros _; by exists s | by destruct s].
  - destruct s as [|c' s]; [split; [done | by intros [post Hp]] |].
    cbn [String.prefix]. destruct (Ascii.ascii_dec c c') as [->|Hne].
    + rewrite IH. split; intros [post Hp]; exists post; [by rewrite Hp | by injection Hp].
    + split; [done |]. intros [post Hp]. injection Hp as Hc _. by destruct Hne.
Qed.

(** [Contains] is the substring test. *)
Lemma Contains_occurs s sub : Contains s sub = true ↔ occurs sub s.
Proof.
  unfold occurs. split.
  - induction s as [|c s IH]; cbn [Contains].
    + destruct (String.prefix sub "") eqn:Hp; [| done]. intros _.
      apply prefix_occurs in Hp as [post Hp]. by exists ""%string, post.
    + destruct (String.prefix sub (String c s)) eqn:Hp.
      * intros _. apply prefix_occurs in Hp as [post Hp]. by exists ""%string, post.
      * intros H. destruct (IH H) as (pre & post & ->). by exists (String c pre), post.
  - intros (pre & post & ->). induction pre as [|c pre IH].
    + assert (String.prefix sub (sub +:+ post) = true) as Hp
        by (apply prefix_occurs; by exists post).
      change ("" +:+ sub +:+ post)%string with (sub +:+ post)%string.
      destruct (sub +:+ post)%string; cbn [Contains]; by rewrite Hp.
    + change (String c pre +:+ sub +:+ post)%string
        with (String c (pre +:+ sub +:+ post)).
      cbn [Contains]. destruct (String.prefix sub _); [done | exact IH].
Qed.

Lemma Contains_false s sub : Contains s sub = false → ¬ occurs sub s.
Proof. intros H Ho. apply Contains_occurs in Ho. congruence. Qed.

Ltac in_list := repeat (apply elem_of_cons; first [left; reflexivity | right]).

Ltac hit Hhit E :=
  split; [discriminate |]; intros Hall; exfalso;
  eapply Hhit; [| exact E | exact Hall]; unfold errorPatterns; in_list.

(** X6: the error classes of [classifyAndSetError].  Whatever the error
    text, the transcoder ends in status error with the text as code, and
    the class is one of connection, timeout, network and unknown; it is
    unknown exactly when none of the nine texts occurs; a refused
    connection is always a connection error, whatever else the text says;
    a network error is recorded only ten seconds or more after the start.
    [shouldRetry] then holds exactly when retries are left and the class
    is not unknown.  Nothing else of the transcoder changes. *)
Theorem classifyAndSetError_classes (now : Z) (errStr : string) (t : HLSTranscoder) :
  let t' := classifyAndSetError now errStr t in
  ∃ ty msg,
    lastError t' = Some (mkStreamError ty msg errStr) ∧ status t' = StatusError ∧
    ty ∈ [ErrorTypeRTMPConnection; ErrorTypeRTMPTimeout; ErrorTypeNetworkError;
          ErrorTypeUnknown] ∧
    (ty = ErrorTypeUnknown ↔ ∀ p, p ∈ errorPatterns → ¬ occurs p errStr) ∧
    (occurs "Connection refused" errStr → ty = ErrorTypeRTMPConnection) ∧
    (ty = ErrorTypeNetworkError → 10 * Second ≤ now - startTime t) ∧
    (shouldRetry t' = true ↔ retryCount t < maxRetries t ∧ ty ≠ ErrorTypeUnknown) ∧
    isRunning t' = isRunning t ∧ retryCount t' = retryCount t ∧
    maxRetries t' = maxRetries t ∧ retryDelay t' = retryDelay t ∧
    startTime t' = startTime t.
Proof.
  intros t'. subst t'. unfold classifyAndSetError.
  assert (Hretry : ∀ ty msg, ty ∈ [ErrorTypeRTMPConnection; ErrorTypeRTMPTimeout;
                                    ErrorTypeNetworkError] →
            shouldRetry (setError ty msg errStr t) = true ↔
            retryCount t < maxRetries t ∧ ty ≠ ErrorTypeUnknown).
  { intros ty msg Hty. unfold shouldRetry. simpl.
    assert (ty ≠ ErrorTypeUnknown) as Hne.
    { repeat (apply elem_of_cons in Hty as [->|Hty]; [done |]).
      by apply elem_of_nil in Hty. }
    destruct (decide (retryCount t >= maxRetries t)); [split; [done | lia] |].
    repeat (apply elem_of_cons in Hty as [->|Hty]; [split; [split; [lia | done] | done] |]).
    by apply elem_of_nil in Hty. }
  assert (Hhit : ∀ p, p ∈ errorPatterns → Contains errStr p = true →
            ¬ (∀ q, q ∈ errorPatterns → ¬ occurs q errStr)).
  { intros p Hp Hc Hall. apply (Hall p Hp). by apply Contains_occurs. }
  destruct (Contains errStr "Connection refused") eqn:E1;
    [| destruct (Contains errStr "Connection reset") eqn:E2;
       [| destruct (Contains errStr "No route to host") eqn:E3;
          [| destruct (Contains errStr "Connection timed out") eqn:E4;
             [| destruct (Contains errStr "timeout") eqn:E5;
                [| destruct (Contains errStr "Server error") eqn:E6;
                   [| destruct (Contains errStr "403") eqn:E7;
                      [| destruct (Contains errStr "404") eqn:E8;
                         [| destruct (Contains errStr "exit status") eqn:E9;
                            [destruct (decide (now - startTime t < 10 * Second)) |]]]]]]]]];
    simpl; eexists _, _; (split; [reflexivity |]); (split; [reflexivity |]);
    (split; [in_list |]).
  all: try (split; [first [hit Hhit E1 | hit Hhit E2 | hit Hhit E3 | hit Hhit E4
      | hit Hhit E5 | hit Hhit E6 | hit Hhit E7 | hit Hhit E8 | hit Hhit E9] |];
    split; [first [done | intros Ho; by apply Contains_occurs in Ho; congruence] |];
    split; [first [discriminate | intros _; lia] |];
    split; [apply Hretry; in_list | done]).
  (* no text occurs *)
  split.
  { split; [| done]. intros _ p Hp. unfold errorPatterns in Hp.
    repeat (apply elem_of_cons in Hp as [->|Hp]; [by apply Contains_false |]).
    by apply elem_of_nil in Hp. }
  split; [intros Ho; apply Contains_occurs in Ho; congruence |].
  split; [discriminate |].
  split; [| done]. unfold shouldRetry. simpl.
  destruct (decide (retryCount t >= maxRetries t)); split; try done; by intros [_ ?].
Qed.

(** *** The transcoders of a manager *)

Lemma transcoderInv_new : transcoderInv newTranscoder.
Proof. unfold transcoderInv. simpl. repeat split; try done; lia. Qed.

Lemma Start_new now mkdirOk startOk :
  Start now mkdirOk startOk (sup newTranscoder) =
  if mkdirOk && startOk
  then (mkSup (mkHLS true StatusConnecting None now 0 5 (10 * Second)) [] 1, None)
  else ((Start now mkdirOk startOk (sup newTranscoder)).1,
        Some (if mkdirOk then "failed to start FFmpeg" else "failed to create HLS directory")%string).
Proof. destruct mkdirOk, startOk; reflexivity. Qed.

Lemma transcoderInv_Stop t :
  transcoderInv t →
  ∃ t', Stop t = Some t' ∧ transcoderInv t' ∧ IsRunning t' = false ∧
        status (h (sup t')) = status (h (sup t)) ∧
        lastError (h (sup t')) = lastError (h (sup t)).
Proof.
  intros (Hc & Hm & Hr & Hd & He & Hs). unfold Stop, IsRunning.
  destruct (isRunning (h (sup t))) eqn:Hrun; simpl.
  - destruct (stopChanClosed t) eqn:Hcl; [by specialize (Hc eq_refl) |].
    eexists. split; [reflexivity |]. unfold transcoderInv. simpl.
    repeat split; try done; lia.
  - exists t. unfold transcoderInv. rewrite Hrun. repeat split; try done; lia.
Qed.









Lemma managerInv_new : managerInv NewHLSManager.
Proof. split; [done |]. intros uid t Ht. simpl in Ht. by rewrite lookup_empty in Ht. Qed.


(** What [StartTranscoding] does to a manager whose transcoders are as
    the manager leaves them. *)
Lemma StartTranscoding_run now mkdirOk startOk babyUID m :
  managerInv m →
  ∃ ts,
    (match transcoders m !! babyUID with
     | Some old => ∃ t', Stop old = Some t' ∧ transcoderInv t' ∧ IsRunning t' = false ∧
                         status (h (sup t')) = status (h (sup old)) ∧
                         lastError (h (sup t')) = lastError (h (sup old)) ∧
                         ts = <[babyUID := t']> (transcoders m)
     | None => ts = transcoders m
     end) ∧
    StartTranscoding now mkdirOk startOk babyUID m =
    Some (if mkdirOk && startOk
          then (mkManager (<[babyUID := mkTranscoder
                               (mkSup (mkHLS true StatusConnecting None now 0 5 (10 * Second))
                                      [] 1) false]> ts)
                          (cleanupTicker m) (stopCleanupClosed m), None)
          else (mkManager ts (cleanupTicker m) (stopCleanupClosed m),
                Some (if mkdirOk then "failed to start FFmpeg"
                      else "failed to create HLS directory")%string)).
Proof.
  intros [Htick Hall]. unfold StartTranscoding.
  destruct (transcoders m !! babyUID) as [old|] eqn:Hold.
  - destruct (transcoderInv_Stop old (Hall _ _ Hold)) as (t' & HS & Hinv & Hrun & Hst & Hle).
    exists (<[babyUID := t']> (transcoders m)). split; [by exists t' |].
    rewrite HS. cbn [mbind option_bind]. rewrite Start_new.
    by destruct (mkdirOk && startOk).
  - exists (transcoders m). split; [done |].
    cbn [mbind option_bind]. rewrite Start_new. by destruct (mkdirOk && startOk).
Qed.



Lemma StopAll_stops m :
  managerInv m →
  is_Some (mapM (λ e : string * transcoder, Stop e.2) (map_to_list (transcoders m))).
Proof.
  intros [_ Hall]. apply mapM_is_Some, Forall_forall. intros [uid t] Hin.
  apply elem_of_map_to_list in Hin. simpl.
  destruct (transcoderInv_Stop t (Hall _ _ Hin)) as (t' & -> & _). by eexists.
Qed.



(** X8: what [StartTranscoding] leaves behind.  A transcoder the manager
    held for the baby is stopped first.  The call succeeds exactly when
    the directory and the process could be created; the baby then has a
    new running transcoder in status connecting, with no error, no
    retries counted and an open stop channel.  When it fails the map
    keeps the old transcoder, stopped, or no transcoder if there was none.
    The transcoders of other babies are not touched. *)
Theorem StartTranscoding_replaces (now : Z) (mkdirOk startOk : bool) (babyUID : string)
    (m : HLSManager) :
  managerInv m →
  ∃ m' err,
    StartTranscoding now mkdirOk startOk babyUID m = Some (m', err) ∧
    (err = None ↔ mkdirOk = true ∧ startOk = true) ∧
    (∀ uid, uid ≠ babyUID → GetTranscoder uid m' = GetTranscoder uid m) ∧
    (err = None →
     ∃ t, GetTranscoder babyUID m' = Some t ∧ IsRunning t = true ∧
          GetStatus (sup t) = (StatusConnecting, None) ∧
          retryCount (h (sup t)) = 0 ∧ startTime (h (sup t)) = now ∧
          stopChanClosed t = false) ∧
    (err ≠ None →
     match GetTranscoder babyUID m with
     | None => GetTranscoder babyUID m' = None
     | Some old =>
       ∃ t, GetTranscoder babyUID m' = Some t ∧ IsRunning t = false ∧
            GetStatus (sup t) = GetStatus (sup old)
     end).
Proof.
  intros Hinv.
  destruct (StartTranscoding_run now mkdirOk startOk babyUID m Hinv) as (ts & Hts & ->).
  assert (Hframe : ∀ uid, uid ≠ babyUID → ts !! uid = transcoders m !! uid).
  { intros uid Hne. destruct (transcoders m !! babyUID) as [old|].
    - destruct Hts as (t' & _ & _ & _ & _ & _ & ->). by rewrite lookup_insert_ne.
    - by subst ts. }
  unfold GetTranscoder.
  destruct (mkdirOk && startOk) eqn:Hok; eexists _, _; (split; [reflexivity |]); simpl.
  - apply andb_prop in Hok as [-> ->]. split; [done |]. split.
    { intros uid Hne. rewrite lookup_insert_ne by done. by apply Hframe. }
    split; [| done]. intros _. eexists. rewrite lookup_insert_eq. by repeat split.
  - split; [split; [done | by intros [-> ->]] |]. split; [exact Hframe |].
    split; [done |]. intros _.
    destruct (transcoders m !! babyUID) as [old|] eqn:Hold.
    + destruct Hts as (t' & _ & _ & Hrun & Hst & Hle & ->).
      exists t'. rewrite lookup_insert_eq. split; [done |]. split; [done |].
      unfold GetStatus. by rewrite Hst, Hle.
    + by subst ts.
Qed.

Lemma StartTranscoding_replaces_witness :
  ∃ m' t,
    StartTranscoding 7 true true "abc" NewHLSManager = Some (m', None) ∧
    GetTranscoder "abc" m' = Some t ∧ IsRunning t = true.
Proof.
  destruct (StartTranscoding_replaces 7 true true "abc" NewHLSManager managerInv_new)
    as (m' & err & HS & Herr & _ & Hnew & _).
  assert (err = None) as -> by (by apply Herr).
  destruct (Hnew eq_refl) as (t & Ht & Hrun & _).
  by exists m', t.
Defined.



(** X10: [StopAll] works once.  On a manager whose cleanup channel is
    still open it stops every transcoder and empties the map; a second
    [StopAll] then closes the closed channel and panics, as does every
    [StopAll] after one that returned. *)
Theorem StopAll_once (m : HLSManager) :
  managerInv m →
  (stopCleanupClosed m = false →
   ∃ m', StopAll m = Some m' ∧ transcoders m' = ∅ ∧ StopAll m' = None) ∧
  (stopCleanupClosed m = true → StopAll m = None).
Proof.
  intros Hinv. pose proof (StopAll_stops m Hinv) as [l Hl].
  destruct Hinv as [Htick _]. unfold StopAll at 1 3. rewrite Htick.
  split; intros ->; [| done]. cbn [mbind option_bind]. rewrite Hl.
  eexists. split; [reflexivity |]. split; [done |]. reflexivity.
Qed.

Lemma StopAll_once_witness :
  ∃ m', StopAll NewHLSManager = Some m' ∧ transcoders m' = ∅ ∧ StopAll m' = None.
Proof. exact (proj1 (StopAll_once NewHLSManager managerInv_new) eq_refl). Defined.

End HlsProofs.

(** ** package rtmpserver: stream paths and publishers *)

Module RtmpPathProofs.
Import baby statestore rtmpserver.

Lemma substring_all s : substring 0 (String.length s) s = s.
Proof. induction s as [|c s IH]; simpl; [done | by rewrite IH]. Qed.

Lemma rtmpURLRX_submatch_iff path babyUID :
  rtmpURLRX_submatch path = Some babyUID ↔
  path = ("/local/" +:+ babyUID)%string ∧ uid.validUID_MatchString babyUID = true.
Proof.
  split.
  - unfold rtmpURLRX_submatch.
    destruct (String.prefix "/local/" path) eqn:Hp; [| done].
    apply HlsProofs.prefix_occurs in Hp as [post ->].
    change (String.length ("/local/" +:+ post)) with (7 + String.length post)%nat.
    replace (7 + String.length post - 7)%nat with (String.length post) by lia.
    change (substring 7 (String.length post) ("/local/" +:+ post))
      with (substring 0 (String.length post) post).
    rewrite substring_all.
    destruct (uid.validUID_MatchString post) eqn:Hv; [| done].
    by intros [= <-].
  - intros [-> Hv]. by apply RtmpProofs.rtmpURLRX_submatch_local.
Qed.

Lemma EnsureValidBabyUID_None babyUID :
  uid.EnsureValidBabyUID babyUID = None ↔ uid.validUID_MatchString babyUID = true.
Proof. unfold uid.EnsureValidBabyUID. by destruct (uid.validUID_MatchString babyUID). Qed.

(** X11: the stream paths the RTMP handler accepts.  A path yields a baby
    UID exactly when it is [/local/] followed by that UID and the UID
    passes [EnsureValidBabyUID]; for every other path [handleConnection]
    closes the connection and leaves the handler as it was. *)
Theorem rtmpURLRX_accepts (path : string) :
  (∀ babyUID, rtmpURLRX_submatch path = Some babyUID ↔
     path = ("/local/" +:+ babyUID)%string ∧ uid.EnsureValidBabyUID babyUID = None) ∧
  (rtmpURLRX_submatch path = None →
   ∀ publishing s, handleConnection path publishing s = Some (s, ConnClosed)).
Proof.
  split.
  - intros babyUID. rewrite EnsureValidBabyUID_None. apply rtmpURLRX_submatch_iff.
  - intros Hn publishing s. unfold handleConnection. by rewrite Hn.
Qed.

(** X12: a second publisher for the same baby takes over.  It gets a
    broadcaster of its own, which the handler then lists for the baby;
    when the first publisher's connection ends, [closePublisher] leaves
    that entry alone, and it removes the entry only when called for the
    publisher that is listed.  Other babies are not affected, and a
    subscriber that connects afterwards is given an open queue of the new
    publisher. *)
Theorem publisher_takes_over (babyUID : string) (s : rtmpHandler) :
  ∃ s1 b1 s2 b2,
    getNewPublisher babyUID s = (s1, b1) ∧ getNewPublisher babyUID s1 = (s2, b2) ∧
    b2 ≠ b1 ∧ broadcastersByUID s2 !! babyUID = Some b2 ∧
    (∀ u, u ≠ babyUID → broadcastersByUID s2 !! u = broadcastersByUID s !! u) ∧
    broadcastersByUID (closePublisher babyUID b1 s2) !! babyUID = Some b2 ∧
    broadcastersByUID (closePublisher babyUID b2 s2) !! babyUID = None ∧
    (∀ b u, u ≠ babyUID →
       broadcastersByUID (closePublisher babyUID b s2) !! u = broadcastersByUID s !! u) ∧
    ∃ s3 sub, getNewSubscriber babyUID s2 = (s3, Some sub, Some (b2, sub)) ∧
              subs s3 !! sub = Some (mkSubscriber [] false) ∧
              (subscribers <$> broadcasters s3 !! b2) = Some [sub].
Proof.
  (* closing subscribers touches neither the map nor the broadcasters *)
  assert (Hcs : ∀ b t, broadcastersByUID (closeSubscribers b t) = broadcastersByUID t ∧
                       broadcasters (closeSubscribers b t) = broadcasters t).
  { intros b t. unfold closeSubscribers. by destruct (broadcasters t !! b). }
  assert (Hgp : ∀ t, ∃ t',
            getNewPublisher babyUID t = (t', length (broadcasters t)) ∧
            broadcastersByUID t' = <[babyUID := length (broadcasters t)]> (broadcastersByUID t) ∧
            broadcasters t' = broadcasters t ++ [mkBroadcaster []]).
  { intros t. unfold getNewPublisher, newBroadcaster. simpl.
    destruct (broadcastersByUID t !! babyUID) as [old|]; eexists; (split; [reflexivity |]).
    - destruct (Hcs old (mkHandler (<[babyUID := length (broadcasters t)]> (broadcastersByUID t))
                           (broadcasters t ++ [mkBroadcaster []]) (subs t) (heap t)
                           (babyStateManager t))) as [-> ->]. done.
    - done. }
  destruct (Hgp s) as (s1 & H1 & Hm1 & Hb1).
  destruct (Hgp s1) as (s2 & H2 & Hm2 & Hb2).
  set (b1 := length (broadcasters s)) in *.
  set (b2 := length (broadcasters s1)) in *.
  assert (b2 = S b1) as Hb21.
  { subst b1 b2. rewrite Hb1, length_app. simpl. lia. }
  assert (Hcur : broadcastersByUID s2 !! babyUID = Some b2).
  { rewrite Hm2. apply lookup_insert_eq. }
  assert (Hcp : ∀ b, broadcastersByUID (closePublisher babyUID b s2) =
                     if decide (b2 = b) then delete babyUID (broadcastersByUID s2)
                     else broadcastersByUID s2).
  { intros b. unfold closePublisher. rewrite Hcur.
    destruct (decide (b2 = b)); by rewrite (proj1 (Hcs _ _)). }
  exists s1, b1, s2, b2. split; [done |]. split; [done |].
  split; [lia |]. split; [done |]. split.
  { intros u Hu. rewrite Hm2, Hm1. by rewrite !lookup_insert_ne. }
  split.
  { rewrite Hcp. rewrite decide_False by lia. done. }
  split.
  { rewrite Hcp. rewrite decide_True by done. apply lookup_delete_eq. }
  split.
  { intros b u Hu. rewrite Hcp. destruct (decide (b2 = b)).
    - rewrite lookup_delete_ne by done. rewrite Hm2, Hm1. by rewrite !lookup_insert_ne.
    - rewrite Hm2, Hm1. by rewrite !lookup_insert_ne. }
  unfold getNewSubscriber, newSubscriber. rewrite Hcur.
  assert (broadcasters s2 !! b2 = Some (mkBroadcaster [])) as Hl.
  { rewrite Hb2. subst b2. rewrite lookup_app_r by lia. by rewrite Nat.sub_diag. }
  rewrite Hl. eexists _, _. split; [reflexivity |]. simpl. split.
  - rewrite lookup_app_r by lia. by rewrite Nat.sub_diag.
  - rewrite list_lookup_insert_eq; [done |]. by eapply lookup_lt_Some.
Qed.

End RtmpPathProofs.

(** ** pkg/app/app.go: the local stream URL *)

Module LocalStreamProofs.
Import app localstream rtmpserver.

Lemma append_empty_r s : (s +:+ "")%string = s.
Proof.
  induction s as [|c s IH]; [done |].
  change (String c s +:+ "")%string with (String c (s +:+ "")). by rewrite IH.
Qed.

(** X13: the local stream URL.  With RTMP options the URL is [rtmp://],
    the public address, [/local/] and the baby UID, whatever the address
    and the UID contain: text that was put in is not scanned for
    placeholders again.  Without RTMP options it is empty, and only then.
    Its path part is accepted by the RTMP handler, which reads the same
    UID back from it, exactly for the UIDs that pass
    [EnsureValidBabyUID]. *)
Theorem getLocalStreamURL_path (opts : Opts) (babyUID : string) :
  getLocalStreamURL opts babyUID =
    match RTMP opts with
    | Some rtmp => ("rtmp://" +:+ PublicAddr rtmp +:+ "/local/" +:+ babyUID)%string
    | None => ""%string
    end ∧
  (getLocalStreamURL opts babyUID = ""%string ↔ RTMP opts = None) ∧
  (rtmpURLRX_submatch ("/local/" +:+ babyUID) = Some babyUID ↔
   uid.EnsureValidBabyUID babyUID = None).
Proof.
  assert (Hurl : ∀ rtmp, RTMP opts = Some rtmp →
            getLocalStreamURL opts babyUID =
            ("rtmp://" +:+ PublicAddr rtmp +:+ "/local/" +:+ babyUID)%string).
  { intros rtmp Hr. unfold getLocalStreamURL, Replace. rewrite Hr. cbn.
    by rewrite append_empty_r. }
  split; [| split].
  - destruct (RTMP opts) as [rtmp|] eqn:Hr; [by apply Hurl |].
    unfold getLocalStreamURL. by rewrite Hr.
  - destruct (RTMP opts) as [rtmp|] eqn:Hr.
    + rewrite (Hurl rtmp eq_refl). split; [| done]. by cbn.
    + unfold getLocalStreamURL. by rewrite Hr.
  - rewrite RtmpPathProofs.rtmpURLRX_submatch_iff, RtmpPathProofs.EnsureValidBabyUID_None.
    split; [by intros [_ ?] | done].
Qed.

End LocalStreamProofs.

(** ** pkg/client/websocket_conn.go: request ids *)

Module RequestIdProofs.
Import client requestids.

Lemma wrap32_small z : -2^31 ≤ z < 2^31 → wrap32 z = z.
Proof. intros Hz. unfold wrap32. rewrite Z.mod_small by lia. lia. Qed.

Lemma sentN_ids n conn :
  sentN n conn → Z.of_nat n ≤ MaxInt32 →
  lastRequestID conn = Z.of_nat n ∧
  ∀ id e, resHandlers conn !! id = Some e → 1 ≤ id ≤ Z.of_nat n.
Proof.
  unfold MaxInt32.
  induction 1 as [| n sendOk reqType conn Hs IH | n r conn conn' Hs IH Hr
                  | n showInt ev ch conn conn' res Hs IH Ha]; intros Hn.
  - split; [done |]. intros id e He. simpl in He. by rewrite lookup_empty in He.
  - destruct IH as [Hlast Hids]; [lia |]. simpl. rewrite Hlast.
    rewrite wrap32_small by lia. split; [lia |].
    intros id e He. destruct (decide (id = Z.of_nat n + 1)) as [->|Hne]; [lia |].
    rewrite lookup_insert_ne in He by done. specialize (Hids _ _ He). lia.
  - destruct (IH Hn) as [Hlast Hids]. unfold handleResponse in Hr.
    destruct (RequestId r) as [rid|]; [| done].
    destruct (RequestType_ r) as [rty|]; [| done]. simpl in Hr.
    destruct (resHandlers conn !! rid) as [e0|] eqn:He0; [| by injection Hr as <-].
    case_decide; [| by injection Hr as <-]. injection Hr as <-. simpl.
    split; [done |]. intros id e He. apply lookup_delete_Some in He as [_ He].
    by eapply Hids.
  - destruct (IH Hn) as [Hlast Hids]. unfold awaiter in Ha.
    destruct (chans conn !! ch) as [c|]; [| done]. simpl in Ha.
    destruct (closed c); [done |].
    destruct ev; [by injection Ha as <- <- |].
    destruct (buf c); [done |]. by injection Ha as <- <-.
Qed.

(** X14: request ids are fresh.  After [n] calls of [SendRequest] on a new
    connection, with [n] at most the largest [int32], the counter is [n]
    and every pending request has an id between 1 and [n].  The next
    request therefore gets the id [n + 1], which no pending request has,
    and every pending request stays registered with its channel; only the
    request after the largest [int32] gets the smallest one. *)
Theorem request_ids_fresh (n : nat) (conn : WebsocketConnection) (sendOk : bool)
    (reqType : RequestType) :
  sentN n conn → Z.of_nat n ≤ MaxInt32 →
  ∃ conn' id aw,
    SendRequest sendOk reqType conn = (conn', id, aw) ∧
    lastRequestID conn = Z.of_nat n ∧
    (∀ id' e, resHandlers conn !! id' = Some e → 1 ≤ id' ≤ Z.of_nat n) ∧
    id = (if decide (Z.of_nat n < MaxInt32) then Z.of_nat n + 1 else - 2^31) ∧
    resHandlers conn !! id = None ∧
    is_Some (resHandlers conn' !! id) ∧
    (∀ id' e, resHandlers conn !! id' = Some e → resHandlers conn' !! id' = Some e).
Proof.
  intros Hs Hn. destruct (sentN_ids n conn Hs Hn) as [Hlast Hids].
  unfold MaxInt32 in *. eexists _, _, _. split; [reflexivity |].
  split; [done |]. split; [done |]. rewrite Hlast.
  assert (wrap32 (Z.of_nat n + 1) =
          if decide (Z.of_nat n < 2^31 - 1) then Z.of_nat n + 1 else - 2^31) as Hid.
  { case_decide; [apply wrap32_small; lia |].
    assert (Z.of_nat n = 2^31 - 1) as -> by lia. reflexivity. }
  assert (resHandlers conn !! wrap32 (Z.of_nat n + 1) = None) as Hfresh.
  { rewrite Hid. apply eq_None_not_Some. intros [e He].
    specialize (Hids _ _ He). case_decide; lia. }
  split; [done |]. split; [done |]. split.
  - simpl. rewrite lookup_insert_eq. by eexists.
  - intros id' e He. simpl. rewrite lookup_insert_ne; [done |].
    intros <-. by rewrite Hfresh in He.
Qed.

Lemma request_ids_fresh_witness :
  ∃ conn' aw, SendRequest true 5 connOnePending = (conn', 2, aw) ∧
              is_Some (resHandlers conn' !! 1) ∧ is_Some (resHandlers conn' !! 2).
Proof.
  destruct (request_ids_fresh 1 connOnePending true 5) as
    (conn' & id & aw & HS & _ & _ & Hid & _ & Hnew & Hold).
  - exact (sent_send 0 true 5 NewWebsocketConnection sent_new).
  - unfold MaxInt32. lia.
  - rewrite decide_True in Hid by (unfold MaxInt32; lia). simpl in Hid. subst id.
    exists conn', aw. split; [exact HS |]. split; [| exact Hnew].
    eexists. apply Hold. reflexivity.
Defined.

End RequestIdProofs.

(** ** pkg/app/websocket_handlers.go: sensor data *)

Module HandlerProofs.
Import baby MergeSpec MergeProofs accessors handlers.

Lemma okVal_frame_ne (h h' : Heap) a s q :
  h !! a = Some (CState s) →
  (∀ b c, b ≠ a → h !! b = Some c → h' !! b = Some c) →
  okVal h q = true → okVal h' q = true ∧ Elem h' q = Elem h q.
Proof.
  intros Ha Hframe. destruct q as [b|]; [| done].
  intros [v Hv]%okVal_Some. assert (b ≠ a) as Hne by congruence.
  simpl. unfold loadVal. rewrite (Hframe _ _ Hne Hv), Hv.
  split; [| done]. rewrite bool_decide_eq_true. by eexists.
Qed.

Lemma okDeviceInfo_frame_ne (h h' : Heap) a s q :
  h !! a = Some (CState s) →
  (∀ b c, b ≠ a → h !! b = Some c → h' !! b = Some c) →
  okDeviceInfo h q = true → okDeviceInfo h' q = true.
Proof.
  intros Ha Hframe. destruct q as [b|]; [| done].
  intros [d Hd]%okDeviceInfo_Some. assert (b ≠ a) as Hne by congruence.
  simpl. unfold loadDeviceInfo. rewrite (Hframe _ _ Hne Hd).
  rewrite bool_decide_eq_true. by eexists.
Qed.

(** A setter on a well-formed record. *)
Lemma setField_ok (h : Heap) a s i v :
  loadState h a = Some s → okState h s = true → (i < 12)%nat →
  ∃ h' s', setField i v h a = Some (h', a) ∧ loadState h' a = Some s' ∧
    okState h' s' = true ∧
    Elem h' (Field s' i) = Some v ∧
    (∀ j, j ≠ i → (j < 12)%nat → Elem h' (Field s' j) = Elem h (Field s j)) ∧
    (∀ j, j ≠ i → Field s' j = Field s j) ∧
    (∀ b c, b ≠ a → h !! b = Some c → h' !! b = Some c).
Proof.
  intros Hs Hok Hi.
  destruct (AccessorProofs.setField_spec h a s i v Hs ltac:(lia))
    as (Hset & Hload & Hval & Hframe).
  pose proof (loadState_Some _ _ _ Hs) as Hc.
  eexists _, _. split; [exact Hset |]. split; [exact Hload |].
  assert (Hfi : Field (SetField s i (Some (length h))) i = Some (length h))
    by (apply Field_SetField_eq; lia).
  assert (Hfj : ∀ j, j ≠ i → Field (SetField s i (Some (length h))) j = Field s j)
    by (intros j Hj; by apply Field_SetField_ne).
  split; [| split; [| split; [| split; [exact Hfj | exact Hframe]]]].
  - unfold okState. apply andb_true_iff. split.
    + apply forallb_forall. intros j [_ Hj]%in_seq.
      destruct (decide (j = i)) as [->|Hne].
      * rewrite Hfi. simpl. rewrite bool_decide_eq_true. by eexists.
      * rewrite Hfj by done.
        eapply okVal_frame_ne; [exact Hc | exact Hframe |].
        apply okState_val; [done | lia].
    + change (DeviceInfo_ ?x) with (Field x 12). rewrite Hfj by lia.
      eapply okDeviceInfo_frame_ne; [exact Hc | exact Hframe |].
      by apply okState_DeviceInfo.
  - by rewrite Hfi.
  - intros j Hj Hlt. rewrite Hfj by done.
    eapply okVal_frame_ne; [exact Hc | exact Hframe |]. by apply okState_val.
Qed.

(** A guarded setter call, as in the loop of [processSensorData]. *)
Lemma guarded_set (P : Prop) `{!Decision P} (ov : option Z) (f : Z → value) i
    (h : Heap) a s :
  loadState h a = Some s → okState h s = true → (i < 12)%nat →
  (P → is_Some ov) →
  ∃ h' s',
    (if decide P then v ← ov; setField i (f v) h a else Some (h, a)) = Some (h', a) ∧
    loadState h' a = Some s' ∧ okState h' s' = true ∧
    Elem h' (Field s' i) = (if decide P then f <$> ov else Elem h (Field s i)) ∧
    (∀ j, j ≠ i → (j < 12)%nat → Elem h' (Field s' j) = Elem h (Field s j)) ∧
    (∀ j, j ≠ i → Field s' j = Field s j) ∧
    (∀ b c, b ≠ a → h !! b = Some c → h' !! b = Some c).
Proof.
  intros Hs Hok Hi Hov. destruct (decide P) as [HP|HP].
  - destruct (Hov HP) as [v ->]. simpl. by apply setField_ok.
  - exists h, s. by repeat split.
Qed.

Lemma guarded_cases (P : Prop) `{!Decision P} (ov : option Z) (f : Z → value) i
    (h : Heap) a s :
  loadState h a = Some s → (i < 13)%nat →
  let r := (if decide P then v ← ov; setField i (f v) h a else Some (h, a)) in
  (P ∧ ov = None ∧ r = None) ∨
  (¬ (P ∧ ov = None) ∧ ∃ h' s', r = Some (h', a) ∧ loadState h' a = Some s').
Proof.
  intros Hs Hi. simpl. destruct (decide P) as [HP|HP].
  - destruct ov as [v|]; [| by left]. right. split; [by intros [_ ?] |].
    destruct (AccessorProofs.setField_spec h a s i (f v) Hs Hi) as (Hset & Hload & _).
    by eexists _, _.
  - right. split; [by intros [? _] |]. by exists h, s.
Qed.

(** The reading an element contributes for the type [ty]. *)
Lemma lastReading_cons ty field e rest :
  lastReading ty field (e :: rest) =
  match lastReading ty field rest with
  | Some v => Some v
  | None => d ← e; t ← SensorType d; if decide (t = ty) then field d else None
  end.
Proof.
  unfold lastReading. simpl.
  destruct (d ← e; t ← SensorType d; if decide (t = ty) then field d else None) as [v|];
    [| by destruct (last _)].
  apply last_cons.
Qed.

Lemma lastReading_single ty field e :
  lastReading ty field [e] =
  (d ← e; t ← SensorType d; if decide (t = ty) then field d else None).
Proof. by rewrite lastReading_cons. Qed.

Lemma lastReading_one ty field d t :
  SensorType d = Some t →
  lastReading ty field [Some d] = if decide (t = ty) then field d else None.
Proof.
  intros Ht. rewrite lastReading_cons. unfold lastReading at 1. simpl. rewrite Ht. done.
Qed.

Section SensorLoop.

Variables T H N : Z.

Lemma sensorStep_spec e (h : Heap) a s :
  loadState h a = Some s → okState h s = true →
  sensorDataOk T H N e = true →
  ∃ h' s',
    sensorStep T H N e (h, a) = Some (h', a) ∧
    loadState h' a = Some s' ∧ okState h' s' = true ∧
    Elem h' (Field s' 8) =
      match lastReading T ValueMilli [e] with
      | Some v => Some (VInt32 v) | None => Elem h (Field s 8)
      end ∧
    Elem h' (Field s' 9) =
      match lastReading H ValueMilli [e] with
      | Some v => Some (VInt32 v) | None => Elem h (Field s 9)
      end ∧
    Elem h' (Field s' 7) =
      match lastReading N Value [e] with
      | Some v => Some (VBool (bool_decide (v = 1))) | None => Elem h (Field s 7)
      end ∧
    (∀ j, j ≠ 7%nat → j ≠ 8%nat → j ≠ 9%nat → Field s' j = Field s j) ∧
    (∀ b c, b ≠ a → h !! b = Some c → h' !! b = Some c).
Proof.
  intros Hs Hok Hvalid. unfold sensorDataOk in Hvalid.
  destruct e as [d|]; [| done]. destruct (SensorType d) as [ty|] eqn:Hty; [| done].
  apply andb_true_iff in Hvalid as [Hvalid HvN].
  apply andb_true_iff in Hvalid as [HvT HvH].
  unfold sensorStep, SetTemperatureMilli, SetHumidityMilli, SetIsNight.
  cbn [mbind option_bind fst snd]. rewrite Hty. cbn [mbind option_bind].
  destruct (guarded_set (ty = T) (ValueMilli d) VInt32 8 h a s Hs Hok ltac:(lia))
    as (h1 & s1 & E1 & Hs1 & Hok1 & He1 & Ho1 & Hf1 & Hfr1).
  { intros HP. rewrite decide_True in HvT by done. by apply bool_decide_eq_true in HvT. }
  rewrite E1. cbn [mbind option_bind fst snd].
  destruct (guarded_set (ty = H) (ValueMilli d) VInt32 9 h1 a s1 Hs1 Hok1 ltac:(lia))
    as (h2 & s2 & E2 & Hs2 & Hok2 & He2 & Ho2 & Hf2 & Hfr2).
  { intros HP. rewrite decide_True in HvH by done. by apply bool_decide_eq_true in HvH. }
  rewrite E2. cbn [mbind option_bind fst snd].
  destruct (guarded_set (ty = N) (Value d) (λ v, VBool (bool_decide (v = 1))) 7 h2 a s2
              Hs2 Hok2 ltac:(lia))
    as (h3 & s3 & E3 & Hs3 & Hok3 & He3 & Ho3 & Hf3 & Hfr3).
  { intros HP. rewrite decide_True in HvN by done. by apply bool_decide_eq_true in HvN. }
  exists h3, s3. split; [exact E3 |]. split; [done |]. split; [done |].
  rewrite !(lastReading_one _ _ d ty Hty).
  split; [| split; [| split; [| split]]].
  - rewrite (Ho3 8%nat) by lia. rewrite (Ho2 8%nat) by lia. rewrite He1.
    destruct (decide (ty = T)); [| done]. by destruct (ValueMilli d).
  - rewrite (Ho3 9%nat) by lia. rewrite He2. rewrite (Ho1 9%nat) by lia.
    destruct (decide (ty = H)); [| done]. by destruct (ValueMilli d).
  - rewrite He3. rewrite (Ho2 7%nat) by lia. rewrite (Ho1 7%nat) by lia.
    destruct (decide (ty = N)); [| done]. by destruct (Value d).
  - intros j H7 H8 H9. by rewrite Hf3, Hf2, Hf1.
  - intros b c Hne Hb. by apply Hfr3, Hfr2, Hfr1.
Qed.

Lemma sensorStep_panics e (h : Heap) a s :
  loadState h a = Some s → sensorDataOk T H N e = false → sensorStep T H N e (h, a) = None.
Proof.
  intros Hs Hbad. unfold sensorDataOk in Hbad. unfold sensorStep.
  destruct e as [d|]; [| done]. cbn [mbind option_bind].
  destruct (SensorType d) as [ty|] eqn:Hty; [| done]. cbn [mbind option_bind fst snd].
  unfold SetTemperatureMilli, SetHumidityMilli, SetIsNight.
  destruct (guarded_cases (ty = T) (ValueMilli d) VInt32 8 h a s Hs ltac:(lia))
    as [(_ & _ & ->)|(H1 & h1 & s1 & -> & Hs1)]; [done |].
  cbn [mbind option_bind fst snd].
  destruct (guarded_cases (ty = H) (ValueMilli d) VInt32 9 h1 a s1 Hs1 ltac:(lia))
    as [(_ & _ & ->)|(H2 & h2 & s2 & -> & Hs2)]; [done |].
  cbn [mbind option_bind fst snd].
  destruct (guarded_cases (ty = N) (Value d) (λ v, VBool (bool_decide (v = 1))) 7 h2 a s2
              Hs2 ltac:(lia))
    as [(_ & _ & ->)|(H3 & _)]; [done |].
  exfalso.
  assert (∀ (P : Prop) `{!Decision P} (ov : option Z), ¬ (P ∧ ov = None) →
            (if decide P then bool_decide (is_Some ov) else true) = true) as Hc.
  { intros P ? ov Hn. destruct (decide P); [| done]. destruct ov; [done |].
    by destruct Hn. }
  by rewrite !Hc in Hbad.
Qed.

Lemma sensorLoop_spec data : ∀ (h : Heap) a s,
  loadState h a = Some s → okState h s = true →
  forallb (sensorDataOk T H N) data = true →
  ∃ h' s',
    sensorLoop T H N data (h, a) = Some (h', a) ∧
    loadState h' a = Some s' ∧ okState h' s' = true ∧
    Elem h' (Field s' 8) =
      match lastReading T ValueMilli data with
      | Some v => Some (VInt32 v) | None => Elem h (Field s 8)
      end ∧
    Elem h' (Field s' 9) =
      match lastReading H ValueMilli data with
      | Some v => Some (VInt32 v) | None => Elem h (Field s 9)
      end ∧
    Elem h' (Field s' 7) =
      match lastReading N Value data with
      | Some v => Some (VBool (bool_decide (v = 1))) | None => Elem h (Field s 7)
      end ∧
    (∀ j, j ≠ 7%nat → j ≠ 8%nat → j ≠ 9%nat → Field s' j = Field s j) ∧
    (∀ b c, b ≠ a → h !! b = Some c → h' !! b = Some c).
Proof.
  induction data as [|e rest IH]; intros h a s Hs Hok Hvalid.
  - exists h, s. by repeat split.
  - simpl in Hvalid. apply andb_true_iff in Hvalid as [Hve Hvr].
    destruct (sensorStep_spec e h a s Hs Hok Hve)
      as (h1 & s1 & E1 & Hs1 & Hok1 & H8 & H9 & H7 & Hf1 & Hfr1).
    destruct (IH h1 a s1 Hs1 Hok1 Hvr)
      as (h2 & s2 & E2 & Hs2 & Hok2 & H8' & H9' & H7' & Hf2 & Hfr2).
    exists h2, s2. cbn [sensorLoop]. rewrite E1. cbn [mbind option_bind].
    split; [exact E2 |]. split; [done |]. split; [done |].
    rewrite !lastReading_cons.
    rewrite lastReading_single in H8, H9, H7.
    split; [| split; [| split; [| split]]].
    + rewrite H8'. destruct (lastReading T ValueMilli rest); [done |]. rewrite H8.
      by destruct (d ← e; t ← SensorType d; if decide (t = T) then ValueMilli d else None).
    + rewrite H9'. destruct (lastReading H ValueMilli rest); [done |]. rewrite H9.
      by destruct (d ← e; t ← SensorType d; if decide (t = H) then ValueMilli d else None).
    + rewrite H7'. destruct (lastReading N Value rest); [done |]. rewrite H7.
      by destruct (d ← e; t ← SensorType d; if decide (t = N) then Value d else None).
    + intros j J7 J8 J9. by rewrite Hf2, Hf1.
    + intros b c Hne Hb. by apply Hfr2, Hfr1.
Qed.

Lemma sensorLoop_panics data : ∀ (h : Heap) a s,
  loadState h a = Some s → okState h s = true →
  forallb (sensorDataOk T H N) data = false →
  sensorLoop T H N data (h, a) = None.
Proof.
  induction data as [|e rest IH]; intros h a s Hs Hok Hbad; [done |].
  simpl in Hbad. cbn [sensorLoop].
  destruct (sensorDataOk T H N e) eqn:Hve.
  - destruct (sensorStep_spec e h a s Hs Hok Hve) as (h1 & s1 & E1 & Hs1 & Hok1 & _).
    rewrite E1. cbn [mbind option_bind]. by eapply IH.
  - by rewrite (sensorStep_panics e h a s Hs Hve).
Qed.

(** What the loop leaves in the [State{}] it starts from. *)
Lemma sensorUpdate_run data (h : Heap) :
  forallb (sensorDataOk T H N) data = true →
  ∃ h' s,
    sensorUpdate T H N data h = Some (h', length h) ∧
    loadState h' (length h) = Some s ∧ okState h' s = true ∧
    Elem h' (Field s 8) = VInt32 <$> lastReading T ValueMilli data ∧
    Elem h' (Field s 9) = VInt32 <$> lastReading H ValueMilli data ∧
    Elem h' (Field s 7) =
      (λ v, VBool (bool_decide (v = 1))) <$> lastReading N Value data ∧
    (∀ j, j ≠ 7%nat → j ≠ 8%nat → j ≠ 9%nat → Field s j = None) ∧
    (∀ b c, h !! b = Some c → h' !! b = Some c).
Proof.
  intros Hvalid. unfold sensorUpdate, NewState, alloc.
  assert (Hs0 : loadState (h ++ [CState emptyState]) (length h) = Some emptyState).
  { unfold loadState. rewrite lookup_app_r by lia. by rewrite Nat.sub_diag. }
  destruct (sensorLoop_spec data (h ++ [CState emptyState]) (length h) emptyState
              Hs0 eq_refl Hvalid)
    as (h' & s & E & Hs & Hok & H8 & H9 & H7 & Hf & Hfr).
  exists h', s. split; [exact E |]. split; [done |]. split; [done |].
  split; [| split; [| split; [| split]]].
  - rewrite H8. by destruct (lastReading T ValueMilli data).
  - rewrite H9. by destruct (lastReading H ValueMilli data).
  - rewrite H7. by destruct (lastReading N Value data).
  - intros j J7 J8 J9. rewrite Hf by done.
    do 13 (destruct j as [|j]; [done |]). done.
  - intros b c Hb. apply Hfr.
    + apply lookup_lt_Some in Hb. lia.
    + by apply lookup_app_l_Some.
Qed.

End SensorLoop.

(** X15: the update that [processSensorData] builds.  The loop gets
    through the slice exactly when every element is non-nil, has a sensor
    type, has a milli value if the type is temperature or humidity, and a
    value if it is night; otherwise a nil pointer is dereferenced.  The
    update it hands to the state manager is a new record in which only
    [TemperatureMilli], [HumidityMilli] and [IsNight] can be set: each
    holds the reading of the last element of its type, and is nil if
    there is none.  No cell that existed before is changed. *)
Theorem sensorUpdate_readings (T H N : Z) (data : list (option SensorData)) (h : Heap) :
  (is_Some (sensorUpdate T H N data h) ↔ forallb (sensorDataOk T H N) data = true) ∧
  (∀ h' u, sensorUpdate T H N data h = Some (h', u) →
     u = length h ∧
     ∃ s, loadState h' u = Some s ∧ okState h' s = true ∧
       Elem h' (TemperatureMilli s) = VInt32 <$> lastReading T ValueMilli data ∧
       Elem h' (HumidityMilli s) = VInt32 <$> lastReading H ValueMilli data ∧
       Elem h' (IsNight s) =
         (λ v, VBool (bool_decide (v = 1))) <$> lastReading N Value data ∧
       (∀ j, j ≠ 7%nat → j ≠ 8%nat → j ≠ 9%nat → Field s j = None) ∧
       (∀ b c, h !! b = Some c → h' !! b = Some c)).
Proof.
  destruct (forallb (sensorDataOk T H N) data) eqn:Hvalid.
  - destruct (sensorUpdate_run T H N data h Hvalid) as (h' & s & E & Hrest).
    split; [split; [done | by rewrite E] |].
    intros h'' u E'. rewrite E in E'. injection E' as <- <-.
    split; [done |]. by exists s.
  - assert (sensorUpdate T H N data h = None) as E.
    { unfold sensorUpdate, NewState, alloc.
      eapply (sensorLoop_panics T H N data _ _ emptyState); [| done | done].
      unfold loadState. rewrite lookup_app_r by lia. by rewrite Nat.sub_diag. }
    rewrite E. split; [split; [by intros [? ?] | done] | done].
Qed.

(** The reading that field [i] of the merged record shows. *)
Lemma merged_reading (h1 h2 : Heap) cur s res i (reading : option value) :
  (i < 12)%nat → okState h1 s = true →
  Elem h1 (Field s i) = reading →
  viewPtr h2 (Field res i) =
    Some (match Field s i with
          | Some pa => loadVal h1 pa
          | None => Elem h1 (Field cur i)
          end) →
  viewPtr h2 (Field res i) =
    Some (match reading with Some v => Some v | None => Elem h1 (Field cur i) end) ∧
  (fieldChanged h1 cur s i = false ↔
   match reading with Some v => Elem h1 (Field cur i) = Some v | None => True end).
Proof.
  intros Hi Hok <- Hview.
  pose proof (okState_val h1 s i Hok Hi) as Hv.
  destruct (Field s i) as [pa|] eqn:Hf.
  - apply okVal_Some in Hv as [v Hv].
    assert (loadVal h1 pa = Some v) as Hl by (unfold loadVal; by rewrite Hv).
    simpl. split; [by rewrite Hview, Hl |].
    unfold fieldChanged. rewrite Hf. rewrite decide_False by lia. rewrite Hl.
    destruct (Field cur i) as [ca|]; simpl; [| done].
    rewrite bool_decide_eq_false. split; [apply dec_stable | intros -> Hne; by apply Hne].
  - simpl. split; [done |]. unfold fieldChanged. by rewrite Hf.
Qed.

(** X16: sensor data merged into a record.  When the update built by
    [processSensorData] is merged into a well-formed record, the result
    shows the last temperature, humidity and night reading of the message
    where there is one and the value the record had otherwise; all other
    fields and the device information are as in the record.  The record
    itself comes back, unchanged, exactly when every reading present
    equals what the record already had. *)
Theorem sensor_data_merged (T H N : Z) (data : list (option SensorData)) (h : Heap)
    (cur : addr) (curS : State) :
  loadState h cur = Some curS → okState h curS = true →
  forallb (sensorDataOk T H N) data = true →
  ∃ h1 u h2 r res,
    sensorUpdate T H N data h = Some (h1, u) ∧ Merge h1 cur u = Some (h2, r) ∧
    loadState h2 r = Some res ∧
    let shows (i : nat) (reading : option value) :=
      viewPtr h2 (Field res i) =
        Some (match reading with Some v => Some v | None => Elem h (Field curS i) end) in
    let agrees (i : nat) (reading : option value) :=
      match reading with Some v => Elem h (Field curS i) = Some v | None => True end in
    shows 8%nat (VInt32 <$> lastReading T ValueMilli data) ∧
    shows 9%nat (VInt32 <$> lastReading H ValueMilli data) ∧
    shows 7%nat ((λ v, VBool (bool_decide (v = 1))) <$> lastReading N Value data) ∧
    (∀ i, (i < 12)%nat → i ≠ 7%nat → i ≠ 8%nat → i ≠ 9%nat →
       viewPtr h2 (Field res i) = Some (Elem h (Field curS i))) ∧
    DeviceInfo_ res = DeviceInfo_ curS ∧
    (r = cur ↔
     agrees 8%nat (VInt32 <$> lastReading T ValueMilli data) ∧
     agrees 9%nat (VInt32 <$> lastReading H ValueMilli data) ∧
     agrees 7%nat ((λ v, VBool (bool_decide (v = 1))) <$> lastReading N Value data)).
Proof.
  intros Hc Hoc Hvalid.
  destruct (sensorUpdate_run T H N data h Hvalid)
    as (h1 & s & E & Hs & Hok & H8 & H9 & H7 & Hnil & Hfr).
  assert (Hc1 : loadState h1 cur = Some curS).
  { unfold loadState. by rewrite (Hfr _ _ (loadState_Some _ _ _ Hc)). }
  assert (Hoc1 : okState h1 curS = true) by (by eapply okState_frame).
  assert (Hel : ∀ i, (i < 12)%nat → Elem h1 (Field curS i) = Elem h (Field curS i)).
  { intros i Hi. pose proof (okState_val h curS i Hoc Hi) as Hv.
    destruct (Field curS i) as [ca|]; [| done].
    apply okVal_Some in Hv as [v Hv]. simpl. unfold loadVal.
    by rewrite (Hfr _ _ Hv), Hv. }
  destruct (Merge_scalar_fields h1 cur (length h) curS s Hc1 Hs Hoc1 Hok)
    as (h2 & r & res & HM & Hres & Hfields).
  destruct (Merge_DeviceInfo_field h1 cur (length h) curS s Hc1 Hs Hoc1 Hok)
    as (h2' & r' & res' & HM' & Hres' & HD).
  rewrite HM in HM'. injection HM' as <- <-.
  rewrite Hres in Hres'. injection Hres' as <-.
  destruct (Merge_same_record_iff h1 cur (length h) curS s Hc1 Hs Hoc1 Hok)
    as (h2' & r' & HM' & Hsame).
  rewrite HM in HM'. injection HM' as <- <-.
  exists h1, (length h), h2, r, res.
  split; [done |]. split; [done |]. split; [done |].
  destruct (merged_reading h1 h2 curS s res 8 _ ltac:(lia) Hok H8 (Hfields 8%nat ltac:(lia)))
    as [S8 C8].
  destruct (merged_reading h1 h2 curS s res 9 _ ltac:(lia) Hok H9 (Hfields 9%nat ltac:(lia)))
    as [S9 C9].
  destruct (merged_reading h1 h2 curS s res 7 _ ltac:(lia) Hok H7 (Hfields 7%nat ltac:(lia)))
    as [S7 C7].
  rewrite Hel in S8, S9, S7, C8, C9, C7 by lia.
  split; [exact S8 |]. split; [exact S9 |]. split; [exact S7 |]. split.
  { intros i Hi I7 I8 I9. rewrite (Hfields i Hi), (Hnil i I7 I8 I9). by rewrite Hel. }
  split.
  { assert (DeviceInfo_ s = None) as Hd by (apply (Hnil 12%nat); lia).
    by rewrite Hd in HD. }
  rewrite Hsame. rewrite <- C8, <- C9, <- C7.
  assert (Hother : ∀ i, i ≠ 7%nat → i ≠ 8%nat → i ≠ 9%nat →
            fieldChanged h1 curS s i = false).
  { intros i I7 I8 I9. unfold fieldChanged. by rewrite (Hnil i I7 I8 I9). }
  split.
  - intros Hex. rewrite <- not_true_iff_false, existsb_exists in Hex.
    assert (∀ i, (i < 13)%nat → fieldChanged h1 curS s i = false) as Hall.
    { intros i Hi. apply not_true_iff_false. intros Ht. apply Hex.
      exists i. split; [apply in_seq; lia | done]. }
    split; [apply Hall; lia | split; apply Hall; lia].
  - intros (C8' & C9' & C7'). apply not_true_iff_false.
    rewrite existsb_exists. intros (i & _ & Hi).
    destruct (decide (i = 7%nat)) as [->|I7]; [congruence |].
    destruct (decide (i = 8%nat)) as [->|I8]; [congruence |].
    destruct (decide (i = 9%nat)) as [->|I9]; [congruence |].
    rewrite Hother in Hi by done. done.
Qed.

Lemma sensor_data_merged_witness :
  ∃ h1 u h2 r res,
    sensorUpdate 2 3 5 sensorExample heapTemperature = Some (h1, u) ∧
    Merge h1 2 u = Some (h2, r) ∧ loadState h2 r = Some res ∧
    viewPtr h2 (TemperatureMilli res) = Some (Some (VInt32 21500)) ∧
    viewPtr h2 (HumidityMilli res) = Some (Some (VInt32 45000)) ∧
    r ≠ 2%nat.
Proof.
  destruct (sensor_data_merged 2 3 5 sensorExample heapTemperature 2 stateTemperature
              eq_refl eq_refl eq_refl)
    as (h1 & u & h2 & r & res & E & HM & Hres & S8 & S9 & _ & _ & _ & Hsame).
  exists h1, u, h2, r, res. split; [exact E |]. split; [exact HM |]. split; [exact Hres |].
  split; [exact S8 |]. split; [exact S9 |].
  intros Hr. apply Hsame in Hr as (_ & C9 & _). discriminate C9.
Defined.

(** *** Status messages *)

Lemma pick_nil {A} (x : option A) : pick None x = x.
Proof. done. Qed.

(** The update built from a status: a new record that holds nothing but
    device information, and what that device information holds. *)
Lemma statusUpdate_run (STAND TRAVEL SWITCH now : Z) (status : Status) (h : Heap) :
  ∃ h1 dP,
    statusUpdate STAND TRAVEL SWITCH now status h = (h1, length h) ∧
    loadState h1 (length h) = Some (SetField emptyState 12 (Some (S (length h)))) ∧
    loadDeviceInfo h1 (S (length h)) = Some dP ∧
    (∀ a c, h !! a = Some c → h1 !! a = Some c) ∧
    FirmwareVersion dP = Status_CurrentVersion status ∧
    HardwareVersion dP = Status_HardwareVersion status ∧
    UpgradeDownloaded dP = Status_UpgradeDownloaded status ∧
    Elem h1 (DeviceMode dP) =
      (λ m, VString (modeName STAND TRAVEL SWITCH m)) <$> Status_Mode status ∧
    (DeviceMode dP = None ↔ Status_Mode status = None) ∧
    Elem h1 (LastUpdated dP) = Some (VInt64 now) ∧
    (∀ j, j ∉ statusFields → DeviceInfo_ptrs dP !! j = DeviceInfo_ptrs emptyDeviceInfo !! j) ∧
    AvailableSoundtracks dP = None.
Proof.
  assert (Hother : ∀ (p0 p1 p2 p13 p24 : ptr) j, j ∉ statusFields →
    DeviceInfo_ptrs (mkDeviceInfo p0 p1 p2 None None None None None None None None None None
                       p13 None None None None None None None None None None None p24) !! j =
    DeviceInfo_ptrs emptyDeviceInfo !! j).
  { intros p0 p1 p2 p13 p24 j Hj. unfold statusFields in Hj.
    do 25 (destruct j as [|j];
      [first [reflexivity | exfalso; apply Hj; HlsProofs.in_list] |]).
    done. }
  unfold statusUpdate, alloc.
  destruct status as [cv hv [m|] ud];
    destruct cv, hv, ud; cbn; rewrite ?length_app; cbn [length];
    rewrite ?Nat.add_1_r; eexists _, _; (split; [reflexivity |]).
  all: split; [unfold loadState; rewrite list_lookup_insert_eq;
               [reflexivity | rewrite length_insert, !length_app; cbn [length]; lia] |].
  all: split; [unfold loadDeviceInfo; rewrite list_lookup_insert_ne by lia;
               rewrite list_lookup_insert_eq;
               [reflexivity | rewrite !length_app; cbn [length]; lia] |].
  all: split; [intros a c Ha; pose proof (lookup_lt_Some _ _ _ Ha);
               rewrite !list_lookup_insert_ne by lia;
               rewrite <- !app_assoc; by apply lookup_app_l_Some |].
  all: (split; [reflexivity |]); (split; [reflexivity |]); (split; [reflexivity |]).
  all: split; [cbn; try reflexivity; unfold loadVal;
               rewrite !list_lookup_insert_ne by lia;
               rewrite <- !app_assoc; rewrite lookup_app_r by lia;
               replace (S (S (length h)) - length h)%nat with 2%nat by lia; reflexivity |].
  all: split; [split; done |].
  all: split; [cbn; unfold loadVal;
               rewrite !list_lookup_insert_ne by lia;
               rewrite <- !app_assoc; rewrite lookup_app_r by lia;
               replace (S (S (S (length h))) - length h)%nat with 3%nat by lia;
               replace (S (S (length h)) - length h)%nat with 2%nat by lia;
               reflexivity |].
  all: split; [apply Hother | reflexivity].
Qed.

(** X17: every status message replaces the record.  The update that
    [processStatus] builds always carries device information, so [Merge]
    returns a newly allocated record for it, even when the status is
    empty or repeats what is known.  In the result the twelve scalar
    fields read as before; firmware version, hardware version and upgrade
    flag are the pointers of the message where it has them and the old
    ones otherwise; the device mode is the name chosen for the mode of the
    message, or the old one; every other field of the device information
    is as before.  The time of the update is stored only when the record
    had no device information: otherwise [LastUpdated] keeps its old
    pointer. *)
Theorem status_always_replaces (STAND TRAVEL SWITCH now : Z) (status : Status)
    (h : Heap) (cur : addr) (curS : State) :
  loadState h cur = Some curS → okState h curS = true →
  ∃ h1 u h2 r res da d c,
    statusUpdate STAND TRAVEL SWITCH now status h = (h1, u) ∧
    Merge h1 cur u = Some (h2, r) ∧ r ≠ cur ∧ h !! r = None ∧
    loadState h2 r = Some res ∧
    (∀ a x, h !! a = Some x → h2 !! a = Some x) ∧
    (∀ i, (i < 12)%nat → viewPtr h2 (Field res i) = Some (Elem h (Field curS i))) ∧
    DeviceInfo_ res = Some da ∧ loadDeviceInfo h2 da = Some d ∧
    deviceInfoOf h curS = Some c ∧
    FirmwareVersion d = pick (Status_CurrentVersion status) (FirmwareVersion c) ∧
    HardwareVersion d = pick (Status_HardwareVersion status) (HardwareVersion c) ∧
    UpgradeDownloaded d = pick (Status_UpgradeDownloaded status) (UpgradeDownloaded c) ∧
    match Status_Mode status with
    | Some m => Elem h2 (DeviceMode d) = Some (VString (modeName STAND TRAVEL SWITCH m))
    | None => DeviceMode d = DeviceMode c
    end ∧
    match DeviceInfo_ curS with
    | Some _ => LastUpdated d = LastUpdated c
    | None => Elem h2 (LastUpdated d) = Some (VInt64 now)
    end ∧
    (∀ j, j ∉ statusFields → DeviceInfo_ptrs d !! j = DeviceInfo_ptrs c !! j) ∧
    AvailableSoundtracks d = AvailableSoundtracks c.
Proof.
  intros Hc Hoc.
  destruct (statusUpdate_run STAND TRAVEL SWITCH now status h)
    as (h1 & dP & E & Hs & HdP & Hfr & HFV & HHV & HUD & HDM & HDMnil & HLU & Hoth & HAS).
  set (sP := SetField emptyState 12 (Some (S (length h)))) in *.
  assert (Hc1 : loadState h1 cur = Some curS).
  { unfold loadState. by rewrite (Hfr _ _ (loadState_Some _ _ _ Hc)). }
  assert (Hoc1 : okState h1 curS = true) by (by eapply okState_frame).
  assert (Hop : okState h1 sP = true).
  { unfold okState. apply andb_true_iff. split; [reflexivity |].
    simpl. rewrite bool_decide_eq_true. by eexists. }
  assert (Hel : ∀ i, (i < 12)%nat → Elem h1 (Field curS i) = Elem h (Field curS i)).
  { intros i Hi. pose proof (okState_val h curS i Hoc Hi) as Hv.
    destruct (Field curS i) as [ca|]; [| done].
    apply okVal_Some in Hv as [v Hv]. simpl. unfold loadVal.
    by rewrite (Hfr _ _ Hv), Hv. }
  destruct (Merge_scalar_fields h1 cur (length h) curS sP Hc1 Hs Hoc1 Hop)
    as (h2 & r & res & HM & Hres & Hfields).
  destruct (Merge_DeviceInfo_field h1 cur (length h) curS sP Hc1 Hs Hoc1 Hop)
    as (h2' & r' & res' & HM' & Hres' & HD).
  rewrite HM in HM'. injection HM' as <- <-.
  rewrite Hres in Hres'. injection Hres' as <-.
  destruct (Merge_DeviceInfo_patch_new h1 cur (length h) curS sP Hc1 Hs Hoc1 Hop)
    as (h3 & HM3); [by eexists |].
  rewrite HM in HM3. injection HM3 as _ Hr.
  destruct (Merge_wf h1 cur (length h)) as (h2' & r' & HM' & Hfr2 & _).
  { unfold wfState. by rewrite Hc1. }
  { unfold wfState. by rewrite Hs. }
  rewrite HM in HM'. injection HM' as <- <-.
  assert (length h < length h1)%nat as Hlen.
  { apply loadState_Some in Hs. by eapply lookup_lt_Some. }
  assert (cur < length h)%nat as Hcur.
  { apply loadState_Some in Hc. by eapply lookup_lt_Some. }
  (* the pointer of the mode name, if any *)
  assert (HDM2 : match Status_Mode status with
                 | Some m => Elem h2 (DeviceMode dP) =
                             Some (VString (modeName STAND TRAVEL SWITCH m))
                 | None => DeviceMode dP = None
                 end).
  { destruct (Status_Mode status) as [m|]; [| by apply HDMnil].
    destruct (DeviceMode dP) as [p|]; [| done]. simpl in *.
    by eapply loadVal_frame. }
  assert (HLU2 : Elem h2 (LastUpdated dP) = Some (VInt64 now)).
  { destruct (LastUpdated dP) as [p|]; [| done]. simpl in *. by eapply loadVal_frame. }
  assert (Hpick : ∀ p : ptr, p = pick p None) by (by intros [?|]).
  assert (HsPnil : ∀ i, (i < 12)%nat → Field sP i = None).
  { intros i Hi. subst sP. rewrite Field_SetField_ne by lia.
    do 12 (destruct i as [|i]; [done |]). lia. }
  simpl in HD.
  destruct (DeviceInfo_ curS) as [ca|] eqn:Hca.
  - destruct HD as (c & p & a & Hlc & Hlp & Hda & Hlt & Hld).
    rewrite HdP in Hlp. injection Hlp as <-.
    assert (loadDeviceInfo h ca = Some c) as Hlc0.
    { pose proof (okState_DeviceInfo _ _ Hoc) as Hd. simpl in Hd. rewrite Hca in Hd.
      apply okDeviceInfo_Some in Hd as [c0 Hc0].
      unfold loadDeviceInfo in Hlc |- *. rewrite (Hfr _ _ Hc0) in Hlc.
      by rewrite Hc0. }
    exists h1, (length h), h2, r, res, a, (mergedDeviceInfo c dP), c.
    split; [done |]. split; [done |]. split; [lia |].
    split; [apply lookup_ge_None; lia |]. split; [done |].
    split; [intros a' x Ha; by apply Hfr2, Hfr |].
    split; [intros i Hi; rewrite (Hfields i Hi), (HsPnil i Hi); by rewrite Hel |].
    split; [done |]. split; [done |].
    split; [unfold deviceInfoOf; by rewrite Hca |].
    split; [simpl; by rewrite HFV |]. split; [simpl; by rewrite HHV |].
    split; [simpl; by rewrite HUD |].
    split.
    { destruct (Status_Mode status) as [m|].
      - simpl. destruct (DeviceMode dP) as [q|]; [exact HDM2 | done].
      - simpl. by rewrite HDM2. }
    split; [done |]. split.
    { intros j Hj. pose proof (Hoth j Hj) as Hn. unfold DeviceInfo_ptrs in *.
      do 25 (destruct j as [|j];
        [simpl in Hn |- *; injection Hn as Hn; first [done | by rewrite Hn] |]).
      done. }
    simpl. by rewrite HAS.
  - exists h1, (length h), h2, r, res, (S (length h)), dP, emptyDeviceInfo.
    split; [done |]. split; [done |]. split; [lia |].
    split; [apply lookup_ge_None; lia |]. split; [done |].
    split; [intros a' x Ha; by apply Hfr2, Hfr |].
    split; [intros i Hi; rewrite (Hfields i Hi), (HsPnil i Hi); by rewrite Hel |].
    split; [done |].
    split.
    { unfold loadDeviceInfo in HdP |- *.
      destruct (h1 !! S (length h)) as [x|] eqn:Hx; [| done].
      by rewrite (Hfr2 _ _ Hx). }
    split; [unfold deviceInfoOf; by rewrite Hca |].
    split; [rewrite HFV; apply Hpick |]. split; [rewrite HHV; apply Hpick |].
    split; [rewrite HUD; apply Hpick |].
    split; [by destruct (Status_Mode status) |].
    split; [done |]. split; [exact Hoth | done].
Qed.

Lemma status_always_replaces_witness :
  ∃ h1 u h2 r res da d,
    statusUpdate 0 1 2 1700000000 statusExample heapStatus = (h1, u) ∧
    Merge h1 2 u = Some (h2, r) ∧ r ≠ 2%nat ∧
    loadState h2 r = Some res ∧ DeviceInfo_ res = Some da ∧
    loadDeviceInfo h2 da = Some d ∧
    FirmwareVersion d = Some 3%nat ∧
    Elem h2 (DeviceMode d) = Some (VString "Travel") ∧
    Elem h2 (LastUpdated d) = Some (VInt64 1700000000).
Proof.
  destruct (status_always_replaces 0 1 2 1700000000 statusExample heapStatus 2
              stateTemperature eq_refl eq_refl)
    as (h1 & u & h2 & r & res & da & d & c & E & HM & Hr & _ & Hres & _ & _ & Hda & Hd
        & Hc & HFV & _ & _ & HDM & HLU & _).
  exists h1, u, h2, r, res, da, d.
  split; [exact E |]. split; [exact HM |]. split; [exact Hr |]. split; [exact Hres |].
  split; [exact Hda |]. split; [exact Hd |].
  split; [exact HFV |]. split; [exact HDM | exact HLU].
Defined.

(** *** Settings messages *)

Lemma pick_assoc {A} (x y z : option A) : pick x (pick y z) = pick (pick x y) z.
Proof. by destruct x, y. Qed.

Lemma lastSensor_cons ty field e rest :
  lastSensor ty field (e :: rest) =
  pick (lastSensor ty field rest)
       (s ← e; t ← Sensor_SensorType s; if decide (t = ty) then field s else None).
Proof.
  unfold lastSensor. simpl.
  destruct (s ← e; t ← Sensor_SensorType s; if decide (t = ty) then field s else None)
    as [v|]; [| by destruct (last _)].
  rewrite last_cons. by destruct (last _).
Qed.

Lemma lastStream_cons id field e rest :
  lastStream id field (e :: rest) =
  pick (lastStream id field rest)
       (s ← e; t ← Stream_Id s; if decide (t = id) then field s else None).
Proof.
  unfold lastStream. simpl.
  destruct (s ← e; t ← Stream_Id s; if decide (t = id) then field s else None)
    as [v|]; [| by destruct (last _)].
  rewrite last_cons. by destruct (last _).
Qed.

Lemma sensorThresholds_Some T H t lo hi d :
  sensorThresholds T H (Some (mkSettingsSensor t lo hi)) d =
  Some (match t with
        | None => d
        | Some ty =>
          if decide (ty = T)
          then setIfNotNil hi withTempHighThreshold (setIfNotNil lo withTempLowThreshold d)
          else if decide (ty = H)
          then setIfNotNil hi withHumidityHighThreshold
                 (setIfNotNil lo withHumidityLowThreshold d)
          else d
        end).
Proof. unfold sensorThresholds. simpl. destruct t; repeat case_decide; done. Qed.

Lemma streamSettings_Some M D A t br fps d :
  streamSettings M D A (Some (mkSettingsStream t br fps)) d =
  Some (match t with
        | None => d
        | Some id =>
          if decide (id = M)
          then setIfNotNil fps withMobileFPS (setIfNotNil br withMobileBitrate d)
          else if decide (id = D)
          then setIfNotNil fps withDVRFPS (setIfNotNil br withDVRBitrate d)
          else if decide (id = A)
          then setIfNotNil fps withAnalyticsFPS (setIfNotNil br withAnalyticsBitrate d)
          else d
        end).
Proof. unfold streamSettings. simpl. destruct t; repeat case_decide; done. Qed.

(** The loop over the sensors leaves the thresholds of the last sensor of
    each type that has them. *)
Lemma sensors_loop (T H : Z) (sensors : list (option SettingsSensor)) :
  T ≠ H → Forall is_Some sensors → ∀ d,
  forEach (sensorThresholds T H) sensors d =
  Some (setIfNotNil (lastSensor T Sensor_LowThreshold sensors) withTempLowThreshold
       (setIfNotNil (lastSensor T Sensor_HighThreshold sensors) withTempHighThreshold
       (setIfNotNil (lastSensor H Sensor_LowThreshold sensors) withHumidityLowThreshold
       (setIfNotNil (lastSensor H Sensor_HighThreshold sensors) withHumidityHighThreshold
          d)))).
Proof.
  intros HTH Hall. induction Hall as [|e rest [s ->] Hall IH]; intros d; [done |].
  cbn [forEach]. rewrite !lastSensor_cons.
  generalize (lastSensor T Sensor_LowThreshold rest) (lastSensor T Sensor_HighThreshold rest)
             (lastSensor H Sensor_LowThreshold rest) (lastSensor H Sensor_HighThreshold rest)
             (IH) .
  intros x1 x2 x3 x4 IH'. clear IH.
  destruct s as [[t|] lo hi]; rewrite sensorThresholds_Some;
    cbn [Sensor_SensorType Sensor_LowThreshold Sensor_HighThreshold mbind option_bind];
    rewrite IH'.
  all: f_equal; repeat case_decide; subst; try congruence;
    destruct d, lo, hi, x1, x2, x3, x4; reflexivity.
Qed.

Lemma streams_loop (M D A : Z) (streams : list (option SettingsStream)) :
  M ≠ D → M ≠ A → D ≠ A → Forall is_Some streams → ∀ d,
  forEach (streamSettings M D A) streams d =
  Some (setIfNotNil (lastStream M Stream_Bitrate streams) withMobileBitrate
       (setIfNotNil (lastStream M Stream_BestFps streams) withMobileFPS
       (setIfNotNil (lastStream D Stream_Bitrate streams) withDVRBitrate
       (setIfNotNil (lastStream D Stream_BestFps streams) withDVRFPS
       (setIfNotNil (lastStream A Stream_Bitrate streams) withAnalyticsBitrate
       (setIfNotNil (lastStream A Stream_BestFps streams) withAnalyticsFPS d)))))).
Proof.
  intros HMD HMA HDA Hall. induction Hall as [|e rest [s ->] Hall IH]; intros d; [done |].
  cbn [forEach]. rewrite !lastStream_cons.
  generalize (lastStream M Stream_Bitrate rest) (lastStream M Stream_BestFps rest)
             (lastStream D Stream_Bitrate rest) (lastStream D Stream_BestFps rest)
             (lastStream A Stream_Bitrate rest) (lastStream A Stream_BestFps rest)
             (IH).
  intros x1 x2 x3 x4 x5 x6 IH'. clear IH.
  destruct s as [[t|] br fps]; rewrite streamSettings_Some;
    cbn [Stream_Id Stream_Bitrate Stream_BestFps mbind option_bind];
    rewrite IH'.
  all: f_equal; repeat case_decide; subst; try congruence;
    destruct d, br, fps, x1, x2, x3, x4, x5, x6; reflexivity.
Qed.

Ltac heap_norm :=
  repeat first
    [ progress (rewrite <- ?app_assoc; cbn [app])
    | progress (rewrite ?length_app; cbn [length])
    | rewrite HeapProofs.heap_insert_tail
    | rewrite HeapProofs.heap_insert_tail0
    | rewrite HeapProofs.heap_lookup_tail
    | rewrite HeapProofs.heap_lookup_tail0
    | progress cbn [mbind option_bind insert list_insert lookup list_lookup] ];
  rewrite <- ?Nat.add_assoc; cbn [Nat.add].

(** A field read through a guarded assignment: of another field, and of
    the same field. *)
Lemma setIfNotNil_other {B} (proj : DeviceInfo → B) (f : ptr → DeviceInfo → DeviceInfo)
    (p : ptr) (d : DeviceInfo) :
  (∀ q e, proj (f q e) = proj e) → proj (setIfNotNil p f d) = proj d.
Proof. intros Hf. unfold setIfNotNil. destruct p; [apply Hf | done]. Qed.

Lemma setIfNotNil_same (proj : DeviceInfo → ptr) (f : ptr → DeviceInfo → DeviceInfo)
    (p : ptr) (d : DeviceInfo) :
  (∀ q e, proj (f q e) = q) → proj (setIfNotNil p f d) = pick p (proj d).
Proof. intros Hf. unfold setIfNotNil. destruct p; [apply Hf | done]. Qed.

Lemma pick_None_r {A} (x : option A) : pick x None = x.
Proof. by destruct x. Qed.

Ltac read_field :=
  repeat match goal with
  | |- context [?proj (setIfNotNil ?p ?f ?d)] =>
    first [ rewrite (setIfNotNil_other proj f p d) by reflexivity
          | rewrite (setIfNotNil_same proj f p d) by reflexivity ]
  end;
  cbn [pick emptyDeviceInfo FirmwareVersion HardwareVersion DeviceMode MountingMode
       WiFiNetwork WiFiBand NightVision Volume SleepMode StatusLight MicMute AntiFlicker
       StreamingError UpgradeDownloaded AvailableSoundtracks TempLowThreshold
       TempHighThreshold HumidityLowThreshold HumidityHighThreshold MobileBitrate
       MobileFPS DVRBitrate DVRFPS AnalyticsBitrate AnalyticsFPS LastUpdated];
  rewrite ?pick_None_r.

(** X21: the update built from a settings message.  With distinct enum
    constants, a typed [SleepMode] pointer and no nil element in
    [Sensors] or [Streams], [processStandby] builds a new record with
    nothing set but [Standby] and [DeviceInfo]: [Standby] is a copy of the
    sleep mode in a new cell (nil when the message has none), while the
    device information takes over the pointers of the message for sleep
    mode, night vision, volume, status light and microphone; holds the
    names chosen for anti-flicker and band and the number of the mounting
    mode, each exactly when the message has the field; holds, per sensor
    type and stream, the thresholds, bitrate and frame rate of the last
    element that has them; holds the time as [LastUpdated]; and leaves
    firmware and hardware version, device mode, network name, streaming
    error, upgrade flag and soundtracks nil.  Cells that existed keep
    their contents. *)
Theorem standby_update (FR50 FR60 ANY F24 F50 T H M D A now : Z) (settings : Settings)
    (h : Heap) :
  T ≠ H → M ≠ D → M ≠ A → D ≠ A →
  (∀ p, Settings_SleepMode settings = Some p → ∃ b, loadVal h p = Some (VBool b)) →
  Forall is_Some (Settings_Sensors settings) →
  Forall is_Some (Settings_Streams settings) →
   ∃ h1 s d,
     standbyUpdate FR50 FR60 ANY F24 F50 T H M D A now settings h = Some (h1, length h) ∧
     loadState h1 (length h) = Some s ∧
     (∀ a c, h !! a = Some c → h1 !! a = Some c) ∧
     (∀ i, (i < 11)%nat → Field s i = None) ∧
     Elem h1 (Standby s) = Elem h (Settings_SleepMode settings) ∧
     (∀ p, Standby s = Some p → h !! p = None) ∧
     DeviceInfo_ s = Some (S (length h)) ∧
     loadDeviceInfo h1 (S (length h)) = Some d ∧
     SleepMode d = Settings_SleepMode settings ∧
     NightVision d = Settings_NightVision settings ∧
     Volume d = Settings_Volume settings ∧
     StatusLight d = Settings_StatusLightOn settings ∧
     MicMute d = Settings_MicMuteOn settings ∧
     Elem h1 (AntiFlicker d) =
       (λ a, VString (antiFlickerName FR50 FR60 a)) <$> Settings_AntiFlicker settings ∧
     Elem h1 (WiFiBand d) =
       (λ b, VString (wifiBandName ANY F24 F50 b)) <$> Settings_WifiBand settings ∧
     Elem h1 (MountingMode d) = VInt32 <$> Settings_MountingMode settings ∧
     TempLowThreshold d = lastSensor T Sensor_LowThreshold (Settings_Sensors settings) ∧
     TempHighThreshold d = lastSensor T Sensor_HighThreshold (Settings_Sensors settings) ∧
     HumidityLowThreshold d = lastSensor H Sensor_LowThreshold (Settings_Sensors settings) ∧
     HumidityHighThreshold d =
       lastSensor H Sensor_HighThreshold (Settings_Sensors settings) ∧
     MobileBitrate d = lastStream M Stream_Bitrate (Settings_Streams settings) ∧
     MobileFPS d = lastStream M Stream_BestFps (Settings_Streams settings) ∧
     DVRBitrate d = lastStream D Stream_Bitrate (Settings_Streams settings) ∧
     DVRFPS d = lastStream D Stream_BestFps (Settings_Streams settings) ∧
     AnalyticsBitrate d = lastStream A Stream_Bitrate (Settings_Streams settings) ∧
     AnalyticsFPS d = lastStream A Stream_BestFps (Settings_Streams settings) ∧
     Elem h1 (LastUpdated d) = Some (VInt64 now) ∧
     (∀ j, j ∈ notInSettings → DeviceInfo_ptrs d !! j = Some None) ∧
     AvailableSoundtracks d = None.
Proof.
  intros HTH HMD HMA HDA Hsm Hsens Hstr.
  destruct settings as [sm nv vol sl mm af wb mo sensors streams].
  cbn [Settings_SleepMode Settings_NightVision Settings_Volume Settings_StatusLightOn
       Settings_MicMuteOn Settings_AntiFlicker Settings_WifiBand Settings_MountingMode
       Settings_Sensors Settings_Streams] in *.
  unfold standbyUpdate, alloc.
  cbn [Settings_SleepMode Settings_NightVision Settings_Volume Settings_StatusLightOn
       Settings_MicMuteOn Settings_AntiFlicker Settings_WifiBand Settings_MountingMode
       Settings_Sensors Settings_Streams].
  assert (Hfr : ∀ t a c, h !! a = Some c → (h ++ t) !! a = Some c).
  { intros t a c Ha. by apply lookup_app_l_Some. }
  assert (Hsm' : ∀ p, sm = Some p → ∃ b, loadVal h p = Some (VBool b) ∧
            ∀ t, loadVal (h ++ t) p = Some (VBool b)).
  { intros p Hp. destruct (Hsm p Hp) as [b Hb]. exists b. split; [done |].
    intros t. unfold loadVal in *.
    destruct (h !! p) as [c|] eqn:Hc; [| done]. by rewrite (Hfr t _ _ Hc). }
  clear Hsm.
  destruct sm as [p|]; [destruct (Hsm' p eq_refl) as (b & Hb0 & Hb) |];
    destruct af as [af|], wb as [wb|], mo as [mo|]; heap_norm;
    rewrite ?Hb; unfold SetStandby, setField, loadState, alloc; heap_norm.
  all: rewrite (sensors_loop T H sensors HTH Hsens); cbn [mbind option_bind];
    rewrite (streams_loop M D A streams HMD HMA HDA Hstr);
    cbn [mbind option_bind]; unfold SetDeviceInfo, loadState; heap_norm.
  all: change (withLastUpdated (Some ?a) ?d)
         with (setIfNotNil (Some a) withLastUpdated d);
    try change (withMountingMode (Some ?a) ?d)
         with (setIfNotNil (Some a) withMountingMode d);
    try change (withWiFiBand (Some ?a) ?d)
         with (setIfNotNil (Some a) withWiFiBand d);
    try change (withAntiFlicker (Some ?a) ?d)
         with (setIfNotNil (Some a) withAntiFlicker d);
    try change (withSleepMode (Some ?a) ?d)
         with (setIfNotNil (Some a) withSleepMode d).
  all: eexists _, _, _; (split; [reflexivity |]).
  all: split; [rewrite HeapProofs.heap_lookup_tail0; reflexivity |].
  all: split; [intros a c Ha; by apply Hfr |].
  all: split; [intros i Hi; do 11 (destruct i as [|i]; [reflexivity |]); lia |].
  all: split; [cbn [Standby SetField emptyState Elem]; unfold loadVal;
               rewrite ?HeapProofs.heap_lookup_tail; cbn [lookup list_lookup];
               first [by rewrite Hb0 | done] |].
  all: split; [cbn [Standby SetField emptyState]; intros q Hq;
               first [discriminate Hq | injection Hq as <-; apply lookup_ge_None; lia] |].
  all: split; [cbn [DeviceInfo_ SetField emptyState]; f_equal; lia |].
  all: split; [replace (S (length h)) with (length h + 1)%nat by lia;
               unfold loadDeviceInfo; rewrite HeapProofs.heap_lookup_tail; reflexivity |].
  all: do 5 (split; [by read_field |]).
  all: do 3 (split; [read_field; cbn [Elem fmap option_fmap option_map]; unfold loadVal;
                     rewrite ?HeapProofs.heap_lookup_tail; reflexivity |]).
  all: do 10 (split; [by read_field |]).
  all: split; [read_field; cbn [Elem]; unfold loadVal;
               rewrite ?HeapProofs.heap_lookup_tail; reflexivity |].
  all: split; [| by read_field].
  all: intros j Hj; unfold notInSettings in Hj;
    repeat (apply elem_of_cons in Hj as [-> | Hj]); [.. | by apply elem_of_nil in Hj];
    cbn [DeviceInfo_ptrs lookup list_lookup]; f_equal; by read_field.
Qed.

Lemma standby_update_witness :
  ∃ h1 s d,
    standbyUpdate 0 1 0 1 2 2 3 0 1 2 1700000000 settingsExample heapTemperature =
      Some (h1, 3%nat) ∧
    loadState h1 3 = Some s ∧
    Elem h1 (Standby s) = Some (VBool true) ∧
    loadDeviceInfo h1 4 = Some d ∧
    SleepMode d = Some 0%nat ∧
    Elem h1 (AntiFlicker d) = Some (VString "60Hz") ∧
    TempLowThreshold d = None ∧
    TempHighThreshold d = Some 1%nat ∧
    Elem h1 (LastUpdated d) = Some (VInt64 1700000000).
Proof.
  assert (Hsm : ∀ p, Settings_SleepMode settingsExample = Some p →
            ∃ b, loadVal heapTemperature p = Some (VBool b)).
  { intros p Hp. injection Hp as <-. by exists true. }
  assert (Hsens : Forall is_Some (Settings_Sensors settingsExample)).
  { repeat constructor. by eexists. }
  assert (Hstr : Forall is_Some (Settings_Streams settingsExample)) by constructor.
  destruct (standby_update 0 1 0 1 2 2 3 0 1 2 1700000000 settingsExample heapTemperature
              ltac:(lia) ltac:(lia) ltac:(lia) ltac:(lia) Hsm Hsens Hstr)
    as (h1 & s & d & E & Hs & _ & _ & Hst & _ & _ & Hd & HSM & _ & _ & _ & _ & HAF & _ & _
        & HTL & HTH & _ & _ & _ & _ & _ & _ & _ & _ & HLU & _).
  exists h1, s, d.
  split; [exact E |]. split; [exact Hs |]. split; [exact Hst |]. split; [exact Hd |].
  split; [exact HSM |]. split; [exact HAF |]. split; [exact HTL |].
  split; [exact HTH | exact HLU].
Defined.

End HandlerProofs.

(** ** pkg/app/websocket_handlers.go: requesting the local stream *)

Module StreamRequestProofs.
Import baby client streamrequest.

Section Run.

Variable PUT : RequestType.
Variable showInt : Z → string.

Lemma sendAndAwait_spec (a : attempt) (conn : WebsocketConnection) :
  -2^31 ≤ lastRequestID conn < 2^31 - 1 →
  ∃ conn',
    sendAndAwait PUT showInt a conn = Some (conn', errorOf showInt a) ∧
    lastRequestID conn' = lastRequestID conn + 1 ∧
    (∀ id e, id ≠ lastRequestID conn + 1 →
       resHandlers conn !! id = Some e → resHandlers conn' !! id = Some e) ∧
    match a with
    | Answered _ _ => resHandlers conn' !! (lastRequestID conn + 1) = None
    | _ => is_Some (resHandlers conn' !! (lastRequestID conn + 1))
    end.
Proof.
  intros Hrange.
  assert (wrap32 (lastRequestID conn + 1) = lastRequestID conn + 1) as Hid
    by (apply RequestIdProofs.wrap32_small; lia).
  assert (Hch : (chans conn ++ [mkChan [] false]) !! length (chans conn) =
                Some (mkChan [] false)).
  { rewrite lookup_app_r by lia. by rewrite Nat.sub_diag. }
  destruct a as [e | | code msg]; unfold sendAndAwait, SendRequest; rewrite Hid.
  - eexists. split; [reflexivity |]. simpl. split; [done |]. split.
    + intros id e' Hne He. by rewrite lookup_insert_ne.
    + rewrite lookup_insert_eq. by eexists.
  - unfold awaiter. cbn [chans]. rewrite Hch. cbn [mbind option_bind closed].
    eexists. split; [reflexivity |]. simpl. split; [done |]. split.
    + intros id e' Hne He. by rewrite lookup_insert_ne.
    + rewrite lookup_insert_eq. by eexists.
  - unfold handleResponse. cbn [RequestId RequestType_ mbind option_bind resHandlers].
    rewrite lookup_insert_eq. cbn [Request_Type resC chans lastRequestID].
    rewrite decide_True by done. rewrite Hch. cbn [mbind option_bind].
    unfold awaiter. cbn [chans].
    rewrite list_lookup_insert_eq by (rewrite length_app; simpl; lia).
    cbn [HandleResponse buf closed mbind option_bind].
    eexists. split; [reflexivity |]. cbn [lastRequestID resHandlers].
    split; [done |]. split.
    + intros id e' Hne He. rewrite lookup_delete_ne by done. by rewrite lookup_insert_ne.
    + apply lookup_delete_eq.
Qed.

Lemma timeout_goes_round obs :
  obsWebsocketAlive obs = true → afterAwait (errorOf showInt TimesOut) obs = Again.
Proof. intros Ha. unfold afterAwait. simpl. by rewrite Ha. Qed.

End Run.

(** X18: [requestLocalStreaming] asks again after every timeout.  Let the
    first [k] requests time out while the websocket is seen alive, and let
    the next attempt be one after which the loop does not go round (an
    answer, a failed send, or a timeout with the websocket seen dead).
    Then the function returns after [k + 1] requests; it has passed the
    state manager at most one update, the one the branches on the last
    error choose, and [Requested] exactly when the last request was
    answered with status 200; each of the [k] requests that timed out is
    still registered as pending; every request that was pending before
    still is. *)
Theorem requestLocalStreaming_returns (PUT : RequestType) (showInt : Z → string)
    (waits : list observed) (final : attempt) (obsF : observed)
    (conn : WebsocketConnection) :
  Forall (λ o, obsWebsocketAlive o = true) waits →
  afterAwait (errorOf showInt final) obsF ≠ Again →
  -2^31 ≤ lastRequestID conn → lastRequestID conn + Z.of_nat (length waits) + 1 < 2^31 →
  ∃ conn' update,
    requestLocalStreaming PUT showInt
      (map (λ o, (TimesOut, o)) waits ++ [(final, obsF)]) conn = Some (conn', update) ∧
    afterAwait (errorOf showInt final) obsF = Return update ∧
    (update = Some StreamRequestState_Requested ↔ ∃ msg, final = Answered (Some 200) msg) ∧
    lastRequestID conn' = lastRequestID conn + Z.of_nat (length waits) + 1 ∧
    (∀ j, 1 ≤ j ≤ Z.of_nat (length waits) →
       is_Some (resHandlers conn' !! (lastRequestID conn + j))) ∧
    (∀ id e, id ≤ lastRequestID conn →
       resHandlers conn !! id = Some e → resHandlers conn' !! id = Some e).
Proof.
  intros Hwaits Hfinal. revert conn.
  induction Hwaits as [|o waits Ho Hwaits IH]; intros conn Hlo Hhi.
  - simpl in Hhi. cbn [map app requestLocalStreaming].
    destruct (sendAndAwait_spec PUT showInt final conn ltac:(lia)) as (conn' & E & Hlast & Hkeep & _).
    rewrite E. cbn [mbind option_bind].
    destruct (afterAwait (errorOf showInt final) obsF) as [update|] eqn:Hres; [| done].
    exists conn', update. split; [done |]. split; [done |]. split.
    { unfold afterAwait in Hres. split.
      - intros ->. destruct final as [e | | code msg]; simpl in Hres.
        + exfalso. repeat match type of Hres with
                          | context [decide ?P] => destruct (decide P)
                          end; done.
        + exfalso. repeat match type of Hres with
                          | context [decide ?P] => destruct (decide P)
                          | context [negb ?b] => destruct (negb b)
                          end; done.
        + unfold responseError in Hres. simpl in Hres.
          destruct code as [code|].
          2:{ exfalso. cbn in Hres.
              repeat match type of Hres with
                     | context [decide ?P] => destruct (decide P)
                     | context [negb ?b] => destruct (negb b)
                     end; done. }
          destruct (decide (code ≠ 200)) as [Hne|Heq%dec_stable].
          * exfalso. destruct msg as [m|]; [destruct (decide (m ≠ ""%string)) |];
              cbn in Hres;
              repeat match type of Hres with
                     | context [decide ?P] => destruct (decide P)
                     | context [negb ?b] => destruct (negb b)
                     end; done.
          * subst code. by exists msg.
      - intros [msg ->]. simpl in Hres. by injection Hres as <-. }
    split; [simpl; lia |]. split; [simpl; intros j Hj; lia |].
    intros id e Hid He. apply Hkeep; [lia | done].
  - cbn [length] in Hhi. cbn [map app requestLocalStreaming].
    destruct (sendAndAwait_spec PUT showInt TimesOut conn ltac:(lia)) as (conn1 & E & Hlast & Hkeep & Hreg).
    rewrite E. cbn [mbind option_bind]. rewrite (timeout_goes_round showInt o Ho).
    destruct (IH conn1 ltac:(lia) ltac:(lia))
      as (conn' & update & Hrun & Hres & Hreq & Hlast' & Hleak & Hkeep').
    exists conn', update. split; [exact Hrun |]. split; [done |]. split; [done |].
    split; [cbn [length]; lia |]. split.
    + intros j Hj. destruct (decide (j = 1)) as [->|Hne].
      * destruct Hreg as [e He]. exists e. apply Hkeep'; [lia | done].
      * replace (lastRequestID conn + j) with (lastRequestID conn1 + (j - 1)) by lia.
        apply Hleak. cbn [length] in Hj. lia.
    + intros id e Hid He. apply Hkeep'; [lia |]. apply Hkeep; [lia | done].
Qed.

Lemma requestLocalStreaming_returns_witness :
  ∃ conn',
    requestLocalStreaming 7 showNothing
      [(TimesOut, mkObserved StreamState_Unhealthy true);
       (Answered (Some 200) None, mkObserved StreamState_Unhealthy true)]
      NewWebsocketConnection = Some (conn', Some StreamRequestState_Requested) ∧
    lastRequestID conn' = 2 ∧ is_Some (resHandlers conn' !! 1).
Proof.
  destruct (requestLocalStreaming_returns 7 showNothing
              [mkObserved StreamState_Unhealthy true] (Answered (Some 200) None)
              (mkObserved StreamState_Unhealthy true) NewWebsocketConnection)
    as (conn' & update & Hrun & Hres & _ & Hlast & Hleak & _).
  - repeat constructor.
  - discriminate.
  - simpl. lia.
  - simpl. lia.
  - injection Hres as <-. exists conn'. split; [exact Hrun |].
    split; [exact Hlast |]. apply (Hleak 1). simpl. lia.
Defined.

End StreamRequestProofs.

(** ** Stream activity and the health report *)

Module HealthProofs.
Import baby accessors streaming hls activity healthapi HlsProofs.








End HealthProofs.

(** ** pkg/app/app.go: the retry test after the updates of the code *)

Module RetryCycleProofs.
Import baby app MergeSpec MergeProofs rtmpserver retrycycle.

(** What the three getters of the retry test read in a merged record:
    the value of the update where the update sets the field, and the
    value of the record otherwise. *)
Lemma Merge_getters (h : Heap) (cur u : addr) (curS patch : State) :
  loadState h cur = Some curS → loadState h u = Some patch →
  okState h curS = true → okState h patch = true →
  ∃ h2 r res,
    Merge h cur u = Some (h2, r) ∧ loadState h2 r = Some res ∧
    GetStreamState h2 res =
      (if IsNil (StreamState_ patch) then GetStreamState h curS
       else GetStreamState h patch) ∧
    GetStreamRequestState h2 res =
      (if IsNil (StreamRequestState_ patch) then GetStreamRequestState h curS
       else GetStreamRequestState h patch) ∧
    GetIsWebsocketAlive h2 res =
      (if IsNil (IsWebsocketAlive patch) then GetIsWebsocketAlive h curS
       else GetIsWebsocketAlive h patch).
Proof.
  intros Hc Hp Hoc Hop.
  destruct (Merge_scalar_fields h cur u curS patch Hc Hp Hoc Hop)
    as (h2 & r & res & HM & Hres & Hfields).
  exists h2, r, res. split; [done |]. split; [done |].
  pose proof (Elem_view _ _ _ (Hfields 0%nat ltac:(lia))) as H0.
  pose proof (Elem_view _ _ _ (Hfields 1%nat ltac:(lia))) as H1.
  pose proof (Elem_view _ _ _ (Hfields 2%nat ltac:(lia))) as H2.
  cbn [Field] in H0, H1, H2.
  unfold GetStreamState, GetStreamRequestState, GetIsWebsocketAlive.
  split; [| split].
  - destruct (StreamState_ res) as [a|], (StreamState_ patch) as [pa|],
      (StreamState_ curS) as [ca|]; simpl in *; by rewrite ?H0, <- ?H0.
  - destruct (StreamRequestState_ res) as [a|], (StreamRequestState_ patch) as [pa|],
      (StreamRequestState_ curS) as [ca|]; simpl in *; by rewrite ?H1, <- ?H1.
  - destruct (IsWebsocketAlive res) as [a|], (IsWebsocketAlive patch) as [pa|],
      (IsWebsocketAlive curS) as [ca|]; simpl in *; by rewrite ?H2, <- ?H2.
Qed.

(** Cells added behind the heap do not change what is read through the
    pointers of a well-formed record. *)
Lemma Elem_tail (h t : Heap) (s : State) (i : nat) :
  okState h s = true → (i < 12)%nat → Elem (h ++ t) (Field s i) = Elem h (Field s i).
Proof.
  intros Hok Hi. pose proof (okState_val h s i Hok Hi) as Hv.
  destruct (Field s i) as [a|]; [| done].
  apply okVal_Some in Hv as [v Hv]. simpl. unfold loadVal.
  by rewrite (lookup_app_l_Some _ _ _ _ Hv), Hv.
Qed.

(** The retry test on the record that results from merging an update
    that was allocated behind the heap. *)
Lemma retry_test_merged (opts : Opts) (h tail : Heap) (cur : addr) (curS patch : State) :
  loadState h cur = Some curS → okState h curS = true →
  okState (h ++ CState patch :: tail) patch = true →
  ∃ h2 r res,
    Merge (h ++ CState patch :: tail) cur (length h) = Some (h2, r) ∧
    loadState h2 r = Some res ∧
    (∀ a c, (h ++ CState patch :: tail) !! a = Some c → h2 !! a = Some c) ∧
    GetStreamRequestState h2 res =
      (if IsNil (StreamRequestState_ patch) then GetStreamRequestState h curS
       else GetStreamRequestState (h ++ CState patch :: tail) patch) ∧
    shouldRetryStreaming opts h2 res =
      autoStartOn opts &&
      (if IsNil (IsWebsocketAlive patch) then GetIsWebsocketAlive h curS
       else GetIsWebsocketAlive (h ++ CState patch :: tail) patch) &&
      bool_decide ((if IsNil (StreamRequestState_ patch) then GetStreamRequestState h curS
                    else GetStreamRequestState (h ++ CState patch :: tail) patch)
                   = StreamRequestState_RequestFailed) &&
      bool_decide ((if IsNil (StreamState_ patch) then GetStreamState h curS
                    else GetStreamState (h ++ CState patch :: tail) patch)
                   ≠ StreamState_Alive).
Proof.
  intros Hc Hoc. set (h1 := h ++ CState patch :: tail). intros Hop.
  assert (Hfr : ∀ a c, h !! a = Some c → h1 !! a = Some c).
  { intros a c Ha. by apply lookup_app_l_Some. }
  assert (Hc1 : loadState h1 cur = Some curS).
  { unfold loadState. by rewrite (Hfr _ _ (loadState_Some _ _ _ Hc)). }
  assert (Hoc1 : okState h1 curS = true) by (by eapply okState_frame).
  assert (Hp : loadState h1 (length h) = Some patch).
  { unfold loadState, h1. by rewrite list_lookup_middle. }
  destruct (Merge_getters h1 cur (length h) curS patch Hc1 Hp Hoc1 Hop)
    as (h2 & r & res & HM & Hres & HS & HR & HW).
  destruct (Merge_wf h1 cur (length h)) as (h2' & r' & HM' & Hfr2 & _).
  { unfold wfState. by rewrite Hc1. }
  { unfold wfState. by rewrite Hp. }
  rewrite HM in HM'. injection HM' as <- <-.
  exists h2, r, res. split; [done |]. split; [done |]. split; [done |].
  assert (GetStreamState h1 curS = GetStreamState h curS) as ES.
  { pose proof (Elem_tail h (CState patch :: tail) curS 0 Hoc ltac:(lia)) as E.
    unfold GetStreamState, h1. cbn [Field] in E.
    destruct (StreamState_ curS) as [a|]; [| done]. simpl in E. by rewrite E. }
  assert (GetStreamRequestState h1 curS = GetStreamRequestState h curS) as ER.
  { pose proof (Elem_tail h (CState patch :: tail) curS 1 Hoc ltac:(lia)) as E.
    unfold GetStreamRequestState, h1. cbn [Field] in E.
    destruct (StreamRequestState_ curS) as [a|]; [| done]. simpl in E. by rewrite E. }
  assert (GetIsWebsocketAlive h1 curS = GetIsWebsocketAlive h curS) as EW.
  { pose proof (Elem_tail h (CState patch :: tail) curS 2 Hoc ltac:(lia)) as E.
    unfold GetIsWebsocketAlive, h1. cbn [Field] in E.
    destruct (IsWebsocketAlive curS) as [a|]; [| done]. simpl in E. by rewrite E. }
  split; [by rewrite HR, ER |].
  unfold shouldRetryStreaming, autoStartOn. rewrite HS, HR, HW, ES, ER, EW.
  destruct (RTMP opts) as [rtmp|]; [| done]. by destruct (AutoStart rtmp).
Qed.

Lemma requestStateUpdate_eq (v : StreamRequestState) (h : Heap) :
  requestStateUpdate v h
  = Some (h ++ [CState (SetField emptyState 1 (Some (length h + 1)%nat));
                CVal (VStreamRequestState v)],
          length h).
Proof.
  unfold requestStateUpdate, NewState, alloc, SetStreamRequestState.
  by rewrite (RtmpProofs.setField_last h emptyState [] 1).
Qed.

Lemma stoppedUpdate_eq (h : Heap) :
  stoppedUpdate h
  = Some (h ++ [CState (SetField emptyState 0 (Some (length h + 1)%nat));
                CVal (VStreamState StreamState_Unhealthy)],
          length h).
Proof.
  unfold stoppedUpdate, NewState, alloc, SetStreamState.
  by rewrite (RtmpProofs.setField_last h emptyState [] 0).
Qed.

Lemma aliveUpdate_eq (h : Heap) :
  aliveUpdate h
  = Some (h ++ [CState (mkState (Some (length h + 1)%nat) (Some (length h + 2)%nat)
                                None None None None None None None None None None None);
                CVal (VStreamState StreamState_Alive);
                CVal (VStreamRequestState StreamRequestState_NotRequested)],
          length h).
Proof.
  unfold aliveUpdate, NewState, alloc, SetStreamState, SetStreamRequestState.
  rewrite (RtmpProofs.setField_last h emptyState [] 0). simpl.
  by rewrite (RtmpProofs.setField_last h _ [CVal (VStreamState StreamState_Alive)] 1).
Qed.

Ltac fresh_patch_ok :=
  unfold okState, okVal, okDeviceInfo, loadVal; simpl;
  rewrite ?HeapProofs.heap_lookup_tail; reflexivity.

Ltac merge_patch opts h Hc Hoc :=
  match goal with
  | |- context [Some (h ++ CState ?patch :: ?tail, length h) = _] =>
    destruct (retry_test_merged opts h tail _ _ patch Hc Hoc)
      as (h2 & r & res & HM & Hres & _ & _ & Hret); [fresh_patch_ok |];
    eexists _, _, h2, r, res; (split; [reflexivity |]); (split; [exact HM |]);
    (split; [exact Hres |]); rewrite Hret
  end.

(** X22: the retry test after the updates of the code.  Merged into a
    well-formed record, each update leaves a record on which
    [shouldRetryStreaming] answers as follows.  After the update of
    [requestLocalStreaming] or of [retryStreaming], which sets the request
    state [v]: yes exactly when [v] is [RequestFailed], auto-start is on,
    and the record had the websocket alive and the stream not alive; so
    after the reset of [retryStreaming] and after a successful request the
    answer is no.  After the update of a publisher that connects: no.
    After the update of [autoStopStreaming] and after that of a publisher
    whose read failed, which set the stream state to unhealthy: yes
    exactly when auto-start is on and the record had the websocket alive
    and the request failed. *)
Theorem retry_test_after_updates (opts : Opts) (h : Heap) (cur : addr) (curS : State) :
  loadState h cur = Some curS → okState h curS = true →
  (∀ v, ∃ h1 u h2 r res,
     requestStateUpdate v h = Some (h1, u) ∧ Merge h1 cur u = Some (h2, r) ∧
     loadState h2 r = Some res ∧
     shouldRetryStreaming opts h2 res =
       autoStartOn opts && GetIsWebsocketAlive h curS &&
       bool_decide (v = StreamRequestState_RequestFailed) &&
       bool_decide (GetStreamState h curS ≠ StreamState_Alive)) ∧
  (∃ h1 u h2 r res,
     aliveUpdate h = Some (h1, u) ∧ Merge h1 cur u = Some (h2, r) ∧
     loadState h2 r = Some res ∧ shouldRetryStreaming opts h2 res = false) ∧
  (∀ build, build = stoppedUpdate ∨ build = unhealthyUpdate →
   ∃ h1 u h2 r res,
     build h = Some (h1, u) ∧ Merge h1 cur u = Some (h2, r) ∧
     loadState h2 r = Some res ∧
     shouldRetryStreaming opts h2 res =
       autoStartOn opts && GetIsWebsocketAlive h curS &&
       bool_decide (GetStreamRequestState h curS = StreamRequestState_RequestFailed)).
Proof.
  intros Hc Hoc. split; [| split].
  - intros v. rewrite requestStateUpdate_eq.
    merge_patch opts h Hc Hoc. cbn [IsNil SetField emptyState IsWebsocketAlive
      StreamRequestState_ StreamState_].
    unfold GetStreamRequestState. cbn [SetField emptyState StreamRequestState_].
    unfold loadVal. rewrite HeapProofs.heap_lookup_tail. cbn [lookup list_lookup].
    done.
  - rewrite aliveUpdate_eq.
    merge_patch opts h Hc Hoc. cbn [IsNil IsWebsocketAlive
      StreamRequestState_ StreamState_].
    unfold GetStreamState, GetStreamRequestState. cbn [StreamRequestState_ StreamState_].
    unfold loadVal. rewrite !HeapProofs.heap_lookup_tail. cbn [lookup list_lookup].
    rewrite (bool_decide_eq_false_2 (StreamState_Alive ≠ StreamState_Alive)) by (by intros ?).
    by rewrite !andb_false_r.
  - intros build [-> | ->]; [rewrite stoppedUpdate_eq | rewrite RtmpProofs.unhealthyUpdate_eq].
    all: merge_patch opts h Hc Hoc;
      cbn [IsNil SetField emptyState IsWebsocketAlive StreamRequestState_ StreamState_];
      unfold GetStreamState; cbn [SetField emptyState StreamState_];
      unfold loadVal; rewrite HeapProofs.heap_lookup_tail; cbn [lookup list_lookup];
      rewrite (bool_decide_eq_true_2 (StreamState_Unhealthy ≠ StreamState_Alive)) by done;
      by rewrite andb_true_r.
Qed.



Lemma retry_test_after_updates_witness :
  ∃ h1 u h2 r res,
    requestStateUpdate StreamRequestState_RequestFailed heapWebsocketAlive = Some (h1, u) ∧
    Merge h1 1 u = Some (h2, r) ∧ loadState h2 r = Some res ∧
    shouldRetryStreaming optsAutoStart h2 res = true.
Proof.
  destruct (retry_test_after_updates optsAutoStart heapWebsocketAlive 1 stateWebsocketAlive
              eq_refl eq_refl) as [Hreq _].
  destruct (Hreq StreamRequestState_RequestFailed)
    as (h1 & u & h2 & r & res & E & HM & Hres & Hret).
  exists h1, u, h2, r, res.
  split; [exact E |]. split; [exact HM |]. split; [exact Hres | exact Hret].
Defined.


End RetryCycleProofs.

(** ** pkg/app/api_handlers.go: handleHLSStreamAPI *)

Module HlsApiProofs.
Import app localstream streaming hls accessors hlsapi.

Lemma Split_nonempty (s : string) : Split s ≠ [].
Proof.
  induction s as [|c s IH]; [done |]. simpl.
  destruct (Ascii.eqb c "/"); [done |]. by destruct (Split s).
Qed.

Lemma Contains_slash_cons (c : ascii) (s : string) :
  Contains (String c s) "/" = Ascii.eqb c "/" || Contains s "/".
Proof.
  cbn [Contains String.prefix].
  destruct (Ascii.eqb_spec c "/") as [-> | Hne].
  - destruct (ascii_dec "/" "/") as [_ | Hne]; [by destruct s | by destruct Hne].
  - by destruct (ascii_dec "/" c) as [E | _]; [destruct Hne |].
Qed.

(** No piece has a slash in it. *)
Lemma Split_pieces (s : string) : Forall (λ p, Contains p "/" = false) (Split s).
Proof.
  induction s as [|c s IH]; [by repeat constructor |]. simpl.
  destruct (Ascii.eqb c "/") eqn:Ec; [by constructor |].
  pose proof (Split_nonempty s) as Hne.
  destruct (Split s) as [|p ps]; [done |].
  inversion IH as [|? ? Hp Hps]; subst. constructor; [| done].
  by rewrite Contains_slash_cons, Ec, Hp.
Qed.

(** The pieces, put together with slashes, give the string. *)
Lemma Split_concat (s : string) : String.concat "/" (Split s) = s.
Proof.
  induction s as [|c s IH]; [done |]. cbn [Split].
  pose proof (Split_nonempty s) as Hne.
  destruct (Ascii.eqb_spec c "/") as [-> | Hc].
  - destruct (Split s) as [|p ps]; [done |].
    change (String.concat "/" ("" :: p :: ps))%string
      with (String "/" (String.concat "/" (p :: ps))).
    by rewrite IH.
  - destruct (Split s) as [|p ps]; [done |].
    rewrite <- IH. by destruct ps.
Qed.

(** One piece exactly when there is no slash. *)
Lemma Split_single (s : string) : (∃ p, Split s = [p]) ↔ Contains s "/" = false.
Proof.
  induction s as [|c s IH]; [by split; [| eexists] |].
  rewrite Contains_slash_cons. cbn [Split].
  pose proof (Split_nonempty s) as Hne.
  destruct (Ascii.eqb c "/"); simpl.
  - split; [| done]. intros [p Hp]. by destruct (Split s).
  - rewrite <- IH. destruct (Split s) as [|q [|q' qs]]; [done | |].
    + split; by eexists.
    + split; intros [p Hp]; done.
Qed.

Lemma TrimPrefix_prefix (s prefix : string) :
  String.prefix prefix s = true → s = (prefix +:+ TrimPrefix s prefix)%string.
Proof.
  unfold TrimPrefix. intros Hp. rewrite Hp. revert s Hp.
  induction prefix as [|a p IH]; intros s Hp; [by destruct s |].
  destruct s as [|b s]; [done |]. cbn [String.prefix] in Hp.
  destruct (ascii_dec a b) as [-> | _]; [| done].
  cbn [String.length dropBytes]. change (String b p +:+ ?x)%string with (String b (p +:+ x)).
  f_equal. by apply IH.
Qed.

(** X24: the path of a request for an HLS file.  [handleHLSStreamAPI]
    answers "Invalid stream path" exactly when what follows the prefix of
    the route has no slash.  When it hands a file to [http.ServeFile], the
    path behind the prefix is a baby UID, a slash and a file name, possibly
    followed by a slash and more, which is ignored; neither the UID nor the
    file name has a slash in it; the manager has a transcoder for the UID
    and it is running; the file is the one of that name in the directory
    of the transcoder and [os.Stat] did not report it missing; and the
    headers are those of a playlist for a name that ends in [.m3u8], those
    of a segment for one that ends in [.ts], and none otherwise. *)
Theorem handleHLSStreamAPI_path (Join : string → string → string) (notExist : string → bool)
    (GetHLSDir : transcoder → string) (urlPath : string) (m : HLSManager) :
  (handleHLSStreamAPI Join notExist GetHLSDir urlPath m = InvalidPath ↔
   Contains (TrimPrefix urlPath "/api/stream/hls/") "/" = false) ∧
  (∀ contentType cacheControl filePath,
     handleHLSStreamAPI Join notExist GetHLSDir urlPath m
       = ServeFile contentType cacheControl filePath →
     ∃ babyUID fileName rest t,
       TrimPrefix urlPath "/api/stream/hls/"
         = (babyUID +:+ "/" +:+ fileName +:+ rest)%string ∧
       (rest = ""%string ∨ String.prefix "/" rest = true) ∧
       Contains babyUID "/" = false ∧ Contains fileName "/" = false ∧
       GetTranscoder babyUID m = Some t ∧ IsRunning t = true ∧
       filePath = Join (GetHLSDir t) fileName ∧ notExist filePath = false ∧
       (contentType, cacheControl) =
         (if HasSuffix fileName ".m3u8"
          then (Some "application/vnd.apple.mpegurl", Some "no-cache")
          else if HasSuffix fileName ".ts"
          then (Some "video/mp2t", Some "max-age=3600")
          else (None, None))%string) ∧
  (String.prefix "/api/stream/hls/" urlPath = true →
   urlPath = ("/api/stream/hls/" +:+ TrimPrefix urlPath "/api/stream/hls/")%string).
Proof.
  split; [| split; [| apply TrimPrefix_prefix]].
  - unfold handleHLSStreamAPI. rewrite <- Split_single.
    destruct (Split (TrimPrefix urlPath "/api/stream/hls/")) as [|b [|f ps]] eqn:E.
    + by apply Split_nonempty in E.
    + split; [by eexists | done].
    + split; [| by intros [p Hp]].
      destruct (GetTranscoder b m) as [t|]; [| done].
      destruct (IsRunning t); simpl; [| by destruct (GetStatus (sup t))].
      destruct (notExist _); [by destruct (GetStatus (sup t)) |].
      by repeat case_match.
  - intros ct cc filePath. unfold handleHLSStreamAPI.
    pose proof (Split_pieces (TrimPrefix urlPath "/api/stream/hls/")) as Hpieces.
    pose proof (Split_concat (TrimPrefix urlPath "/api/stream/hls/")) as Hconcat.
    destruct (Split (TrimPrefix urlPath "/api/stream/hls/")) as [|b [|f ps]] eqn:E;
      [done | done |].
    destruct (GetTranscoder b m) as [t|] eqn:Ht; [| done].
    destruct (IsRunning t) eqn:Hrun; simpl; [| by destruct (GetStatus (sup t))].
    destruct (notExist (Join (GetHLSDir t) f)) eqn:Hex; [by destruct (GetStatus (sup t)) |].
    intros Hserve.
    inversion Hpieces as [|? ? Hb Hrest]; subst.
    inversion Hrest as [|? ? Hf _]; subst.
    exists b, f, (match ps with
                  | [] => ""
                  | _ => "/" +:+ String.concat "/" ps
                  end)%string, t.
    split.
    { rewrite <- Hconcat. destruct ps as [|p ps]; [| done].
      cbn [String.concat]. by rewrite LocalStreamProofs.append_empty_r. }
    split.
    { destruct ps as [|p ps]; [by left | right].
      change ("/" +:+ ?x)%string with (String "/" x). cbn [String.prefix].
      destruct (ascii_dec "/" "/") as [_ | Hne]; [| by destruct Hne].
      by destruct (String.concat "/" (p :: ps)). }
    split; [done |]. split; [done |]. split; [done |]. split; [done |].
    destruct (HasSuffix f ".m3u8"); [by injection Hserve as <- <- <- |].
    destruct (HasSuffix f ".ts"); by injection Hserve as <- <- <-.
Qed.





End HlsApiProofs.
